(** * k8s-tester configuration: environment overrides and persistence

    A shallow embedding of the configuration core of [k8s-tester]
    (package [k8s_tester]: the struct [Config] and the functions
    [NewDefault], [Load], [Sync], [unsafeSync], [UpdateFromEnvs] and
    [parseEnvs]; package [ec2]: [SubnetRouteTableAssociation]) together
    with the parts of the Go standard library the code goes through
    ([strings], [strconv], [path/filepath], [reflect], [os]).

    Conventions.
    - A Go string is a [string] of bytes.
    - A Go function returning [(T, error)] returns a pair
      [T * option error]; [None] is the [nil] error.
    - Code that writes through a pointer returns the state of the pointee
      after the call next to what the Go function returns.
    - Library functions whose text is outside the repository and that are
      not rebuilt here ([time.ParseDuration], [strconv.ParseFloat],
      [json.Unmarshal], the upper case of Unicode, the YAML and JSON
      codecs) are fields of a record the model is parameterised by, and
      so is the way the kernel resolves the name of a file. *)

From Stdlib Require Import ZArith Lia Ascii.
From stdpp Require Import base option list strings gmap.

Local Open Scope Z_scope.

(** ** Errors *)

(** The two sentinel errors of [strconv]. *)
Inductive NumErr := ErrSyntax | ErrRange.

(** Go [error] values built by the code.  [parseEnvs] and [unsafeSync]
    build theirs with [fmt.Errorf]; each constructor keeps the arguments
    of one format string:
    - [ReadOnlyViolation env sv]:
      ['%s=%s' is 'read-only' field; should not be set];
    - [TypeCoercionError sv fieldName env cause]:
      [failed to parse %q (field name %q, environmental variable key %q, error %v)];
    - [UnsupportedFieldKind fieldName]:
      [field %q not supported for reflect.Map];
    - [EmptyConfigPath]: [empty config path];
    - [PathResolutionError path cause]: [failed to 'filepath.Abs(%s)' %v];
    - [SerializationError cause]: [failed to 'yaml.Marshal' %v];
    - [WriteError path cause]: [failed to write file %q (%v)].
    [NumError fn num e] is [*strconv.NumError]; [LibError] is an error
    of a library the model does not look into. *)
Inductive error :=
| NumError (fn num : string) (e : NumErr)
| LibError (msg : string)
| ReadOnlyViolation (env sv : string)
| TypeCoercionError (sv fieldName env : string) (cause : error)
| UnsupportedFieldKind (fieldName : string)
| EmptyConfigPath
| PathResolutionError (path : string) (cause : error)
| SerializationError (cause : error)
| WriteError (path : string) (cause : error).

(** ** Package [strings] *)

Module Strings.

(** [strings.HasPrefix]. *)
Definition HasPrefix (s prefix : string) : bool := String.prefix prefix s.

(** Scans [s] left to right; [skip] counts the bytes of a matched
    occurrence of [old] still to be dropped. *)
Fixpoint replace_from (skip : nat) (old new s : string) : string :=
  match s with
  | EmptyString => EmptyString
  | String c r =>
      match skip with
      | S k => replace_from k old new r
      | O =>
          if HasPrefix s old
          then new +:+ replace_from (String.length old - 1) old new r
          else String c (replace_from 0 old new r)
      end
  end.

(** With an empty [old], Go puts [new] in front of the string and after
    every character. *)
Fixpoint insert_after_each (new s : string) : string :=
  match s with
  | EmptyString => EmptyString
  | String c r => String c (new +:+ insert_after_each new r)
  end.

(** [strings.Replace(s, old, new, -1)]: every non-overlapping occurrence
    of [old], leftmost first. *)
Definition Replace (s old new : string) : string :=
  match old with
  | EmptyString => new +:+ insert_after_each new s
  | _ => replace_from 0 old new s
  end.

Definition upper (c : ascii) : ascii :=
  let n := Ascii.nat_of_ascii c in
  if ((97 <=? n) && (n <=? 122))%nat then Ascii.ascii_of_nat (n - 32) else c.

(** Every byte of the string is below [utf8.RuneSelf]. *)
Fixpoint isASCII (s : string) : bool :=
  match s with
  | EmptyString => true
  | String c r => (Ascii.nat_of_ascii c <? 128)%nat && isASCII r
  end.

(** The path of [strings.ToUpper] for a string of ASCII bytes: the
    letters [a]-[z] are mapped, every other byte is kept. *)
Fixpoint upperASCII (s : string) : string :=
  match s with
  | EmptyString => EmptyString
  | String c r => String (upper c) (upperASCII r)
  end.

(** [strings.ToUpper].  A string with a byte outside ASCII is handed to
    [strings.Map(unicode.ToUpper, s)], which is [mapUpper], taken as
    given: the Unicode tables are not modelled. *)
Definition ToUpper (mapUpper : string -> string) (s : string) : string :=
  if isASCII s then upperASCII s else mapUpper s.

Fixpoint split_from (skip : nat) (sep s : string) : list string :=
  match s with
  | EmptyString => [EmptyString]
  | String c r =>
      match skip with
      | S k => split_from k sep r
      | O =>
          if HasPrefix s sep
          then EmptyString :: split_from (String.length sep - 1) sep r
          else match split_from 0 sep r with
               | h :: t => String c h :: t
               | [] => [String c EmptyString]
               end
      end
  end.

Fixpoint explode (s : string) : list string :=
  match s with
  | EmptyString => []
  | String c r => String c EmptyString :: explode r
  end.

(** [strings.Split(s, sep)].  With an empty separator Go explodes the
    string into its characters. *)
Definition Split (s sep : string) : list string :=
  match sep with
  | EmptyString => explode s
  | _ => split_from 0 sep s
  end.

(** [strings.Join]. *)
Fixpoint Join (elems : list string) (sep : string) : string :=
  match elems with
  | [] => EmptyString
  | [e] => e
  | e :: rest => e +:+ sep +:+ Join rest sep
  end.

End Strings.

(** ** Package [strconv] *)

Module Strconv.

Definition syntaxError (fn str : string) : error := NumError fn str ErrSyntax.
Definition rangeError (fn str : string) : error := NumError fn str ErrRange.

(** [strconv.ParseBool]. *)
Definition ParseBool (str : string) : bool * option error :=
  if bool_decide (str ∈ ["1"; "t"; "T"; "TRUE"; "true"; "True"]) then (true, None)
  else if bool_decide (str ∈ ["0"; "f"; "F"; "FALSE"; "false"; "False"]) then (false, None)
  else (false, Some (syntaxError "ParseBool" str)).

Definition maxUint64 : Z := 2 ^ 64 - 1.

(** The value of a decimal digit.  In base 10 every other byte, the
    underscore and the letters included, is a syntax error. *)
Definition digit (c : ascii) : option Z :=
  let n := Z.of_nat (Ascii.nat_of_ascii c) in
  if (48 <=? n) && (n <=? 57) then Some (n - 48) else None.

(** The digit loop of [strconv.ParseUint(s, 10, 64)] on [uint64]. *)
Fixpoint parseUint_loop (s0 : string) (n : Z) (s : string) : Z * option error :=
  match s with
  | EmptyString => (n, None)
  | String c r =>
      match digit c with
      | None => (0, Some (syntaxError "ParseUint" s0))
      | Some d =>
          if maxUint64 / 10 + 1 <=? n then (maxUint64, Some (rangeError "ParseUint" s0))
          else
            let n := n * 10 in
            let n1 := (n + d) mod 2 ^ 64 in
            if (n1 <? n) || (maxUint64 <? n1)
            then (maxUint64, Some (rangeError "ParseUint" s0))
            else parseUint_loop s0 n1 r
      end
  end.

(** [strconv.ParseUint(s, 10, 64)]. *)
Definition ParseUint (s : string) : Z * option error :=
  match s with
  | EmptyString => (0, Some (syntaxError "ParseUint" s))
  | _ => parseUint_loop s 0 s
  end.

(** [strconv.ParseInt(s, 10, 64)]. *)
Definition ParseInt (s : string) : Z * option error :=
  match s with
  | EmptyString => (0, Some (syntaxError "ParseInt" s))
  | String c r =>
      let s0 := s in
      let '(neg, s) :=
        if bool_decide (c = "+"%char) then (false, r)
        else if bool_decide (c = "-"%char) then (true, r)
        else (false, s) in
      let '(un, err) := ParseUint s in
      match err with
      | Some (NumError _ _ ErrRange) | None =>
          let cutoff := 2 ^ 63 in
          if negb neg && (cutoff <=? un) then (cutoff - 1, Some (rangeError "ParseInt" s0))
          else if neg && (cutoff <? un) then (- cutoff, Some (rangeError "ParseInt" s0))
          else (if neg then - un else un, None)
      | Some _ => (0, Some (syntaxError "ParseInt" s0))
      end
  end.

End Strconv.


(** ** Package [os]: the process environment *)

(** [os.Getenv]: the value of the variable, empty when it is not set. *)
Definition Getenv (environ : gmap string string) (key : string) : string :=
  default EmptyString (environ !! key).

(** ** Package [reflect] *)

(** [reflect.Kind]. *)
Inductive Kind :=
| Invalid | Bool | Int | Int8 | Int16 | Int32 | Int64
| Uint | Uint8 | Uint16 | Uint32 | Uint64 | Uintptr
| Float32 | Float64 | Complex64 | Complex128
| Array | Chan | Func | Interface | Map | Pointer | Slice | String_ | Struct
| UnsafePointer.

(** Go types, as far as [parseEnvs] tells them apart.  [TPlain k] is the
    predeclared type of a scalar kind ([bool], [int], [string], ...) or
    some unnamed type of a composite kind whose parts are not needed
    (a pointer, a channel, a struct); [TNamed name u] is the defined type
    [name] with underlying type [u], such as [time.Duration], which is
    [TNamed "Duration" (TPlain Int64)]. *)
Inductive GoType :=
| TPlain (k : Kind)
| TSliceOf (elem : GoType)
| TMapOf (key elem : GoType)
| TNamed (name : string) (underlying : GoType).

#[global] Instance Kind_eq_dec : EqDecision Kind.
Proof. solve_decision. Defined.

#[global] Instance GoType_eq_dec : EqDecision GoType.
Proof. solve_decision. Defined.

(** [Type.Kind()]. *)
Fixpoint kindOf (t : GoType) : Kind :=
  match t with
  | TPlain k => k
  | TSliceOf _ => Slice
  | TMapOf _ _ => Map
  | TNamed _ u => kindOf u
  end.

(** [Type.Name()]: the name of a defined or predeclared type, empty for
    an unnamed one. *)
Definition typeName (t : GoType) : string :=
  match t with
  | TNamed name _ => name
  | TPlain Bool => "bool" | TPlain String_ => "string"
  | TPlain Int => "int" | TPlain Int8 => "int8" | TPlain Int16 => "int16"
  | TPlain Int32 => "int32" | TPlain Int64 => "int64"
  | TPlain Uint => "uint" | TPlain Uint8 => "uint8" | TPlain Uint16 => "uint16"
  | TPlain Uint32 => "uint32" | TPlain Uint64 => "uint64" | TPlain Uintptr => "uintptr"
  | TPlain Float32 => "float32" | TPlain Float64 => "float64"
  | TPlain Complex64 => "complex64" | TPlain Complex128 => "complex128"
  | _ => EmptyString
  end.

Fixpoint underlying (t : GoType) : GoType :=
  match t with
  | TNamed _ u => underlying u
  | _ => t
  end.

(** Assignability of a value of the unnamed type [src] to [dst]: the
    types are identical, or their underlying types are. *)
Definition assignableTo (src dst : GoType) : bool :=
  bool_decide (underlying dst = src).

Definition stringSlice : GoType := TSliceOf (TPlain String_).
Definition stringMap : GoType := TMapOf (TPlain String_) (TPlain String_).

(** [reflect.StructField].  [Tag] holds the key/value pairs of the struct
    tag in the order written; [PkgPath] is empty for an exported field. *)
Record StructField := {
  Name : string;
  PkgPath : string;
  Type_ : GoType;
  Tag : list (string * string);
}.

(** [StructTag.Get]: the value of the first pair with that key, empty
    when there is none. *)
Fixpoint Tag_Get (tag : list (string * string)) (key : string) : string :=
  match tag with
  | [] => EmptyString
  | (k, v) :: rest => if bool_decide (k = key) then v else Tag_Get rest key
  end.

(** The value held by a field.  Integers are kept as numbers in the range
    of their kind, floats as their IEEE 754 binary64 image; [None] is the
    [nil] slice or map; [VOpaque] is anything [parseEnvs] cannot write
    (pointers, channels, structs, slices and maps of other types). *)
Inductive Value :=
| VString (s : string)
| VBool (b : bool)
| VInt (n : Z)
| VUint (n : Z)
| VFloat (bits : Z)
| VSlice (ss : option (list string))
| VMap (m : option (gmap string string))
| VOpaque (id : N).

(** A struct seen through [reflect.TypeOf(addOn).Elem()] and
    [reflect.ValueOf(addOn).Elem()]: field [i] of the type next to field
    [i] of the value. *)
Abbreviation Field := (StructField * Value)%type (only parsing).
Abbreviation StructValue := (list (StructField * Value)) (only parsing).

(** Width in bits of the integer and float kinds ([int] and [uint] on a
    64-bit platform). *)
Definition bitSize (k : Kind) : Z :=
  match k with
  | Int8 | Uint8 => 8
  | Int16 | Uint16 => 16
  | Int32 | Uint32 | Float32 => 32
  | _ => 64
  end.

(** Conversion of an [int64] to the signed integer type of [w] bits. *)
Definition wrapSigned (w x : Z) : Z :=
  (x + 2 ^ (w - 1)) mod 2 ^ w - 2 ^ (w - 1).

(** Conversion of a [uint64] to the unsigned integer type of [w] bits. *)
Definition wrapUnsigned (w x : Z) : Z := x mod 2 ^ w.

(** [Value.CanSet] for a field reached through a pointer to the struct:
    the field is exported. *)
Definition CanSet (sf : StructField) : bool :=
  bool_decide (PkgPath sf = EmptyString).

(** ** [parseEnvs] *)

(** The library functions called by [parseEnvs] that the model takes as
    given: [time.ParseDuration] (the duration in nanoseconds),
    [strconv.ParseFloat(s, 64)], the conversion of a [float64] to
    [float32] done by [Value.SetFloat] on a [Float32] field,
    [json.Unmarshal] into a fresh [map[string]string] (the map it leaves
    behind and its error), and [strings.Map(unicode.ToUpper, s)], the
    upper case of a string that is not all ASCII. *)
Record Library := {
  strings_Map_ToUpper : string -> string;
  time_ParseDuration : string -> Z * option error;
  strconv_ParseFloat : string -> Z * option error;
  float32 : Z -> Z;
  json_Unmarshal : string -> option (gmap string string) * option error;
}.

(** What one turn of the loop does: go on to the next field ([continue]
    or the end of the body), [return nil, err], or panic inside
    [reflect].  Each carries what the field holds at that point. *)
Inductive Step :=
| Next (v : Value)
| Return (v : Value) (err : error)
| Panic (v : Value).

(** The scalar setters [SetString], [SetBool], [SetInt], [SetUint] and
    [SetFloat] panic on a field that cannot be set. *)
Definition set (sf : StructField) (old new : Value) : Step :=
  if CanSet sf then Next new else Panic old.

(** [Value.Set] with a value of type [src] also panics when [src] is not
    assignable to the type of the field. *)
Definition Set_ (sf : StructField) (src : GoType) (old new : Value) : Step :=
  if CanSet sf && assignableTo src (Type_ sf) then Next new else Panic old.

(** [reflect.MakeSlice(reflect.TypeOf([]string{}), n, n)]. *)
Definition MakeSlice (n : nat) : list string := replicate n EmptyString.

(** [for j := range ss { slice.Index(j).SetString(ss[j]) }] on a slice
    made with [len(ss)] elements. *)
Definition fillSlice (ss : list string) : list string :=
  foldl (fun slice j => <[j := default EmptyString (ss !! j)]> slice)
        (MakeSlice (length ss)) (seq 0 (length ss)).

(** The names of the map fields [parseEnvs] accepts. *)
Definition mapFieldNames : list string :=
  ["Tags"; "NodeSelector"; "DeploymentNodeSelector"; "DeploymentNodeSelector2048"].

(** The key [parseEnvs] derives from a json tag and the name of the
    variable it looks up for a field (lines 309 to 311). *)
Definition envKey (L : Library) (jv : string) : string :=
  let jv := Strings.Replace jv ",omitempty" "" in
  Strings.ToUpper (strings_Map_ToUpper L) (Strings.Replace jv "-" "_").

Definition envName (L : Library) (pfx : string) (sf : StructField) : string :=
  pfx +:+ envKey L (Tag_Get (Tag sf) "json").

Section ParseEnvs.
Context (L : Library) (environ : gmap string string).

(** The body of the loop of [parseEnvs] for the field [sf] holding [v]. *)
Definition parseField (pfx : string) (sf : StructField) (v : Value) : Step :=
  let jv := Tag_Get (Tag sf) "json" in
  if bool_decide (jv = EmptyString) then Next v else
  let jv := Strings.Replace jv ",omitempty" "" in
  let jv := Strings.ToUpper (strings_Map_ToUpper L) (Strings.Replace jv "-" "_") in
  let env := pfx +:+ jv in
  let sv := Getenv environ env in
  if bool_decide (sv = EmptyString) then Next v else
  if bool_decide (Tag_Get (Tag sf) "read-only" = "true")
  then Return v (ReadOnlyViolation env sv) else
  let fieldName := Name sf in
  let k := kindOf (Type_ sf) in
  match k with
  | String_ => set sf v (VString sv)
  | Bool =>
      let '(bb, err) := Strconv.ParseBool sv in
      match err with
      | Some err => Return v (TypeCoercionError sv fieldName env err)
      | None => set sf v (VBool bb)
      end
  | Int | Int32 | Int64 =>
      if bool_decide (typeName (Type_ sf) = "Duration") then
        let '(iv, err) := time_ParseDuration L sv in
        match err with
        | Some err => Return v (TypeCoercionError sv fieldName env err)
        | None => set sf v (VInt (wrapSigned (bitSize k) iv))
        end
      else
        let '(iv, err) := Strconv.ParseInt sv in
        match err with
        | Some err => Return v (TypeCoercionError sv fieldName env err)
        | None => set sf v (VInt (wrapSigned (bitSize k) iv))
        end
  | Uint | Uint32 | Uint64 =>
      let '(iv, err) := Strconv.ParseUint sv in
      match err with
      | Some err => Return v (TypeCoercionError sv fieldName env err)
      | None => set sf v (VUint (wrapUnsigned (bitSize k) iv))
      end
  | Float32 | Float64 =>
      let '(fv, err) := strconv_ParseFloat L sv in
      match err with
      | Some err => Return v (TypeCoercionError sv fieldName env err)
      | None => set sf v (VFloat (if bool_decide (k = Float32) then float32 L fv else fv))
      end
  | Slice =>
      let ss := Strings.Split sv "," in
      if (length ss <? 1)%nat then Next v
      else Set_ sf stringSlice v (VSlice (Some (fillSlice ss)))
  | Map =>
      if bool_decide (fieldName ∈ mapFieldNames) then
        match Set_ sf stringMap v (VMap (Some ∅)) with
        | Next v =>
            let '(mm, err) := json_Unmarshal L sv in
            match err with
            | Some err => Return v (TypeCoercionError sv fieldName env err)
            | None => Set_ sf stringMap v (VMap mm)
            end
        | stop => stop
        end
      else Return v (UnsupportedFieldKind fieldName)
  | _ => Next v
  end.

(** How the loop ends. *)
Inductive LoopEnd := Done | Failed (err : error) | Crashed.

(** [for i := 0; i < tp.NumField(); i++ { ... }]: the fields in the order
    declared, up to the first that returns or panics.  The list is the
    struct as the loop leaves it. *)
Fixpoint parseFields (pfx : string) (fields : StructValue) : StructValue * LoopEnd :=
  match fields with
  | [] => ([], Done)
  | (sf, v) :: rest =>
      match parseField pfx sf v with
      | Next v' =>
          let '(rest', e) := parseFields pfx rest in ((sf, v') :: rest', e)
      | Return v' err => ((sf, v') :: rest, Failed err)
      | Panic v' => ((sf, v') :: rest, Crashed)
      end
  end.

(** What a call hands back: the two results, or a panic. *)
Inductive Outcome :=
| Returned (addOn : option StructValue) (err : option error)
| Panicked.

(** [parseEnvs(pfx, addOn)] for [addOn] pointing to the struct [vv]: the
    struct after the call, and the outcome.  On success the pointer
    returned is [addOn] itself. *)
Definition parseEnvs (pfx : string) (vv : StructValue) : StructValue * Outcome :=
  let '(vv', e) := parseFields pfx vv in
  (vv', match e with
        | Done => Returned (Some vv') None
        | Failed err => Returned None (Some err)
        | Crashed => Panicked
        end).

End ParseEnvs.

(** ** Package [path/filepath] (Unix) and the file system *)

(** A call either returns or panics. *)
Inductive Call (A : Type) :=
| Returns (a : A)
| Panics.
Arguments Returns {A} a.
Arguments Panics {A}.

Module Filepath.

(** [filepath.IsAbs]. *)
Definition IsAbs (path : string) : bool := Strings.HasPrefix path "/".

(** The elements of a path that survive [Clean], innermost first in
    [stack]: empty and [.] elements go, [..] takes the element before it
    away, stays at the front of a relative path and goes at the root. *)
Fixpoint cleanElems (rooted : bool) (stack elems : list string) : list string :=
  match elems with
  | [] => rev stack
  | e :: rest =>
      if bool_decide (e = EmptyString) || bool_decide (e = ".") then cleanElems rooted stack rest
      else if bool_decide (e = "..") then
        match stack with
        | top :: below =>
            if bool_decide (top = "..") then cleanElems rooted (e :: stack) rest
            else cleanElems rooted below rest
        | [] => cleanElems rooted (if rooted then [] else [e]) rest
        end
      else cleanElems rooted (e :: stack) rest
  end.

(** [filepath.Clean]. *)
Definition Clean (path : string) : string :=
  let rooted := IsAbs path in
  let out := Strings.Join (cleanElems rooted [] (Strings.Split path "/")) "/" in
  if rooted then "/" +:+ out
  else if bool_decide (out = EmptyString) then "." else out.

(** [filepath.Join]: the elements from the first non-empty one on,
    joined with the separator and cleaned. *)
Fixpoint Join (elem : list string) : string :=
  match elem with
  | [] => EmptyString
  | e :: rest =>
      if bool_decide (e = EmptyString) then Join rest
      else Clean (Strings.Join elem "/")
  end.

End Filepath.

(** The part of the operating system seen by [Load] and [Sync]: the
    working directory (its elements below the root, or [None] when
    [os.Getwd] fails); the file tree as the kernel resolves it: [namei]
    takes a name as it is handed to [open] to the location it names,
    through the directories and the symbolic links on the way and, for a
    relative name, from the working directory ([None] when there is no
    such location: a directory on the way is missing); the regular
    files by location; the locations that cannot be opened for writing;
    the locations where a write stops after so many bytes; and the
    errors reported on standard error (one
    [[WARN] failed to sync config files %v] line each).  Nothing [Load]
    or [Sync] does makes a directory or a link, so the locations of the
    names stay. *)
Record OS := {
  cwd : option (list string);
  namei : string -> option string;
  files : gmap string string;
  unwritable : gset string;
  short : gmap string nat;
  stderr : list error;
}.

(** The file at the location [k] holding [data]. *)
Definition put (os : OS) (k data : string) : OS :=
  {| cwd := cwd os; namei := namei os; files := <[k := data]> (files os);
     unwritable := unwritable os; short := short os; stderr := stderr os |}.

(** [os.Getwd]: a rooted path. *)
Definition Getwd (os : OS) : string * option error :=
  match cwd os with
  | Some elems => ("/" +:+ Strings.Join elems "/", None)
  | None => (EmptyString, Some (LibError "getwd"))
  end.

(** [filepath.Abs]. *)
Definition Abs (os : OS) (path : string) : string * option error :=
  if Filepath.IsAbs path then (Filepath.Clean path, None)
  else
    let '(wd, err) := Getwd os in
    match err with
    | Some err => (EmptyString, Some err)
    | None => (Filepath.Join [wd; path], None)
    end.

(** [ioutil.ReadFile]: the name is handed to [open] as it is; the
    content of the regular file at the location it names. *)
Definition ReadFile (os : OS) (filename : string) : string * option error :=
  if bool_decide (filename = EmptyString) then (EmptyString, Some (LibError "open")) else
  match namei os filename with
  | Some k =>
      match files os !! k with
      | Some d => (d, None)
      | None => (EmptyString, Some (LibError "open"))
      end
  | None => (EmptyString, Some (LibError "open"))
  end.

(** [ioutil.WriteFile]: the name is handed to [open] as it is, with
    [O_WRONLY|O_CREATE|O_TRUNC]: when the location can be opened, the
    file is there and empty before a byte is written; a write that stops
    short leaves the bytes written and is an error.  The permission bits
    are not kept. *)
Definition WriteFile (os : OS) (filename data : string) : OS * option error :=
  if bool_decide (filename = EmptyString) then (os, Some (LibError "open")) else
  match namei os filename with
  | Some k =>
      if bool_decide (k ∈ unwritable os)
      then (os, Some (LibError "open"))
      else
        match short os !! k with
        | Some n =>
            if (n <? String.length data)%nat
            then (put os k (String.substring 0 n data), Some (LibError "short write"))
            else (put os k data, None)
        | None => (put os k data, None)
        end
  | None => (os, Some (LibError "open"))
  end.

(** [fmt.Fprintf(os.Stderr, "[WARN] failed to sync config files %v\n", serr)]. *)
Definition warn (os : OS) (serr : error) : OS :=
  {| cwd := cwd os; namei := namei os; files := files os;
     unwritable := unwritable os; short := short os; stderr := stderr os ++ [serr] |}.

(** ** [Config], [Load], [Sync] *)

(** A [sync.RWMutex] nobody holds. *)
Inductive RWMutex := Unlocked.

(** [type Config struct].  A pointer field is [None] when [nil]; an
    add-on configuration is the struct it points to, as [reflect] sees
    it. *)
Record Config := {
  mu : option RWMutex;
  Stopc : option N;
  Prompt : bool;
  ClusterName : string;
  ConfigPath : string;
  LogColor : bool;
  LogColorOverride : string;
  LogLevel : string;
  LogOutputs : option (list string);
  KubectlDownloadURL : string;
  KubectlPath : string;
  KubeconfigPath : string;
  KubeconfigContext : string;
  MinimumNodes : Z;
  TotalNodes : Z;
  AddOnCloudwatchAgent : option StructValue;
  AddOnMetricsServer : option StructValue;
  AddOnFluentBit : option StructValue;
  AddOnKubernetesDashboard : option StructValue;
  AddOnNLBHelloWorld : option StructValue;
  AddOnJobsPi : option StructValue;
  AddOnJobsEcho : option StructValue;
  AddOnCronJobsEcho : option StructValue;
}.

(** [new(Config)]. *)
Definition newConfig : Config := {|
  mu := None; Stopc := None; Prompt := false; ClusterName := EmptyString;
  ConfigPath := EmptyString; LogColor := false; LogColorOverride := EmptyString;
  LogLevel := EmptyString; LogOutputs := None; KubectlDownloadURL := EmptyString;
  KubectlPath := EmptyString; KubeconfigPath := EmptyString;
  KubeconfigContext := EmptyString; MinimumNodes := 0; TotalNodes := 0;
  AddOnCloudwatchAgent := None; AddOnMetricsServer := None; AddOnFluentBit := None;
  AddOnKubernetesDashboard := None; AddOnNLBHelloWorld := None; AddOnJobsPi := None;
  AddOnJobsEcho := None; AddOnCronJobsEcho := None |}.

(** [cfg.mu = m]. *)
Definition set_mu (m : option RWMutex) (cfg : Config) : Config := {|
  mu := m; Stopc := Stopc cfg; Prompt := Prompt cfg; ClusterName := ClusterName cfg;
  ConfigPath := ConfigPath cfg; LogColor := LogColor cfg;
  LogColorOverride := LogColorOverride cfg; LogLevel := LogLevel cfg;
  LogOutputs := LogOutputs cfg; KubectlDownloadURL := KubectlDownloadURL cfg;
  KubectlPath := KubectlPath cfg; KubeconfigPath := KubeconfigPath cfg;
  KubeconfigContext := KubeconfigContext cfg; MinimumNodes := MinimumNodes cfg;
  TotalNodes := TotalNodes cfg; AddOnCloudwatchAgent := AddOnCloudwatchAgent cfg;
  AddOnMetricsServer := AddOnMetricsServer cfg; AddOnFluentBit := AddOnFluentBit cfg;
  AddOnKubernetesDashboard := AddOnKubernetesDashboard cfg;
  AddOnNLBHelloWorld := AddOnNLBHelloWorld cfg; AddOnJobsPi := AddOnJobsPi cfg;
  AddOnJobsEcho := AddOnJobsEcho cfg; AddOnCronJobsEcho := AddOnCronJobsEcho cfg |}.

(** [cfg.ConfigPath = p]. *)
Definition set_ConfigPath (p : string) (cfg : Config) : Config := {|
  mu := mu cfg; Stopc := Stopc cfg; Prompt := Prompt cfg; ClusterName := ClusterName cfg;
  ConfigPath := p; LogColor := LogColor cfg;
  LogColorOverride := LogColorOverride cfg; LogLevel := LogLevel cfg;
  LogOutputs := LogOutputs cfg; KubectlDownloadURL := KubectlDownloadURL cfg;
  KubectlPath := KubectlPath cfg; KubeconfigPath := KubeconfigPath cfg;
  KubeconfigContext := KubeconfigContext cfg; MinimumNodes := MinimumNodes cfg;
  TotalNodes := TotalNodes cfg; AddOnCloudwatchAgent := AddOnCloudwatchAgent cfg;
  AddOnMetricsServer := AddOnMetricsServer cfg; AddOnFluentBit := AddOnFluentBit cfg;
  AddOnKubernetesDashboard := AddOnKubernetesDashboard cfg;
  AddOnNLBHelloWorld := AddOnNLBHelloWorld cfg; AddOnJobsPi := AddOnJobsPi cfg;
  AddOnJobsEcho := AddOnJobsEcho cfg; AddOnCronJobsEcho := AddOnCronJobsEcho cfg |}.

(** [cfg.KubeconfigPath = p]. *)
Definition set_KubeconfigPath (p : string) (cfg : Config) : Config := {|
  mu := mu cfg; Stopc := Stopc cfg; Prompt := Prompt cfg; ClusterName := ClusterName cfg;
  ConfigPath := ConfigPath cfg; LogColor := LogColor cfg;
  LogColorOverride := LogColorOverride cfg; LogLevel := LogLevel cfg;
  LogOutputs := LogOutputs cfg; KubectlDownloadURL := KubectlDownloadURL cfg;
  KubectlPath := KubectlPath cfg; KubeconfigPath := p;
  KubeconfigContext := KubeconfigContext cfg; MinimumNodes := MinimumNodes cfg;
  TotalNodes := TotalNodes cfg; AddOnCloudwatchAgent := AddOnCloudwatchAgent cfg;
  AddOnMetricsServer := AddOnMetricsServer cfg; AddOnFluentBit := AddOnFluentBit cfg;
  AddOnKubernetesDashboard := AddOnKubernetesDashboard cfg;
  AddOnNLBHelloWorld := AddOnNLBHelloWorld cfg; AddOnJobsPi := AddOnJobsPi cfg;
  AddOnJobsEcho := AddOnJobsEcho cfg; AddOnCronJobsEcho := AddOnCronJobsEcho cfg |}.

(** [const ENV_PREFIX]. *)
Definition ENV_PREFIX : string := "K8S_TESTER_".

(** The import path of the package, the [PkgPath] of its unexported
    fields. *)
Definition pkgPath : string := "github.com/aws/aws-k8s-tester/k8s-tester".

(** An exported field. *)
Definition field (name : string) (t : GoType) (tag : list (string * string)) : StructField :=
  {| Name := name; PkgPath := EmptyString; Type_ := t; Tag := tag |}.

(** An exported field with a json key and the read-only marker. *)
Definition readOnly (name : string) (t : GoType) (key : string) : StructField :=
  field name t [("json", key); ("read-only", "true")].

(** [reflect.TypeOf(cfg).Elem()] for [cfg *Config]: the fields of the
    struct declaration with their tags. *)
Definition ConfigType : list StructField := [
  {| Name := "mu"; PkgPath := pkgPath; Type_ := TPlain Pointer; Tag := [("json", "-")] |};
  field "Stopc" (TPlain Chan) [("json", "-")];
  field "Prompt" (TPlain Bool) [("json", "prompt")];
  field "ClusterName" (TPlain String_) [("json", "cluster_name")];
  field "ConfigPath" (TPlain String_) [("json", "config_path")];
  field "LogColor" (TPlain Bool) [("json", "log_color")];
  field "LogColorOverride" (TPlain String_) [("json", "log_color_override")];
  field "LogLevel" (TPlain String_) [("json", "log-level")];
  field "LogOutputs" stringSlice [("json", "log-outputs")];
  field "KubectlDownloadURL" (TPlain String_) [("json", "kubectl-download-url")];
  field "KubectlPath" (TPlain String_) [("json", "kubectl_path")];
  field "KubeconfigPath" (TPlain String_) [("json", "kubeconfig_path")];
  field "KubeconfigContext" (TPlain String_) [("json", "kubeconfig_context")];
  field "MinimumNodes" (TPlain Int) [("json", "minimum_nodes")];
  readOnly "TotalNodes" (TPlain Int) "total_nodes";
  field "AddOnCloudwatchAgent" (TPlain Pointer) [("json", "add_on_cloudwatch_agent")];
  field "AddOnMetricsServer" (TPlain Pointer) [("json", "add_on_metrics_server")];
  field "AddOnFluentBit" (TPlain Pointer) [("json", "add_on_fluent_bit")];
  field "AddOnKubernetesDashboard" (TPlain Pointer) [("json", "add_on_kubernetes_dashboard")];
  field "AddOnNLBHelloWorld" (TPlain Pointer) [("json", "add_on_nlb_hello_world")];
  field "AddOnJobsPi" (TPlain Pointer) [("json", "add_on_jobs_pi")];
  field "AddOnJobsEcho" (TPlain Pointer) [("json", "add_on_jobs_echo")];
  field "AddOnCronJobsEcho" (TPlain Pointer) [("json", "add_on_cron_jobs_echo")]
].

(** [reflect.ValueOf(cfg).Elem()]: the scalar and slice fields by value;
    the pointers and the channel are opaque to [parseEnvs]. *)
Definition ConfigValues (cfg : Config) : list Value := [
  VOpaque 0; VOpaque 1;
  VBool (Prompt cfg); VString (ClusterName cfg); VString (ConfigPath cfg);
  VBool (LogColor cfg); VString (LogColorOverride cfg); VString (LogLevel cfg);
  VSlice (LogOutputs cfg);
  VString (KubectlDownloadURL cfg); VString (KubectlPath cfg);
  VString (KubeconfigPath cfg); VString (KubeconfigContext cfg);
  VInt (MinimumNodes cfg); VInt (TotalNodes cfg);
  VOpaque 15; VOpaque 16; VOpaque 17; VOpaque 18; VOpaque 19; VOpaque 20;
  VOpaque 21; VOpaque 22
].

Definition reflectConfig (cfg : Config) : StructValue :=
  zip ConfigType (ConfigValues cfg).

(** Options of the JSON decoder behind [yaml.Unmarshal]. *)
Inductive JSONOpt := DisallowUnknownFields.

(** The codec of [sigs.k8s.io/yaml], taken as given: [yaml.Marshal],
    [yaml.Unmarshal] into the [Config] passed (the struct it leaves
    behind and its error), and which documents hold a key, at the top or
    nested, that no field of the schema answers to. *)
Record YAML := {
  yaml_Marshal : Config -> string * option error;
  yaml_Unmarshal : string -> Config -> list JSONOpt -> Config * option error;
  unknownKey : string -> Prop;
}.

(** The fields of the root with a serialization key: all but [mu] and
    [Stopc], tagged [json:"-"]. *)
Definition rootFields (cfg : Config) :=
  (Prompt cfg, ClusterName cfg, ConfigPath cfg, LogColor cfg, LogColorOverride cfg,
   LogLevel cfg, LogOutputs cfg, KubectlDownloadURL cfg, KubectlPath cfg,
   KubeconfigPath cfg, KubeconfigContext cfg, MinimumNodes cfg, TotalNodes cfg).

Definition addOns (cfg : Config) : list (option StructValue) :=
  [AddOnCloudwatchAgent cfg; AddOnMetricsServer cfg; AddOnFluentBit cfg;
   AddOnKubernetesDashboard cfg; AddOnNLBHelloWorld cfg; AddOnJobsPi cfg;
   AddOnJobsEcho cfg; AddOnCronJobsEcho cfg].

(** The field has a serialization key: a json tag, other than [-]. *)
Definition tagged (sf : StructField) : bool :=
  negb (bool_decide (Tag_Get (Tag sf) "json" = EmptyString))
  && negb (bool_decide (Tag_Get (Tag sf) "json" = "-")).

(** The fields of a struct that have a serialization key. *)
Definition taggedFields (vv : StructValue) : StructValue :=
  List.filter (fun f => tagged f.1) vv.

(** Equality of two trees on every field with a serialization key: the
    tagged fields of the root, and of each add-on the tagged fields, an
    add-on being nil in both trees or in neither. *)
Definition taggedEq (a b : Config) : Prop :=
  rootFields a = rootFields b
  /\ map (fmap taggedFields) (addOns a) = map (fmap taggedFields) (addOns b).

Section Persistence.
Context (Y : YAML).

(** [(cfg *Config) unsafeSync]: the system and the tree after the call,
    and the error returned. *)
Definition unsafeSync (os : OS) (cfg : Config) : OS * Config * option error :=
  if bool_decide (ConfigPath cfg = EmptyString) then (os, cfg, Some EmptyConfigPath) else
  let step1 : Config * option error :=
    if bool_decide (ConfigPath cfg ≠ EmptyString) && negb (Filepath.IsAbs (ConfigPath cfg)) then
      let '(p, err) := Abs os (ConfigPath cfg) in
      match err with
      | Some err => (cfg, Some (PathResolutionError (ConfigPath cfg) err))
      | None => (set_ConfigPath p cfg, None)
      end
    else (cfg, None) in
  match step1 with
  | (cfg, Some err) => (os, cfg, Some err)
  | (cfg, None) =>
  let step2 : Config * option error :=
    if bool_decide (KubeconfigPath cfg ≠ EmptyString) && negb (Filepath.IsAbs (KubeconfigPath cfg)) then
      let '(p, err) := Abs os (KubeconfigPath cfg) in
      match err with
      | Some err => (cfg, Some (PathResolutionError (KubeconfigPath cfg) err))
      | None => (set_KubeconfigPath p cfg, None)
      end
    else (cfg, None) in
  match step2 with
  | (cfg, Some err) => (os, cfg, Some err)
  | (cfg, None) =>
  let '(d, err) := yaml_Marshal Y cfg in
  match err with
  | Some err => (os, cfg, Some (SerializationError err))
  | None =>
  let '(os, err) := WriteFile os (ConfigPath cfg) d in
  match err with
  | Some err => (os, cfg, Some (WriteError (ConfigPath cfg) err))
  | None => (os, cfg, None)
  end end end end.

(** [(cfg *Config) Sync]: [cfg.mu.Lock()] panics on a [nil] mutex; the
    deferred [Unlock] leaves the mutex as it was. *)
Definition Sync (os : OS) (cfg : Config) : OS * Config * Call (option error) :=
  match mu cfg with
  | None => (os, cfg, Panics)
  | Some Unlocked =>
      let '(os, cfg, err) := unsafeSync os cfg in (os, cfg, Returns err)
  end.

(** [Load(p)]: the system after the call and the two results. *)
Definition Load (os : OS) (p : string) : OS * (option Config * option error) :=
  let '(d, err) := ReadFile os p in
  match err with
  | Some err => (os, (None, Some err))
  | None =>
  let cfg := newConfig in
  let '(cfg, err) := yaml_Unmarshal Y d cfg [DisallowUnknownFields] in
  match err with
  | Some err => (os, (None, Some err))
  | None =>
  let cfg := set_mu (Some Unlocked) cfg in
  let cfg := if bool_decide (ConfigPath cfg ≠ p) then set_ConfigPath p cfg else cfg in
  let '(ap, err) := Abs os p in
  match err with
  | Some err => (os, (None, Some err))
  | None =>
  let cfg := set_ConfigPath ap cfg in
  let '(os, cfg, serr) := unsafeSync os cfg in
  let os := match serr with Some serr => warn os serr | None => os end in
  (os, (Some cfg, None))
  end end end.

End Persistence.

(** ** The key as the specification derives it *)

(** Section 4.1 of the specification: take the serialization key, strip
    the omit-if-empty qualifier, convert to uppercase, replace [-] with
    [_] (the code replaces before it converts). *)
Definition specKey (L : Library) (key : string) : string :=
  Strings.Replace
    (Strings.ToUpper (strings_Map_ToUpper L) (Strings.Replace key ",omitempty" "")) "-" "_".

(** Every byte of the string mapped by [f]. *)
Fixpoint mapBytes (f : ascii -> ascii) (s : string) : string :=
  match s with
  | EmptyString => EmptyString
  | String c r => String (f c) (mapBytes f r)
  end.

(** A dash becomes an underscore, any other byte is kept. *)
Definition dashToUnderscore (c : ascii) : ascii :=
  if bool_decide (c = "-"%char) then "_"%char else c.

(** What is asked of the upper case of Unicode where the order of the
    specification is compared with the order of the code: it makes no
    dash and takes none away, so it commutes with the replacement of the
    dashes. *)
Definition upperKeepsDash (L : Library) : Prop :=
  forall s,
    strings_Map_ToUpper L (Strings.Replace s "-" "_")
    = Strings.Replace (strings_Map_ToUpper L s) "-" "_".

(** An error names a variable when it carries it as the variable of a
    read-only violation or of a failed coercion. *)
Definition errorNames (err : error) (env : string) : Prop :=
  match err with
  | ReadOnlyViolation env' _ => env' = env
  | TypeCoercionError _ _ env' _ => env' = env
  | _ => False
  end.

(** The error is a type-coercion error, an unsupported-field-kind
    error. *)
Definition coercionError (err : error) : Prop :=
  match err with TypeCoercionError _ _ _ _ => True | _ => False end.

Definition unsupportedKindError (err : error) : Prop :=
  match err with UnsupportedFieldKind _ => True | _ => False end.

(** The fields declared before field [i] are all passed: none of them
    returns an error or panics. *)
Definition reaches (L : Library) (environ : gmap string string) (pfx : string)
    (vv : StructValue) (i : nat) : Prop :=
  (parseFields L environ pfx (take i vv)).2 = Done.

(** What the field holds when the step is over. *)
Definition held (st : Step) : Value :=
  match st with Next v | Return v _ | Panic v => v end.

(** How the loop goes on after a step. *)
Definition after (st : Step) (rest : LoopEnd) : LoopEnd :=
  match st with Next _ => rest | Return _ err => Failed err | Panic _ => Crashed end.

(** The outcome of a call from the end of its loop. *)
Definition outcome (vv' : StructValue) (e : LoopEnd) : Outcome :=
  match e with
  | Done => Returned (Some vv') None
  | Failed err => Returned None (Some err)
  | Crashed => Panicked
  end.

(** The call did not succeed: it returned an error or it panicked. *)
Definition failed (o : Outcome) : Prop :=
  match o with Returned _ None => False | _ => True end.

(** ** The claims on read-only fields, as worded *)

(** "For every field carrying the read-only marker, if the matching
    variable is set to a non-empty string, the pass fails with an error
    naming that variable, and the field is left unmodified", for field
    [i] of [vv]. *)
Definition readOnlyClaim (L : Library) (environ : gmap string string) (pfx : string)
    (vv : StructValue) (i : nat) : Prop :=
  forall sf v,
    vv !! i = Some (sf, v) ->
    Tag_Get (Tag sf) "json" <> EmptyString ->
    Tag_Get (Tag sf) "read-only" = "true" ->
    Getenv environ (envName L pfx sf) <> EmptyString ->
    (exists err, (parseEnvs L environ pfx vv).2 = Returned None (Some err)
                 /\ errorNames err (envName L pfx sf))
    /\ (parseEnvs L environ pfx vv).1 !! i = Some (sf, v).

(** ** The claims on the kinds of field, as worded *)

(** The parser [parseEnvs] applies to a field of kind [Int], [Int32] or
    [Int64]. *)
Definition parseSigned (L : Library) (sf : StructField) (sv : string) : Z * option error :=
  if bool_decide (typeName (Type_ sf) = "Duration") then time_ParseDuration L sv
  else Strconv.ParseInt sv.

(** The kinds of the signed integers. *)
Definition signedKinds : list Kind := [Int; Int8; Int16; Int32; Int64].

(** "For every field of a signed-integer kind, the pass parses the
    non-empty value with the duration syntax when the type is a duration
    and otherwise as a base-10 signed integer; a malformed value makes
    the pass fail with a type-coercion error that references the
    variable", for field [i] of [vv]. *)
Definition integerClaim (L : Library) (environ : gmap string string) (pfx : string)
    (vv : StructValue) (i : nat) : Prop :=
  forall sf v,
    vv !! i = Some (sf, v) ->
    kindOf (Type_ sf) ∈ signedKinds ->
    Tag_Get (Tag sf) "json" <> EmptyString -> CanSet sf = true ->
    let sv := Getenv environ (envName L pfx sf) in
    sv <> EmptyString ->
    (parseSigned L sf sv).2 <> None ->
    exists err, (parseEnvs L environ pfx vv).2 = Returned None (Some err)
                /\ coercionError err /\ errorNames err (envName L pfx sf).

(** "For every field of mapping kind with a non-empty value: outside the
    fixed list of names the pass fails with an unsupported-field-kind
    error; inside it, a value that does not parse makes the pass fail
    with a type-coercion error", for field [i] of [vv]. *)
Definition mapClaim (L : Library) (environ : gmap string string) (pfx : string)
    (vv : StructValue) (i : nat) : Prop :=
  forall sf v,
    vv !! i = Some (sf, v) ->
    underlying (Type_ sf) = stringMap ->
    Tag_Get (Tag sf) "json" <> EmptyString -> CanSet sf = true ->
    let sv := Getenv environ (envName L pfx sf) in
    sv <> EmptyString ->
    (Name sf ∉ mapFieldNames ->
     exists err, (parseEnvs L environ pfx vv).2 = Returned None (Some err)
                 /\ unsupportedKindError err)
    /\ (Name sf ∈ mapFieldNames ->
        (json_Unmarshal L sv).2 <> None ->
        exists err, (parseEnvs L environ pfx vv).2 = Returned None (Some err)
                    /\ coercionError err).

(** "For every field of sequence-of-strings kind, the pass splits the
    non-empty value on the comma; when the split yields no element the
    field is left unchanged without an error; otherwise the field is
    replaced by exactly the substrings", for field [i] of [vv]. *)
Definition sliceClaim (L : Library) (environ : gmap string string) (pfx : string)
    (vv : StructValue) (i : nat) : Prop :=
  forall sf v,
    vv !! i = Some (sf, v) ->
    underlying (Type_ sf) = stringSlice ->
    Tag_Get (Tag sf) "json" <> EmptyString -> CanSet sf = true ->
    let sv := Getenv environ (envName L pfx sf) in
    sv <> EmptyString ->
    let ss := Strings.Split sv "," in
    (length ss = 0%nat ->
     parseField L environ pfx sf v = Next v
     /\ (parseEnvs L environ pfx vv).1 !! i = Some (sf, v))
    /\ (length ss <> 0%nat ->
        (parseEnvs L environ pfx vv).1 !! i = Some (sf, VSlice (Some ss))).

(** "For every map field of the fixed list, when the non-empty value
    fails to parse the pass returns an error and the field does not keep
    its prior value: it holds the empty map written before the parse",
    for field [i] of [vv]. *)
Definition mapResetClaim (L : Library) (environ : gmap string string) (pfx : string)
    (vv : StructValue) (i : nat) : Prop :=
  forall sf v,
    vv !! i = Some (sf, v) ->
    underlying (Type_ sf) = stringMap ->
    Name sf ∈ mapFieldNames ->
    Tag_Get (Tag sf) "json" <> EmptyString -> CanSet sf = true ->
    let sv := Getenv environ (envName L pfx sf) in
    sv <> EmptyString ->
    (json_Unmarshal L sv).2 <> None ->
    (exists err, (parseEnvs L environ pfx vv).2 = Returned None (Some err))
    /\ (parseEnvs L environ pfx vv).1 !! i = Some (sf, VMap (Some ∅)).

(** ** Elements of a clean path *)

(** The string holds no separator. *)
Fixpoint noSlash (s : string) : bool :=
  match s with
  | EmptyString => true
  | String c r => negb (bool_decide (c = "/"%char)) && noSlash r
  end.

(** An element [Clean] keeps in a rooted path. *)
Definition plain (e : string) : Prop :=
  noSlash e = true /\ e <> EmptyString /\ e <> "." /\ e <> "..".

(** ** What is asked of the codec *)

(** Strict mode: with [DisallowUnknownFields] among the options, a
    document holding a key the schema does not know is an error. *)
Definition strictDecoder (Y : YAML) : Prop :=
  forall d cfg opts,
    DisallowUnknownFields ∈ opts -> unknownKey Y d ->
    (yaml_Unmarshal Y d cfg opts).2 <> None.

(** The codec gives the tree back: decoding the document the tree is
    encoded to, into a new [Config], gives every tagged field of the
    tree.  (Not every tree is given back by [sigs.k8s.io/yaml]: the
    bytes of a string that are not valid UTF-8 are replaced when the
    tree is encoded.) *)
Definition roundTrips (Y : YAML) (cfg : Config) : Prop :=
  forall d,
    yaml_Marshal Y cfg = (d, None) ->
    exists cfg', yaml_Unmarshal Y d newConfig [DisallowUnknownFields] = (cfg', None)
                 /\ taggedEq cfg cfg'.

(** "Saving a tree and then loading that file produces a tree equal to
    the original in every serialization-tagged field", for the tree
    [cfg] saved in the system [os]. *)
Definition roundTripLaw (Y : YAML) (os : OS) (cfg : Config) : Prop :=
  forall os' cfg',
    Sync Y os cfg = (os', cfg', Returns None) ->
    exists os'' loaded,
      Load Y os' (ConfigPath cfg') = (os'', (Some loaded, None))
      /\ taggedEq cfg' loaded.

(** ** Stand-ins for the libraries, to run the model on examples *)

Module Sample.

Fixpoint leadingDigits (s : string) : string * string :=
  match s with
  | EmptyString => (EmptyString, EmptyString)
  | String c r =>
      match Strconv.digit c with
      | Some _ => let '(ds, rest) := leadingDigits r in (String c ds, rest)
      | None => (EmptyString, s)
      end
  end.

Definition unitMap : gmap string Z :=
  list_to_map [("ns", 1); ("us", 1000); ("ms", 1000000); ("s", 1000000000);
               ("m", 60000000000); ("h", 3600000000000)].

(** The durations written as one whole number and a unit, such as [5m];
    any other string is refused. *)
Definition ParseDuration (s : string) : Z * option error :=
  let '(ds, u) := leadingDigits s in
  match Strconv.ParseUint ds, unitMap !! u with
  | (n, None), Some unit =>
      if n * unit <? 2 ^ 63 then (n * unit, None)
      else (0, Some (LibError "time: invalid duration"))
  | _, _ => (0, Some (LibError "time: invalid duration"))
  end.

(** The binary64 image of a whole number below [2^53]. *)
Definition float64_of_Z (n : Z) : Z :=
  if n =? 0 then 0
  else let e := Z.log2 n in (e + 1023) * 2 ^ 52 + (n * 2 ^ (52 - e) - 2 ^ 52).

(** The whole numbers below [2^24], which [float32] holds exactly; any
    other string is refused. *)
Definition ParseFloat (s : string) : Z * option error :=
  match Strconv.ParseUint s with
  | (n, None) =>
      if n <? 2 ^ 24 then (float64_of_Z n, None)
      else (0, Some (LibError "strconv.ParseFloat: outside the sample"))
  | _ => (0, Some (LibError "strconv.ParseFloat: outside the sample"))
  end.

(** The two shortest documents a map decodes from; any other string is
    refused. *)
Definition Unmarshal (s : string) : option (gmap string string) * option error :=
  if bool_decide (s = "{}") then (Some ∅, None)
  else if bool_decide (s = "null") then (None, None)
  else (Some ∅, Some (LibError "json: outside the sample")).

(** The stand-in for the upper case of Unicode knows the letters of
    ASCII only. *)
Definition lib : Library := {|
  strings_Map_ToUpper := Strings.upperASCII;
  time_ParseDuration := ParseDuration;
  strconv_ParseFloat := ParseFloat;
  float32 := fun bits => bits;
  json_Unmarshal := Unmarshal;
|}.

(** A positive number written in binary, lowest digit first. *)
Fixpoint pos_bits (p : positive) : string :=
  match p with
  | xH => EmptyString
  | xO q => String "0" (pos_bits q)
  | xI q => String "1" (pos_bits q)
  end.

Fixpoint bits_pos (s : string) : option positive :=
  match s with
  | EmptyString => Some xH
  | String c r =>
      q ← bits_pos r;
      if bool_decide (c = "0"%char) then Some (xO q)
      else if bool_decide (c = "1"%char) then Some (xI q)
      else None
  end.

Definition is_Some_b {A} (o : option A) : bool :=
  match o with Some _ => true | None => false end.

(** A document of the sample codec: three rows of strings, the scalar
    fields of the root in the order declared, the log outputs after a
    mark telling [nil] from a slice, and the keys the schema does not
    know. *)
Definition Doc : Type := list (list string).

Definition print (doc : Doc) : string := pos_bits (encode doc).
Definition parse (d : string) : option Doc := bits_pos d ≫= decode.

Definition print_bool (b : bool) : string := if b then "true" else "false".
Definition parse_bool (s : string) : option bool :=
  if bool_decide (s = "true") then Some true
  else if bool_decide (s = "false") then Some false else None.

Definition print_Z (z : Z) : string := pos_bits (encode z).
Definition parse_Z (s : string) : option Z := bits_pos s ≫= decode.

Definition print_slice (ss : option (list string)) : list string :=
  match ss with None => ["null"] | Some l => "list" :: l end.
Definition parse_slice (row : list string) : option (option (list string)) :=
  match row with
  | [m] => if bool_decide (m = "null") then Some None
           else if bool_decide (m = "list") then Some (Some []) else None
  | m :: l => if bool_decide (m = "list") then Some (Some l) else None
  | [] => None
  end.

Definition rows (cfg : Config) : Doc :=
  [[print_bool (Prompt cfg); ClusterName cfg; ConfigPath cfg; print_bool (LogColor cfg);
    LogColorOverride cfg; LogLevel cfg; KubectlDownloadURL cfg; KubectlPath cfg;
    KubeconfigPath cfg; KubeconfigContext cfg; print_Z (MinimumNodes cfg);
    print_Z (TotalNodes cfg)];
   print_slice (LogOutputs cfg);
   []].

(** The sample codec writes a tree without add-ons and refuses any
    other. *)
Definition Marshal (cfg : Config) : string * option error :=
  if forallb (fun a => negb (is_Some_b a)) (addOns cfg) then (print (rows cfg), None)
  else (EmptyString, Some (LibError "yaml: add-ons are outside the sample")).

(** Stores the fields of a document in [cfg]. *)
Definition fill (cfg : Config) (doc : Doc) : option Config :=
  match doc with
  | [[prompt; clusterName; configPath; logColor; logColorOverride; logLevel;
      kubectlDownloadURL; kubectlPath; kubeconfigPath; kubeconfigContext;
      minimumNodes; totalNodes]; outputs; _] =>
      prompt ← parse_bool prompt;
      logColor ← parse_bool logColor;
      minimumNodes ← parse_Z minimumNodes;
      totalNodes ← parse_Z totalNodes;
      logOutputs ← parse_slice outputs;
      Some {| mu := mu cfg; Stopc := Stopc cfg; Prompt := prompt;
              ClusterName := clusterName; ConfigPath := configPath;
              LogColor := logColor; LogColorOverride := logColorOverride;
              LogLevel := logLevel; LogOutputs := logOutputs;
              KubectlDownloadURL := kubectlDownloadURL; KubectlPath := kubectlPath;
              KubeconfigPath := kubeconfigPath; KubeconfigContext := kubeconfigContext;
              MinimumNodes := minimumNodes; TotalNodes := totalNodes;
              AddOnCloudwatchAgent := AddOnCloudwatchAgent cfg;
              AddOnMetricsServer := AddOnMetricsServer cfg;
              AddOnFluentBit := AddOnFluentBit cfg;
              AddOnKubernetesDashboard := AddOnKubernetesDashboard cfg;
              AddOnNLBHelloWorld := AddOnNLBHelloWorld cfg;
              AddOnJobsPi := AddOnJobsPi cfg; AddOnJobsEcho := AddOnJobsEcho cfg;
              AddOnCronJobsEcho := AddOnCronJobsEcho cfg |}
  | _ => None
  end.

Definition unknownKeys (doc : Doc) : list string := default [] (doc !! 2%nat).

Definition strict (opts : list JSONOpt) : bool :=
  match opts with [] => false | DisallowUnknownFields :: _ => true end.

(** In strict mode a document with a key outside the schema is an
    error; otherwise the known fields are stored. *)
Definition Unmarshal_yaml (d : string) (cfg : Config) (opts : list JSONOpt) : Config * option error :=
  match parse d with
  | Some doc =>
      if strict opts && negb (bool_decide (unknownKeys doc = []))
      then (cfg, Some (LibError "yaml: unknown field"))
      else match fill cfg doc with
           | Some cfg' => (cfg', None)
           | None => (cfg, Some (LibError "yaml: cannot unmarshal"))
           end
  | None => (cfg, Some (LibError "yaml: syntax"))
  end.

Definition yaml : YAML := {|
  yaml_Marshal := Marshal;
  yaml_Unmarshal := Unmarshal_yaml;
  unknownKey := fun d => exists doc, parse d = Some doc /\ unknownKeys doc <> [];
|}.

(** *** Inputs of the examples *)

(** An add-on configuration in the shape section 3 of the specification
    gives them: an enable flag, a namespace, a node-selector map, and a
    map of labels. *)
Definition addOn : StructValue := [
  (field "Enable" (TPlain Bool) [("json", "enable")], VBool false);
  (field "Namespace" (TPlain String_) [("json", "namespace")], VString "test");
  (field "DeploymentNodeSelector" stringMap [("json", "deployment_node_selector")],
   VMap (Some {[ "kubernetes.io/os" := "linux" ]}));
  (field "Labels" stringMap [("json", "labels")], VMap None)
].

(** Modelled from the spec: [jobs_pi.Env], of a package that is not
    among the sources.  Section 8, scenario B, gives the environment
    prefix of the add-on, [JOBS_PI]. *)
Definition jobs_pi_Env : string := "JOBS_PI".

(** Modelled from the spec: [jobs_pi.Config], of the same package.
    Scenario B gives it a field of integer kind with the key
    [COMPLETES]. *)
Definition jobs_pi_Config (completes : Z) : StructValue :=
  [(field "Completes" (TPlain Int) [("json", "completes")], VInt completes)].


(** A tree as [NewDefault] builds it, without add-ons, saved under a
    path that is absolute but not in its shortest form. *)
Definition cfg0 : Config := {|
  mu := Some Unlocked; Stopc := None; Prompt := true; ClusterName := "k8s-test";
  ConfigPath := "/tmp/./cfg.yaml"; LogColor := true; LogColorOverride := EmptyString;
  LogLevel := "info"; LogOutputs := Some ["stderr"];
  KubectlDownloadURL := "https://storage.googleapis.com/kubernetes-release/release/v1.21.0/bin/linux/amd64/kubectl";
  KubectlPath := "/tmp/kubectl-test-v1.21.0"; KubeconfigPath := EmptyString;
  KubeconfigContext := EmptyString; MinimumNodes := 1; TotalNodes := 0;
  AddOnCloudwatchAgent := None; AddOnMetricsServer := None; AddOnFluentBit := None;
  AddOnKubernetesDashboard := None; AddOnNLBHelloWorld := None; AddOnJobsPi := None;
  AddOnJobsEcho := None; AddOnCronJobsEcho := None |}.

(** A file tree without symbolic links in which every directory is
    there, seen from [/home/tester]: a name has the location its clean
    absolute form spells. *)
Definition location (name : string) : option string :=
  if Filepath.IsAbs name then Some (Filepath.Clean name)
  else Some (Filepath.Join ["/home/tester"; name]).

(** A system with no file, working in [/home/tester]. *)
Definition os0 : OS := {|
  cwd := Some ["home"; "tester"]; namei := location; files := ∅; unwritable := ∅;
  short := ∅; stderr := [] |}.


(** The prefix the examples use for [addOn]. *)
Definition addOnPrefix : string := ENV_PREFIX +:+ "ADD_ON_".

(** Structs of one field. *)
Definition retries : StructValue :=
  [(field "Retries" (TPlain Int8) [("json", "retries")], VInt 3)].

Definition timeout : StructValue :=
  [(field "Timeout" (TNamed "Duration" (TPlain Int64)) [("json", "timeout")], VInt 0)].

Definition status (t : GoType) (v : Value) : StructValue :=
  [(readOnly "Tags" t "tags", v)].

(** Environments. *)
Definition envReadOnly : gmap string string :=
  {[ "K8S_TESTER_TOTAL_NODES" := "3" ]}.

Definition envPromptAndReadOnly : gmap string string :=
  {[ "K8S_TESTER_PROMPT" := "maybe"; "K8S_TESTER_TOTAL_NODES" := "3" ]}.

Definition envTotalNodesWord : gmap string string :=
  {[ "K8S_TESTER_TOTAL_NODES" := "abc" ]}.

Definition envMinimumNodes (sv : string) : gmap string string :=
  {[ "K8S_TESTER_MINIMUM_NODES" := sv ]}.

Definition envRetries : gmap string string := {[ "K8S_TESTER_RETRIES" := "abc" ]}.

Definition envCompletes : gmap string string :=
  {[ "K8S_TESTER_JOBS_PI_COMPLETES" := "abc" ]}.

Definition envClusterName : gmap string string :=
  {[ "K8S_TESTER_CLUSTER_NAME" := "mycluster" ]}.

Definition envLogOutputs : gmap string string :=
  {[ "K8S_TESTER_LOG_OUTPUTS" := "stderr,/var/log/k8s-tester.log" ]}.

Definition envPromptAndLogOutputs : gmap string string :=
  {[ "K8S_TESTER_PROMPT" := "maybe";
     "K8S_TESTER_LOG_OUTPUTS" := "stderr,/var/log/k8s-tester.log" ]}.

Definition envTags (sv : string) : gmap string string := {[ "K8S_TESTER_TAGS" := sv ]}.

Definition envLabels : gmap string string :=
  {[ "K8S_TESTER_ADD_ON_LABELS" := "{}" ]}.

Definition envEnableAndLabels : gmap string string :=
  {[ "K8S_TESTER_ADD_ON_ENABLE" := "maybe"; "K8S_TESTER_ADD_ON_LABELS" := "{}" ]}.

Definition envSelector : gmap string string :=
  {[ "K8S_TESTER_ADD_ON_DEPLOYMENT_NODE_SELECTOR" := "{" ]}.

Definition envEnableAndSelector : gmap string string :=
  {[ "K8S_TESTER_ADD_ON_ENABLE" := "maybe";
     "K8S_TESTER_ADD_ON_DEPLOYMENT_NODE_SELECTOR" := "{" ]}.

(** The file of scenario C: the tree [cfg0] and the key
    [unexpected_field]. *)
Definition unexpected : string :=
  print [[print_bool true; "k8s-test"; "/tmp/cfg.yaml"; print_bool true;
          EmptyString; "info"; EmptyString; EmptyString; EmptyString; EmptyString;
          print_Z 1; print_Z 0];
         ["list"; "stderr"];
         ["unexpected_field"]].

Definition osUnexpected : OS := {|
  cwd := Some ["home"; "tester"]; namei := location;
  files := {[ "/tmp/cfg.yaml" := unexpected ]}; unwritable := ∅; short := ∅;
  stderr := [] |}.

End Sample.

(** * More of the code *)

(** ** The pass field by field *)

(** Every field after its own step. *)
Definition stepAll (L : Library) (environ : gmap string string) (pfx : string)
    (vv : StructValue) : StructValue :=
  map (fun f => (f.1, held (parseField L environ pfx f.1 f.2))) vv.

(** The step goes on to the next field. *)
Definition goesOn (st : Step) : Prop :=
  match st with Next _ => True | _ => False end.

(** The kinds the [switch] of [parseEnvs] has a case for. *)
Definition switchKinds : list Kind :=
  [String_; Bool; Int; Int32; Int64; Uint; Uint32; Uint64; Float32; Float64; Slice; Map].

(** The string does not hold the byte [c]. *)
Fixpoint noByte (c : ascii) (s : string) : bool :=
  match s with
  | EmptyString => true
  | String c' r => negb (bool_decide (c' = c)) && noByte c r
  end.

(** The loop passes over the field without looking at its value: the
    field has no key, or its variable is unset or empty. *)
Definition passedOver (L : Library) (environ : gmap string string) (pfx : string)
    (sf : StructField) : Prop :=
  Tag_Get (Tag sf) "json" = EmptyString \/ Getenv environ (envName L pfx sf) = EmptyString.

(** An ASCII lowercase letter. *)
Definition lowercase (c : ascii) : bool :=
  let n := Ascii.nat_of_ascii c in ((97 <=? n) && (n <=? 122))%nat.

(** The string holds no dash and no ASCII lowercase letter. *)
Fixpoint upperKey (s : string) : bool :=
  match s with
  | EmptyString => true
  | String c r => negb (bool_decide (c = "-"%char)) && negb (lowercase c) && upperKey r
  end.

(** ** [parseEnvs] on a nil pointer *)

(** The loop of [parseEnvs] when [addOn] is a nil pointer to a struct of
    type [tp]: [reflect.ValueOf(addOn).Elem()] is the zero [Value], the
    lines up to the read-only test only look at the type, and
    [vv.Field(i)] panics. *)
Fixpoint parseFieldsNil (L : Library) (environ : gmap string string) (pfx : string)
    (tp : list StructField) : LoopEnd :=
  match tp with
  | [] => Done
  | sf :: rest =>
      let jv := Tag_Get (Tag sf) "json" in
      if bool_decide (jv = EmptyString) then parseFieldsNil L environ pfx rest else
      let jv := Strings.Replace jv ",omitempty" "" in
      let jv := Strings.ToUpper (strings_Map_ToUpper L) (Strings.Replace jv "-" "_") in
      let env := pfx +:+ jv in
      let sv := Getenv environ env in
      if bool_decide (sv = EmptyString) then parseFieldsNil L environ pfx rest else
      if bool_decide (Tag_Get (Tag sf) "read-only" = "true")
      then Failed (ReadOnlyViolation env sv)
      else Crashed
  end.

(** [parseEnvs(pfx, addOn)] for a pointer [addOn] to a struct of type
    [tp], [None] when nil: the pointee after the call and the outcome. *)
Definition parseEnvsPtr (L : Library) (environ : gmap string string) (pfx : string)
    (tp : list StructField) (addOn : option StructValue) : option StructValue * Outcome :=
  match addOn with
  | Some vv => let '(vv', o) := parseEnvs L environ pfx vv in (Some vv', o)
  | None =>
      (None, match parseFieldsNil L environ pfx tp with
             | Done => Returned None None
             | Failed err => Returned None (Some err)
             | Crashed => Panicked
             end)
  end.

(** ** [UpdateFromEnvs] and [NewDefault] *)

(** What the file imports from packages of the repository that are not
    among the sources: for each add-on package its [Env()], the fields
    of its [Config] struct and the pointer its [NewDefault()] returns;
    [utils_time.GetTS], the string [rand.String] draws, and
    [log.DefaultLogLevel].  [runtime.GOOS] and [runtime.GOARCH] are with
    them. *)
Record Imports := {
  cloudwatch_agent_Env : string;
  cloudwatch_agent_Config : list StructField;
  cloudwatch_agent_NewDefault : option StructValue;
  metrics_server_Env : string;
  metrics_server_Config : list StructField;
  metrics_server_NewDefault : option StructValue;
  fluent_bit_Env : string;
  fluent_bit_Config : list StructField;
  fluent_bit_NewDefault : option StructValue;
  kubernetes_dashboard_Env : string;
  kubernetes_dashboard_Config : list StructField;
  kubernetes_dashboard_NewDefault : option StructValue;
  nlb_hello_world_Env : string;
  nlb_hello_world_Config : list StructField;
  nlb_hello_world_NewDefault : option StructValue;
  jobs_pi_Env : string;
  jobs_pi_Config : list StructField;
  jobs_pi_NewDefault : option StructValue;
  jobs_echo_Env : string -> string;
  jobs_echo_Config : list StructField;
  jobs_echo_NewDefault : string -> option StructValue;
  utils_time_GetTS : nat -> string;
  rand_String : nat -> string;
  log_DefaultLogLevel : string;
  runtime_GOOS : string;
  runtime_GOARCH : string;
}.

(** [const DefaultMinimumNodes]. *)
Definition DefaultMinimumNodes : Z := 1.

(** [NewDefault()]. *)
Definition NewDefault (I : Imports) (environ : gmap string string) : Config :=
  let name := "k8s-" +:+ utils_time_GetTS I 10 +:+ "-" +:+ rand_String I 12 in
  let v := Getenv environ (ENV_PREFIX +:+ "CLUSTER_NAME") in
  let name := if bool_decide (v ≠ EmptyString) then v else name in
  {| mu := Some Unlocked; Stopc := None;
     Prompt := true;
     ClusterName := name;
     ConfigPath := EmptyString;
     LogColor := true;
     LogColorOverride := EmptyString;
     LogLevel := log_DefaultLogLevel I;
     LogOutputs := Some ["stderr"];
     KubectlPath := "/tmp/kubectl-test-v1.21.0";
     KubectlDownloadURL :=
       "https://storage.googleapis.com/kubernetes-release/release/v1.21.0/bin/"
         +:+ runtime_GOOS I +:+ "/" +:+ runtime_GOARCH I +:+ "/kubectl";
     KubeconfigPath := EmptyString; KubeconfigContext := EmptyString;
     MinimumNodes := DefaultMinimumNodes;
     TotalNodes := 0;
     AddOnCloudwatchAgent := cloudwatch_agent_NewDefault I;
     AddOnMetricsServer := metrics_server_NewDefault I;
     AddOnFluentBit := fluent_bit_NewDefault I;
     AddOnKubernetesDashboard := kubernetes_dashboard_NewDefault I;
     AddOnNLBHelloWorld := nlb_hello_world_NewDefault I;
     AddOnJobsPi := jobs_pi_NewDefault I;
     AddOnJobsEcho := jobs_echo_NewDefault I "Job";
     AddOnCronJobsEcho := jobs_echo_NewDefault I "CronJob" |}.

(** [reflect.ValueOf(cfg).Elem()] aliases the struct behind [cfg]: what
    [parseEnvs] leaves in the value of a field is in the field.  The
    tree [cfg] with the scalar and slice fields as the struct value [vv]
    has them. *)
Definition storeConfig (vv : StructValue) (cfg : Config) : Config := {|
  mu := mu cfg; Stopc := Stopc cfg;
  Prompt := match vv !! 2%nat with Some (_, VBool b) => b | _ => Prompt cfg end;
  ClusterName :=
    match vv !! 3%nat with Some (_, VString s) => s | _ => ClusterName cfg end;
  ConfigPath :=
    match vv !! 4%nat with Some (_, VString s) => s | _ => ConfigPath cfg end;
  LogColor := match vv !! 5%nat with Some (_, VBool b) => b | _ => LogColor cfg end;
  LogColorOverride :=
    match vv !! 6%nat with Some (_, VString s) => s | _ => LogColorOverride cfg end;
  LogLevel := match vv !! 7%nat with Some (_, VString s) => s | _ => LogLevel cfg end;
  LogOutputs :=
    match vv !! 8%nat with Some (_, VSlice ss) => ss | _ => LogOutputs cfg end;
  KubectlDownloadURL :=
    match vv !! 9%nat with Some (_, VString s) => s | _ => KubectlDownloadURL cfg end;
  KubectlPath :=
    match vv !! 10%nat with Some (_, VString s) => s | _ => KubectlPath cfg end;
  KubeconfigPath :=
    match vv !! 11%nat with Some (_, VString s) => s | _ => KubeconfigPath cfg end;
  KubeconfigContext :=
    match vv !! 12%nat with Some (_, VString s) => s | _ => KubeconfigContext cfg end;
  MinimumNodes :=
    match vv !! 13%nat with Some (_, VInt n) => n | _ => MinimumNodes cfg end;
  TotalNodes := match vv !! 14%nat with Some (_, VInt n) => n | _ => TotalNodes cfg end;
  AddOnCloudwatchAgent := AddOnCloudwatchAgent cfg;
  AddOnMetricsServer := AddOnMetricsServer cfg; AddOnFluentBit := AddOnFluentBit cfg;
  AddOnKubernetesDashboard := AddOnKubernetesDashboard cfg;
  AddOnNLBHelloWorld := AddOnNLBHelloWorld cfg; AddOnJobsPi := AddOnJobsPi cfg;
  AddOnJobsEcho := AddOnJobsEcho cfg; AddOnCronJobsEcho := AddOnCronJobsEcho cfg |}.

(** The add-on pointers of the tree, in the order declared, replaced by
    those of the list. *)
Definition set_addOns (l : list (option StructValue)) (cfg : Config) : Config := {|
  mu := mu cfg; Stopc := Stopc cfg; Prompt := Prompt cfg; ClusterName := ClusterName cfg;
  ConfigPath := ConfigPath cfg; LogColor := LogColor cfg;
  LogColorOverride := LogColorOverride cfg; LogLevel := LogLevel cfg;
  LogOutputs := LogOutputs cfg; KubectlDownloadURL := KubectlDownloadURL cfg;
  KubectlPath := KubectlPath cfg; KubeconfigPath := KubeconfigPath cfg;
  KubeconfigContext := KubeconfigContext cfg; MinimumNodes := MinimumNodes cfg;
  TotalNodes := TotalNodes cfg;
  AddOnCloudwatchAgent := default (AddOnCloudwatchAgent cfg) (l !! 0%nat);
  AddOnMetricsServer := default (AddOnMetricsServer cfg) (l !! 1%nat);
  AddOnFluentBit := default (AddOnFluentBit cfg) (l !! 2%nat);
  AddOnKubernetesDashboard := default (AddOnKubernetesDashboard cfg) (l !! 3%nat);
  AddOnNLBHelloWorld := default (AddOnNLBHelloWorld cfg) (l !! 4%nat);
  AddOnJobsPi := default (AddOnJobsPi cfg) (l !! 5%nat);
  AddOnJobsEcho := default (AddOnJobsEcho cfg) (l !! 6%nat);
  AddOnCronJobsEcho := default (AddOnCronJobsEcho cfg) (l !! 7%nat) |}.

(** The prefix and the struct type of each add-on, in the order in which
    [UpdateFromEnvs] goes through them, the order declared. *)
Definition addOnPasses (I : Imports) : list (string * list StructField) := [
  (ENV_PREFIX +:+ cloudwatch_agent_Env I +:+ "_", cloudwatch_agent_Config I);
  (ENV_PREFIX +:+ metrics_server_Env I +:+ "_", metrics_server_Config I);
  (ENV_PREFIX +:+ fluent_bit_Env I +:+ "_", fluent_bit_Config I);
  (ENV_PREFIX +:+ kubernetes_dashboard_Env I +:+ "_", kubernetes_dashboard_Config I);
  (ENV_PREFIX +:+ nlb_hello_world_Env I +:+ "_", nlb_hello_world_Config I);
  (ENV_PREFIX +:+ jobs_pi_Env I +:+ "_", jobs_pi_Config I);
  (ENV_PREFIX +:+ jobs_echo_Env I "Job" +:+ "_", jobs_echo_Config I);
  (ENV_PREFIX +:+ jobs_echo_Env I "CronJob" +:+ "_", jobs_echo_Config I)
].

Section UpdateFromEnvs.
Context (L : Library) (I : Imports) (environ : gmap string string).

(** The blocks of [UpdateFromEnvs] for the add-ons, one after the other
    over the add-on pointers of the tree: [parseEnvs] on the pointer,
    which writes through it; on an error [return err]; otherwise the
    pointer returned, which is the pointer passed and so of the type
    asserted, is assigned to the field, and the next block follows.  The
    list is the add-on pointers as the blocks leave them. *)
Fixpoint addOnBlocks (passes : list (string * list StructField))
    (addOns : list (option StructValue)) :
    list (option StructValue) * Call (option error) :=
  match passes, addOns with
  | (pfx, tp) :: passes, addOn :: rest =>
      let '(addOn, o) := parseEnvsPtr L environ pfx tp addOn in
      match o with
      | Panicked => (addOn :: rest, Panics)
      | Returned _ (Some err) => (addOn :: rest, Returns (Some err))
      | Returned _ None =>
          let '(rest, c) := addOnBlocks passes rest in (addOn :: rest, c)
      end
  | _, _ => (addOns, Returns None)
  end.

(** [(cfg *Config) UpdateFromEnvs]: the tree after the call and the
    error returned. *)
Definition UpdateFromEnvs (cfg : Config) : Config * Call (option error) :=
  let '(vv, o) := parseEnvs L environ ENV_PREFIX (reflectConfig cfg) in
  let cfg := storeConfig vv cfg in
  match o with
  | Panicked => (cfg, Panics)
  | Returned _ (Some err) => (cfg, Returns (Some err))
  | Returned _ None =>
      let '(l, c) := addOnBlocks (addOnPasses I) (addOns cfg) in (set_addOns l cfg, c)
  end.

End UpdateFromEnvs.

(** The reflection calls of [parseEnvs] cannot panic on the field: where
    the [switch] has a case for its kind the field is exported, a slice
    is a [[]string] and a map a [map[string]string]. *)
Definition settable (sf : StructField) : bool :=
  match kindOf (Type_ sf) with
  | String_ | Bool | Int | Int32 | Int64 | Uint | Uint32 | Uint64 | Float32 | Float64 =>
      CanSet sf
  | Slice => CanSet sf && assignableTo stringSlice (Type_ sf)
  | Map => CanSet sf && assignableTo stringMap (Type_ sf)
  | _ => true
  end.

(** No variable of the process that [UpdateFromEnvs] could look up holds
    a value: every name that starts with [K8S_TESTER_] is unset or
    empty. *)
Definition quiet (environ : gmap string string) : Prop :=
  forall name, Strings.HasPrefix name ENV_PREFIX = true -> Getenv environ name = EmptyString.

(** What a field holds after an override from the variable [name] that
    is read with [read]: the old value when the variable is unset or
    empty. *)
Definition fromEnv {A : Type} (environ : gmap string string) (name : string)
    (old : A) (read : string -> A) : A :=
  let sv := Getenv environ name in
  if bool_decide (sv = EmptyString) then old else read sv.

(** What each add-on block does to its pointer when it is run on its
    own. *)
Definition passAll (L : Library) (I : Imports) (environ : gmap string string)
    (addOns : list (option StructValue)) : list (option StructValue * Outcome) :=
  zip_with (fun p a => parseEnvsPtr L environ p.1 p.2 a) (addOnPasses I) addOns.

(** The call of [parseEnvs] returned no error. *)
Definition passed (o : Outcome) : Prop :=
  match o with Returned _ None => True | _ => False end.

(** An add-on pointer on which the block of [UpdateFromEnvs] with the
    prefix and struct type [p] cannot panic: it points to a struct of
    fields [settable], or it is nil and the loop passes over every field
    of the type. *)
Definition safe (L : Library) (environ : gmap string string) (p : string * list StructField)
    (a : option StructValue) : Prop :=
  match a with
  | Some vv => Forall (fun f => settable f.1 = true) vv
  | None => Forall (passedOver L environ p.1) p.2
  end.

(** The value is of the type [parseEnvs] stores in a field of the
    kind. *)
Definition ofKind (k : Kind) (w : Value) : Prop :=
  match k, w with
  | String_, VString _ | Bool, VBool _
  | (Int | Int32 | Int64), VInt _ | (Uint | Uint32 | Uint64), VUint _
  | (Float32 | Float64), VFloat _ | Slice, VSlice _ | Map, VMap _ => True
  | _, _ => False
  end.

(** ** The steps of [unsafeSync] *)

(** What [unsafeSync] does to each of the two paths: a path that is not
    empty and not absolute is replaced by its [filepath.Abs]. *)
Definition resolve (os : OS) (path : string) : string * option error :=
  if bool_decide (path ≠ EmptyString) && negb (Filepath.IsAbs path) then
    let '(p, err) := Abs os path in
    match err with
    | Some err => (path, Some (PathResolutionError path err))
    | None => (p, None)
    end
  else (path, None).

(** The end of [unsafeSync]: the tree is serialized and written under
    its [ConfigPath]. *)
Definition write (Y : YAML) (os : OS) (cfg : Config) : OS * option error :=
  let '(d, err) := yaml_Marshal Y cfg in
  match err with
  | Some err => (os, Some (SerializationError err))
  | None =>
      let '(os, err) := WriteFile os (ConfigPath cfg) d in
      match err with
      | Some err => (os, Some (WriteError (ConfigPath cfg) err))
      | None => (os, None)
      end
  end.

(** ** Package [ec2]: [SubnetRouteTableAssociation] *)

Module Ec2.

(** [type SubnetRouteTableAssociation struct].  [Any] is what an
    [interface{}] of the metadata holds; [policies.DeletionPolicy] is a
    string type; a slice and a map are [None] when nil. *)
Record SubnetRouteTableAssociation {Any : Type} := {
  RouteTableId : string;
  SubnetId : string;
  _deletionPolicy : string;
  _dependsOn : option (list string);
  _metadata : option (gmap string Any);
  _resourceCondition : string;
}.
Arguments SubnetRouteTableAssociation : clear implicits.

(** The anonymous struct [res] that [UnmarshalJSON] decodes into. *)
Module Res.
Record t {Any : Type} := {
  Type_ : string;
  Properties : option (SubnetRouteTableAssociation Any);
  DependsOn : option (list string);
  Condition : string;
  Metadata : option (gmap string Any);
  DeletionPolicy : string;
}.
Arguments t : clear implicits.
End Res.

Section Methods.
Context {Any : Type}.
Local Abbreviation T := (SubnetRouteTableAssociation Any).

Definition ResourceCondition (r : T) : string := _resourceCondition r.


Definition AWSCloudFormationType (r : T) : string := "AWS::EC2::SubnetRouteTableAssociation".

Definition DependsOn (r : T) : option (list string) := _dependsOn r.


Definition Metadata (r : T) : option (gmap string Any) := _metadata r.


Definition DeletionPolicy (r : T) : string := _deletionPolicy r.


(** [json.NewDecoder(bytes.NewReader(b))], [DisallowUnknownFields] and
    [Decode(&res)] into the zero [res], taken as given: the struct
    decoded and the error. *)
Context (Decode : string -> list JSONOpt -> Res.t Any * option error).


End Methods.



End Ec2.

(** ** Stand-ins for the imported packages, to run the model on examples *)

Module Fixture.

(** Add-on structs of a switch and a count. *)
Definition Config_ : list StructField := [
  field "Enable" (TPlain Bool) [("json", "enable")];
  field "Completes" (TPlain Int) [("json", "completes")]
].

Definition config (enable : bool) (completes : Z) : StructValue :=
  zip Config_ [VBool enable; VInt completes].

Definition imports : Imports := {|
  cloudwatch_agent_Env := "ADD_ON_CLOUDWATCH_AGENT";
  cloudwatch_agent_Config := Config_;
  cloudwatch_agent_NewDefault := Some (config false 0);
  metrics_server_Env := "ADD_ON_METRICS_SERVER";
  metrics_server_Config := Config_;
  metrics_server_NewDefault := Some (config false 0);
  fluent_bit_Env := "ADD_ON_FLUENT_BIT";
  fluent_bit_Config := Config_;
  fluent_bit_NewDefault := Some (config false 0);
  kubernetes_dashboard_Env := "ADD_ON_KUBERNETES_DASHBOARD";
  kubernetes_dashboard_Config := Config_;
  kubernetes_dashboard_NewDefault := Some (config false 0);
  nlb_hello_world_Env := "ADD_ON_NLB_HELLO_WORLD";
  nlb_hello_world_Config := Config_;
  nlb_hello_world_NewDefault := Some (config false 0);
  jobs_pi_Env := Sample.jobs_pi_Env;
  jobs_pi_Config := Config_;
  jobs_pi_NewDefault := Some (config false 30);
  jobs_echo_Env := fun kind => "ADD_ON_" +:+ Strings.upperASCII kind +:+ "S_ECHO";
  jobs_echo_Config := Config_;
  jobs_echo_NewDefault := fun _ => Some (config false 10);
  utils_time_GetTS := fun _ => "2021052514";
  rand_String := fun _ => "abcdefghijkl";
  log_DefaultLogLevel := "info";
  runtime_GOOS := "linux";
  runtime_GOARCH := "amd64";
|}.

(** Environments. *)
Definition envCompletes (sv : string) : gmap string string :=
  {[ "K8S_TESTER_JOBS_PI_COMPLETES" := sv ]}.

Definition envNames : gmap string string :=
  {[ "K8S_TESTER_CLUSTER_NAME" := "mycluster"; "K8S_TESTER_CONFIG_PATH" := "cfg.yaml";
     "K8S_TESTER_LOG_LEVEL" := "debug" ]}.

Definition envPromptAndCompletes : gmap string string :=
  {[ "K8S_TESTER_PROMPT" := "maybe"; "K8S_TESTER_JOBS_PI_COMPLETES" := "7" ]}.

(** A tree as [NewDefault] builds it, with one add-on pointer nil. *)
Definition cfg1 : Config :=
  set_addOns [None] (NewDefault imports ∅).

(** A system in which the tree [Sample.cfg0] has been saved under
    [/tmp/cfg.yaml], in a file that cannot be written any more. *)
Definition osSaved : OS := {|
  cwd := Some ["home"; "tester"]; namei := Sample.location;
  files := {[ "/tmp/cfg.yaml" := (Sample.Marshal Sample.cfg0).1 ]};
  unwritable := {[ "/tmp/cfg.yaml" ]}; short := ∅;
  stderr := [] |}.

End Fixture.

(** * Properties *)

(** ** Strings *)

Lemma split_from_nonempty skip sep s : Strings.split_from skip sep s <> [].
Proof.
  revert skip. induction s as [|c r IH]; intros skip; [done|].
  destruct skip as [|k]; cbn [Strings.split_from]; [|apply IH].
  destruct (Strings.HasPrefix (String c r) sep); [done|].
  destruct (Strings.split_from 0 sep r); done.
Qed.

(** [strings.Split] with the separator [","] always yields an element. *)
Lemma Split_comma_length s : (1 <= length (Strings.Split s ","))%nat.
Proof.
  unfold Strings.Split.
  pose proof (split_from_nonempty 0 "," s) as H.
  destruct (Strings.split_from 0 "," s); [done|simpl; lia].
Qed.

Lemma upper_dash c : Strings.upper c = "-"%char <-> c = "-"%char.
Proof. destruct c as [[] [] [] [] [] [] [] []]; vm_compute; split; congruence. Qed.

Lemma upperASCII_app s t :
  Strings.upperASCII (s +:+ t) = Strings.upperASCII s +:+ Strings.upperASCII t.
Proof.
  induction s as [|c r IH]; [done|].
  change (String c r +:+ t) with (String c (r +:+ t)).
  cbn [Strings.upperASCII]. rewrite IH. done.
Qed.

Lemma HasPrefix_dash c r : Strings.HasPrefix (String c r) "-" = bool_decide (c = "-"%char).
Proof.
  unfold Strings.HasPrefix. cbn [String.prefix].
  destruct (Ascii.ascii_dec "-" c) as [<-|Hne].
  - rewrite bool_decide_eq_true_2 by done. by destruct r.
  - by rewrite bool_decide_eq_false_2 by congruence.
Qed.

(** Replacing dashes and converting to upper case commute. *)
Lemma upperASCII_Replace_dash s :
  Strings.upperASCII (Strings.Replace s "-" "_")
  = Strings.Replace (Strings.upperASCII s) "-" "_".
Proof.
  unfold Strings.Replace. induction s as [|c r IH]; [done|].
  cbn [Strings.replace_from Strings.upperASCII]. rewrite !HasPrefix_dash.
  change (String.length "-" - 1)%nat with 0%nat.
  destruct (decide (c = "-"%char)) as [->|Hne].
  - rewrite !bool_decide_eq_true_2 by done.
    rewrite upperASCII_app, IH. done.
  - rewrite !bool_decide_eq_false_2; [|by rewrite upper_dash|done].
    simpl. by rewrite IH.
Qed.

(** Replacing every dash maps the string byte by byte. *)
Lemma Replace_dash_mapBytes s : Strings.Replace s "-" "_" = mapBytes dashToUnderscore s.
Proof.
  unfold Strings.Replace. induction s as [|c r IH]; [done|].
  cbn [Strings.replace_from mapBytes]. rewrite HasPrefix_dash.
  change (String.length "-" - 1)%nat with 0%nat. unfold dashToUnderscore at 1.
  case_bool_decide; by rewrite IH.
Qed.

Lemma isASCII_Replace_dash s :
  Strings.isASCII (Strings.Replace s "-" "_") = Strings.isASCII s.
Proof.
  rewrite Replace_dash_mapBytes. induction s as [|c r IH]; [done|].
  cbn [mapBytes Strings.isASCII]. rewrite IH. unfold dashToUnderscore.
  by case_bool_decide; subst.
Qed.

Lemma isASCII_app s t :
  Strings.isASCII (s +:+ t) = Strings.isASCII s && Strings.isASCII t.
Proof.
  induction s as [|c r IH]; [done|].
  change (String c r +:+ t) with (String c (r +:+ t)).
  cbn [Strings.isASCII]. by rewrite IH, andb_assoc.
Qed.

Lemma isASCII_replace_from k old new s :
  Strings.isASCII s = true -> Strings.isASCII new = true ->
  Strings.isASCII (Strings.replace_from k old new s) = true.
Proof.
  intros Hs Hnew. revert k Hs. induction s as [|c r IH]; intros k Hs; [done|].
  cbn [Strings.isASCII] in Hs. apply andb_true_iff in Hs as [Hc Hr].
  cbn [Strings.replace_from]. destruct k as [|k]; [|by apply IH].
  destruct (Strings.HasPrefix (String c r) old).
  - rewrite isASCII_app, Hnew. by apply IH.
  - cbn [Strings.isASCII]. rewrite Hc. by apply IH.
Qed.

(** The upper case of the code, taken after the replacement of the
    dashes, is the upper case of the specification, taken before it. *)
Lemma ToUpper_Replace_dash L s :
  upperKeepsDash L \/ Strings.isASCII s = true ->
  Strings.ToUpper (strings_Map_ToUpper L) (Strings.Replace s "-" "_")
  = Strings.Replace (Strings.ToUpper (strings_Map_ToUpper L) s) "-" "_".
Proof.
  intros H. unfold Strings.ToUpper. rewrite isASCII_Replace_dash.
  destruct (Strings.isASCII s) eqn:Hs; [apply upperASCII_Replace_dash|].
  by destruct H as [H|H]; [apply H|].
Qed.

Lemma Join_cons_byte c h t new :
  Strings.Join (String c h :: t) new = String c (Strings.Join (h :: t) new).
Proof. by destruct t. Qed.

(** [strings.Replace] joins with the new string what [strings.Split]
    splits at the old one. *)
Lemma replace_from_split_from k old new s :
  Strings.replace_from k old new s = Strings.Join (Strings.split_from k old s) new.
Proof.
  revert k. induction s as [|c r IH]; intros k; [done|].
  cbn [Strings.replace_from Strings.split_from]. destruct k as [|k]; [|apply IH].
  destruct (Strings.HasPrefix (String c r) old).
  - rewrite IH. pose proof (split_from_nonempty (String.length old - 1) old r) as Hne.
    by destruct (Strings.split_from (String.length old - 1) old r).
  - rewrite IH. pose proof (split_from_nonempty 0 old r) as Hne.
    destruct (Strings.split_from 0 old r) as [|h t]; [done|].
    by rewrite Join_cons_byte.
Qed.

Lemma Replace_Join_Split s old new :
  old <> EmptyString ->
  Strings.Replace s old new = Strings.Join (Strings.Split s old) new.
Proof.
  intros Hold. unfold Strings.Replace, Strings.Split.
  destruct old; [done|]. apply replace_from_split_from.
Qed.

(** The key computed by the code is the key of the specification. *)
Lemma envKey_specKey L jv :
  upperKeepsDash L \/ Strings.isASCII jv = true -> envKey L jv = specKey L jv.
Proof.
  intros H. unfold envKey, specKey. apply ToUpper_Replace_dash.
  destruct H as [H|H]; [by left|right].
  unfold Strings.Replace. by apply isASCII_replace_from.
Qed.

(** ** The slice built by [parseEnvs] *)

Lemma fillSlice_prefix (ss : list string) k :
  (k <= length ss)%nat ->
  foldl (fun slice j => <[j := default EmptyString (ss !! j)]> slice)
        (MakeSlice (length ss)) (seq 0 k)
  = take k ss ++ replicate (length ss - k) EmptyString.
Proof.
  induction k as [|k IH]; intros Hk.
  - simpl. by rewrite Nat.sub_0_r.
  - rewrite seq_S, foldl_app. simpl. rewrite IH by lia.
    destruct (lookup_lt_is_Some_2 ss k) as [x Hx]; [lia|].
    rewrite Hx. simpl.
    rewrite insert_app_r_alt by (rewrite length_take; lia).
    rewrite length_take, Nat.min_l, Nat.sub_diag by lia.
    replace (length ss - k)%nat with (S (length ss - S k)) by lia.
    simpl. rewrite (take_S_r _ _ _ Hx), <- app_assoc. done.
Qed.

(** The copying loop leaves exactly the strings it was given. *)
Lemma fillSlice_id ss : fillSlice ss = ss.
Proof.
  unfold fillSlice. rewrite fillSlice_prefix by lia.
  rewrite Nat.sub_diag, firstn_all. simpl. apply app_nil_r.
Qed.

(** ** The loop of [parseEnvs] *)

(** Names the variable looked up in the unfolded body of the loop. *)
Ltac fold_envName L pfx sf :=
  change (pfx +:+ Strings.ToUpper (strings_Map_ToUpper L)
                    (Strings.Replace
                       (Strings.Replace (Tag_Get (Tag sf) "json") ",omitempty" "")
                       "-" "_"))
    with (envName L pfx sf) in *.

Section ParseEnvsFacts.
Context (L : Library) (environ : gmap string string) (pfx : string).

Lemma parseField_untagged sf v :
  Tag_Get (Tag sf) "json" = EmptyString -> parseField L environ pfx sf v = Next v.
Proof. intros H. unfold parseField. by rewrite H. Qed.

Lemma parseField_unset sf v :
  Getenv environ (envName L pfx sf) = EmptyString -> parseField L environ pfx sf v = Next v.
Proof.
  intros H. unfold parseField. case_bool_decide; [done|].
  cbv zeta. fold_envName L pfx sf. by rewrite H.
Qed.

Lemma parseField_read_only sf v :
  Tag_Get (Tag sf) "json" <> EmptyString ->
  Getenv environ (envName L pfx sf) <> EmptyString ->
  Tag_Get (Tag sf) "read-only" = "true" ->
  parseField L environ pfx sf v
  = Return v (ReadOnlyViolation (envName L pfx sf) (Getenv environ (envName L pfx sf))).
Proof.
  intros Hj Hs Hr. unfold parseField. cbv zeta. fold_envName L pfx sf.
  rewrite bool_decide_eq_false_2 by done.
  rewrite bool_decide_eq_false_2 by done.
  by rewrite bool_decide_eq_true_2 by done.
Qed.

Lemma parseFields_app pre post :
  parseFields L environ pfx (pre ++ post) =
  match parseFields L environ pfx pre with
  | (pre', Done) =>
      let '(post', e) := parseFields L environ pfx post in (pre' ++ post', e)
  | (pre', e) => (pre' ++ post, e)
  end.
Proof.
  induction pre as [|[sf v] pre IH]; simpl.
  - by destruct (parseFields L environ pfx post).
  - destruct (parseField L environ pfx sf v); [|done..].
    destruct (parseFields L environ pfx pre) as [pre' e]. rewrite IH.
    destruct e; [|done..].
    by destruct (parseFields L environ pfx post).
Qed.

Lemma parseFields_length vv : length (parseFields L environ pfx vv).1 = length vv.
Proof.
  induction vv as [|[sf v] vv IH]; simpl; [done|].
  destruct (parseField L environ pfx sf v); simpl; [|done..].
  destruct (parseFields L environ pfx vv); simpl in *. by rewrite IH.
Qed.

(** The loop at field [i]: what the fields before it leave, then the
    step of the field, then the fields after it. *)
Lemma parseFields_at vv i sf v :
  vv !! i = Some (sf, v) ->
  parseFields L environ pfx vv =
  match parseFields L environ pfx (take i vv) with
  | (pre', Done) =>
      let st := parseField L environ pfx sf v in
      match st with
      | Next _ =>
          let '(post', e) := parseFields L environ pfx (drop (S i) vv) in
          (pre' ++ (sf, held st) :: post', e)
      | _ => (pre' ++ (sf, held st) :: drop (S i) vv, after st Done)
      end
  | (pre', e) => (pre' ++ (sf, v) :: drop (S i) vv, e)
  end.
Proof.
  intros Hi. rewrite <- (take_drop_middle vv i (sf, v) Hi) at 1.
  rewrite parseFields_app.
  destruct (parseFields L environ pfx (take i vv)) as [pre' e].
  destruct e; [|done..]. simpl.
  destruct (parseField L environ pfx sf v); simpl; [|done..].
  by destruct (parseFields L environ pfx (drop (S i) vv)).
Qed.

Lemma parseFields_take_length vv i sf v :
  vv !! i = Some (sf, v) -> length (parseFields L environ pfx (take i vv)).1 = i.
Proof.
  intros Hi. rewrite parseFields_length, length_take.
  apply lookup_lt_Some in Hi. lia.
Qed.

(** The field the loop reaches holds what its step leaves. *)
Lemma parseFields_reached vv i sf v :
  vv !! i = Some (sf, v) ->
  reaches L environ pfx vv i ->
  (parseFields L environ pfx vv).1 !! i = Some (sf, held (parseField L environ pfx sf v))
  /\ (parseFields L environ pfx vv).2
     = after (parseField L environ pfx sf v) (parseFields L environ pfx (drop (S i) vv)).2.
Proof.
  intros Hi Hr. unfold reaches in Hr.
  pose proof (parseFields_take_length vv i sf v Hi) as Hlen.
  rewrite (parseFields_at vv i sf v Hi).
  destruct (parseFields L environ pfx (take i vv)) as [pre' e]. simpl in *. subst e.
  destruct (parseField L environ pfx sf v) as [v'|v' err|v']; simpl.
  - destruct (parseFields L environ pfx (drop (S i) vv)) as [post' e']. simpl.
    split; [|done]. by rewrite list_lookup_middle.
  - split; [|done]. by rewrite list_lookup_middle.
  - split; [|done]. by rewrite list_lookup_middle.
Qed.

(** A field the loop does not reach is as it was, and the loop ends as
    it ended before the field. *)
Lemma parseFields_unreached vv i sf v :
  vv !! i = Some (sf, v) ->
  ~ reaches L environ pfx vv i ->
  (parseFields L environ pfx vv).1 !! i = Some (sf, v)
  /\ (parseFields L environ pfx vv).2 = (parseFields L environ pfx (take i vv)).2.
Proof.
  intros Hi Hr. unfold reaches in Hr.
  pose proof (parseFields_take_length vv i sf v Hi) as Hlen.
  rewrite (parseFields_at vv i sf v Hi).
  destruct (parseFields L environ pfx (take i vv)) as [pre' e]. simpl in *.
  destruct e; [done|..]; simpl; (split; [|done]); by rewrite list_lookup_middle.
Qed.

Lemma reaches_dec vv i : Decision (reaches L environ pfx vv i).
Proof. unfold reaches. destruct (parseFields L environ pfx (take i vv)).2; [left|right..]; done. Qed.

Lemma parseEnvs_eq vv :
  parseEnvs L environ pfx vv
  = ((parseFields L environ pfx vv).1,
     outcome (parseFields L environ pfx vv).1 (parseFields L environ pfx vv).2).
Proof. unfold parseEnvs. by destruct (parseFields L environ pfx vv) as [vv' []]. Qed.

End ParseEnvsFacts.

(** ** Unset variables and fields without a key *)

Section Frame.
Context (L : Library) (pfx : string).

Lemma Getenv_empty (environ : gmap string string) key :
  environ !! key = None \/ environ !! key = Some EmptyString <->
  Getenv environ key = EmptyString.
Proof.
  unfold Getenv. destruct (environ !! key) as [s|]; simpl; split; intros H.
  - destruct H as [H|H]; congruence.
  - right. by rewrite H.
  - done.
  - by left.
Qed.

(** A step that leaves the field alone and goes on can be taken out of
    the loop. *)
Lemma parseFields_skip environ (vv : StructValue) i sf v :
  vv !! i = Some (sf, v) ->
  parseField L environ pfx sf v = Next v ->
  (parseFields L environ pfx vv).1 !! i = Some (sf, v)
  /\ parseFields L environ pfx (delete i vv)
     = (delete i (parseFields L environ pfx vv).1, (parseFields L environ pfx vv).2).
Proof.
  intros Hi Hst.
  pose proof (parseFields_take_length L environ pfx vv i sf v Hi) as Hlen.
  rewrite (parseFields_at L environ pfx vv i sf v Hi), Hst.
  rewrite (delete_take_drop vv i), parseFields_app.
  destruct (parseFields L environ pfx (take i vv)) as [pre' e]. simpl in *.
  subst i.
  destruct e; simpl.
  - destruct (parseFields L environ pfx (drop (S (length pre')) vv)) as [post' e']. simpl.
    by rewrite list_lookup_middle, delete_middle.
  - by rewrite list_lookup_middle, delete_middle.
  - by rewrite list_lookup_middle, delete_middle.
Qed.

(** C3.  When the variable matching a field is unset or set to the
    empty string, the step for that field goes on without an error and
    with the field as it was; after the pass the field still holds its
    prior value, whatever the pass does elsewhere; and the pass ends the
    way it ends on the struct without that field, so no error of the
    pass comes from it. *)
Theorem unset_variable_keeps_field (environ : gmap string string)
    (vv : StructValue) (i : nat) (sf : StructField) (v : Value) :
  vv !! i = Some (sf, v) ->
  environ !! envName L pfx sf = None \/ environ !! envName L pfx sf = Some EmptyString ->
  parseField L environ pfx sf v = Next v
  /\ exists vv' e,
       parseEnvs L environ pfx vv = (vv', outcome vv' e)
       /\ vv' !! i = Some (sf, v)
       /\ parseEnvs L environ pfx (delete i vv) = (delete i vv', outcome (delete i vv') e).
Proof.
  intros Hi Hunset. apply Getenv_empty in Hunset.
  pose proof (parseField_unset L environ pfx sf v Hunset) as Hst.
  split; [done|].
  destruct (parseFields_skip environ vv i sf v Hi Hst) as [Hl Hd].
  exists (parseFields L environ pfx vv).1, (parseFields L environ pfx vv).2.
  rewrite !parseEnvs_eq, Hd. done.
Qed.

End Frame.

(** ** The variable looked up for a field *)

Section Keys.
Context (L : Library) (pfx : string).

(** The step of a field depends on the environment through one variable
    only. *)
Lemma parseField_environ_ext (environ1 environ2 : gmap string string) sf v :
  (Tag_Get (Tag sf) "json" <> EmptyString ->
   Getenv environ1 (envName L pfx sf) = Getenv environ2 (envName L pfx sf)) ->
  parseField L environ1 pfx sf v = parseField L environ2 pfx sf v.
Proof.
  intros H. unfold parseField. case_bool_decide as Hj; [done|].
  cbv zeta. fold_envName L pfx sf. by rewrite (H Hj).
Qed.

Lemma parseFields_environ_ext (environ1 environ2 : gmap string string) (vv : StructValue) :
  (forall sf v, (sf, v) ∈ vv -> Tag_Get (Tag sf) "json" <> EmptyString ->
     Getenv environ1 (envName L pfx sf) = Getenv environ2 (envName L pfx sf)) ->
  parseFields L environ1 pfx vv = parseFields L environ2 pfx vv.
Proof.
  induction vv as [|[sf v] vv IH]; intros H; simpl; [done|].
  rewrite (parseField_environ_ext environ1 environ2 sf v).
  2:{ apply (H sf v). by left. }
  rewrite IH; [done|].
  intros sf' v' Hin. apply (H sf' v'). by right.
Qed.

(** C4.  A field without a json tag is never matched: its step goes on
    with the field as it was, whatever the environment holds.  For a
    field with a tag the variable looked up is the prefix followed by the
    tag with [,omitempty] stripped, every [-] replaced by [_], in upper
    case: the pass reads nothing else of the environment (two
    environments that agree on these names give the same pass), and it
    does read that name (a string field that can be set and is not
    read-only takes the non-empty value found under it).  The key is the
    upper case of what is left of the tag when it is split at every
    [,omitempty], the pieces are joined, and each dash is mapped to an
    underscore; it is the key the specification derives, which takes the
    upper case first, for a tag of ASCII bytes, and for every tag when
    the upper case of Unicode keeps the dashes. *)
Theorem env_name_of_field :
  (forall environ sf v,
     Tag_Get (Tag sf) "json" = EmptyString -> parseField L environ pfx sf v = Next v)
  /\ (forall environ1 environ2 (vv : StructValue),
        (forall sf v, (sf, v) ∈ vv -> Tag_Get (Tag sf) "json" <> EmptyString ->
           let name :=
             pfx +:+ Strings.ToUpper (strings_Map_ToUpper L)
                       (Strings.Replace
                          (Strings.Replace (Tag_Get (Tag sf) "json") ",omitempty" "")
                          "-" "_") in
           Getenv environ1 name = Getenv environ2 name) ->
        parseEnvs L environ1 pfx vv = parseEnvs L environ2 pfx vv)
  /\ (forall environ sf v,
        Tag_Get (Tag sf) "json" <> EmptyString ->
        kindOf (Type_ sf) = String_ -> CanSet sf = true ->
        Tag_Get (Tag sf) "read-only" <> "true" ->
        let name :=
          pfx +:+ Strings.ToUpper (strings_Map_ToUpper L)
                    (Strings.Replace
                       (Strings.Replace (Tag_Get (Tag sf) "json") ",omitempty" "")
                       "-" "_") in
        Getenv environ name <> EmptyString ->
        parseField L environ pfx sf v = Next (VString (Getenv environ name)))
  /\ (forall sf,
        envName L pfx sf
        = pfx +:+ Strings.ToUpper (strings_Map_ToUpper L)
                    (mapBytes dashToUnderscore
                       (Strings.Join
                          (Strings.Split (Tag_Get (Tag sf) "json") ",omitempty")
                          EmptyString)))
  /\ (forall sf,
        upperKeepsDash L \/ Strings.isASCII (Tag_Get (Tag sf) "json") = true ->
        envName L pfx sf = pfx +:+ specKey L (Tag_Get (Tag sf) "json")).
Proof.
  split; [|split; [|split; [|split]]].
  - intros environ sf v. apply parseField_untagged.
  - intros environ1 environ2 vv H. unfold parseEnvs.
    by rewrite (parseFields_environ_ext environ1 environ2 vv H).
  - intros environ sf v Hj Hk Hset Hro name Hsv.
    unfold parseField. cbv zeta. fold name.
    rewrite !bool_decide_eq_false_2 by done.
    rewrite Hk. unfold set. by rewrite Hset.
  - intros sf. unfold envName, envKey. cbv zeta.
    by rewrite Replace_dash_mapBytes, Replace_Join_Split.
  - intros sf H. unfold envName. by rewrite envKey_specKey.
Qed.

End Keys.

(** ** Read-only fields *)

Section ReadOnly.
Context (L : Library) (environ : gmap string string) (pfx : string).

Lemma outcome_failed vv' e : e <> Done -> failed (outcome vv' e).
Proof. by destruct e. Qed.

(** C1, amended.  For a field with a json tag and the read-only marker
    whose variable holds a non-empty string: the pass does not succeed;
    the field is left unmodified; and when no field declared before it
    stops the pass, the pass returns the read-only error naming that
    variable. *)
Theorem read_only_override_rejected (vv : StructValue) (i : nat) (sf : StructField) (v : Value) :
  vv !! i = Some (sf, v) ->
  Tag_Get (Tag sf) "json" <> EmptyString ->
  Tag_Get (Tag sf) "read-only" = "true" ->
  Getenv environ (envName L pfx sf) <> EmptyString ->
  failed (parseEnvs L environ pfx vv).2
  /\ (parseEnvs L environ pfx vv).1 !! i = Some (sf, v)
  /\ (reaches L environ pfx vv i ->
      (parseEnvs L environ pfx vv).2
      = Returned None
          (Some (ReadOnlyViolation (envName L pfx sf) (Getenv environ (envName L pfx sf))))).
Proof.
  intros Hi Hj Hro Hsv.
  pose proof (parseField_read_only L environ pfx sf v Hj Hsv Hro) as Hst.
  rewrite parseEnvs_eq. simpl.
  destruct (reaches_dec L environ pfx vv i) as [Hr|Hr].
  - destruct (parseFields_reached L environ pfx vv i sf v Hi Hr) as [Hl He].
    rewrite Hst in Hl, He. simpl in Hl, He. rewrite He. simpl. done.
  - destruct (parseFields_unreached L environ pfx vv i sf v Hi Hr) as [Hl He].
    rewrite He. split; [|done]. apply outcome_failed. apply Hr.
Qed.

End ReadOnly.

(** ** The step per kind of field *)

Section Kinds.
Context (L : Library) (environ : gmap string string) (pfx : string).

Lemma kindOf_underlying t : kindOf (underlying t) = kindOf t.
Proof. induction t; simpl; done. Qed.

(** The step of a field that has a key, a non-empty value and no
    read-only marker is the [switch] on its kind. *)
Lemma parseField_switch sf v :
  Tag_Get (Tag sf) "json" <> EmptyString ->
  Tag_Get (Tag sf) "read-only" <> "true" ->
  Getenv environ (envName L pfx sf) <> EmptyString ->
  parseField L environ pfx sf v =
  let env := envName L pfx sf in
  let sv := Getenv environ env in
  let k := kindOf (Type_ sf) in
  match k with
  | String_ => set sf v (VString sv)
  | Bool =>
      match Strconv.ParseBool sv with
      | (_, Some err) => Return v (TypeCoercionError sv (Name sf) env err)
      | (bb, None) => set sf v (VBool bb)
      end
  | Int | Int32 | Int64 =>
      match parseSigned L sf sv with
      | (_, Some err) => Return v (TypeCoercionError sv (Name sf) env err)
      | (iv, None) => set sf v (VInt (wrapSigned (bitSize k) iv))
      end
  | Uint | Uint32 | Uint64 =>
      match Strconv.ParseUint sv with
      | (_, Some err) => Return v (TypeCoercionError sv (Name sf) env err)
      | (iv, None) => set sf v (VUint (wrapUnsigned (bitSize k) iv))
      end
  | Float32 | Float64 =>
      match strconv_ParseFloat L sv with
      | (_, Some err) => Return v (TypeCoercionError sv (Name sf) env err)
      | (fv, None) =>
          set sf v (VFloat (if bool_decide (k = Float32) then float32 L fv else fv))
      end
  | Slice => Set_ sf stringSlice v (VSlice (Some (Strings.Split sv ",")))
  | Map =>
      if bool_decide (Name sf ∈ mapFieldNames) then
        match Set_ sf stringMap v (VMap (Some ∅)) with
        | Next v1 =>
            match json_Unmarshal L sv with
            | (_, Some err) => Return v1 (TypeCoercionError sv (Name sf) env err)
            | (mm, None) => Set_ sf stringMap v1 (VMap mm)
            end
        | stop => stop
        end
      else Return v (UnsupportedFieldKind (Name sf))
  | _ => Next v
  end.
Proof.
  intros Hj Hro Hsv. unfold parseField. cbv zeta. fold_envName L pfx sf.
  rewrite !bool_decide_eq_false_2 by done.
  unfold parseSigned.
  set (sv := Getenv environ (envName L pfx sf)).
  destruct (kindOf (Type_ sf)); try done; try (by case_bool_decide).
  pose proof (Split_comma_length sv) as Hlen.
  destruct (Nat.ltb_spec (length (Strings.Split sv ",")) 1); [lia|].
  by rewrite fillSlice_id.
Qed.

(** The step of a map field of the fixed list whose value does not
    parse: the field holds the empty map and the step returns the
    error. *)
Lemma parseField_map_unparsed sf v cause :
  Tag_Get (Tag sf) "json" <> EmptyString ->
  Tag_Get (Tag sf) "read-only" <> "true" ->
  Getenv environ (envName L pfx sf) <> EmptyString ->
  underlying (Type_ sf) = stringMap ->
  Name sf ∈ mapFieldNames ->
  CanSet sf = true ->
  (json_Unmarshal L (Getenv environ (envName L pfx sf))).2 = Some cause ->
  parseField L environ pfx sf v
  = Return (VMap (Some ∅))
      (TypeCoercionError (Getenv environ (envName L pfx sf)) (Name sf) (envName L pfx sf) cause).
Proof.
  intros Hj Hro Hsv Hty Hname Hset Herr.
  rewrite parseField_switch by done. cbv zeta.
  rewrite <- kindOf_underlying, Hty. simpl.
  rewrite bool_decide_eq_true_2 by done.
  unfold Set_, assignableTo. rewrite Hset, Hty. simpl.
  destruct (json_Unmarshal L _) as [mm err]. simpl in Herr. by subst err.
Qed.

(** The pass stopped by the step of the field it reaches. *)
Lemma parseEnvs_stopped (vv : StructValue) i sf v v' err :
  vv !! i = Some (sf, v) ->
  reaches L environ pfx vv i ->
  parseField L environ pfx sf v = Return v' err ->
  (parseEnvs L environ pfx vv).2 = Returned None (Some err)
  /\ (parseEnvs L environ pfx vv).1
     = (parseFields L environ pfx (take i vv)).1 ++ (sf, v') :: drop (S i) vv.
Proof.
  intros Hi Hr Hst. unfold reaches in Hr.
  rewrite parseEnvs_eq. simpl.
  rewrite (parseFields_at L environ pfx vv i sf v Hi), Hst.
  destruct (parseFields L environ pfx (take i vv)) as [pre' e]. simpl in *.
  by subst e.
Qed.

(** C2, amended.  For a field of kind [Int], [Int32] or [Int64] that has
    a key and no read-only marker, whose variable holds a non-empty
    string, and that the pass reaches: the value is parsed with the
    duration syntax when the type is named [Duration] and as a base-10
    signed integer otherwise; a malformed value makes the pass return the
    type-coercion error carrying the value, the field name and the
    variable, with the field as it was; a well-formed one is stored,
    converted to the width of the kind, when the field can be set. *)
Theorem integer_override (vv : StructValue) (i : nat) (sf : StructField) (v : Value) :
  vv !! i = Some (sf, v) ->
  kindOf (Type_ sf) ∈ [Int; Int32; Int64] ->
  Tag_Get (Tag sf) "json" <> EmptyString ->
  Tag_Get (Tag sf) "read-only" <> "true" ->
  Getenv environ (envName L pfx sf) <> EmptyString ->
  reaches L environ pfx vv i ->
  let sv := Getenv environ (envName L pfx sf) in
  let parsed :=
    if bool_decide (typeName (Type_ sf) = "Duration") then time_ParseDuration L sv
    else Strconv.ParseInt sv in
  match parsed with
  | (_, Some cause) =>
      (parseEnvs L environ pfx vv).2
      = Returned None (Some (TypeCoercionError sv (Name sf) (envName L pfx sf) cause))
      /\ (parseEnvs L environ pfx vv).1 !! i = Some (sf, v)
  | (iv, None) =>
      CanSet sf = true ->
      (parseEnvs L environ pfx vv).1 !! i
      = Some (sf, VInt (wrapSigned (bitSize (kindOf (Type_ sf))) iv))
  end.
Proof.
  intros Hi Hk Hj Hro Hsv Hr sv parsed.
  pose proof (parseField_switch sf v Hj Hro Hsv) as Hst. cbv zeta in Hst.
  fold sv in Hst. unfold parseSigned in Hst. fold parsed in Hst.
  destruct (parseFields_reached L environ pfx vv i sf v Hi Hr) as [Hl He].
  assert (parseField L environ pfx sf v =
          match parsed with
          | (_, Some err) => Return v (TypeCoercionError sv (Name sf) (envName L pfx sf) err)
          | (iv, None) => set sf v (VInt (wrapSigned (bitSize (kindOf (Type_ sf))) iv))
          end) as Hst'.
  { rewrite Hst. set_unfold in Hk. destruct Hk as [->|[->|[->|[]]]]; done. }
  clear Hst. rewrite parseEnvs_eq. simpl.
  destruct parsed as [iv [cause|]].
  - rewrite Hst' in Hl, He. simpl in *. by rewrite He.
  - intros Hset. rewrite Hst' in Hl. unfold set in Hl. by rewrite Hset in Hl.
Qed.

(** C5, amended.  For a field of map kind that has a key and no
    read-only marker, whose variable holds a non-empty string, and that
    the pass reaches: outside the fixed list of names the pass returns
    the unsupported-field-kind error; inside it, for a settable field of
    type [map[string]string], a value that does not parse makes the pass
    return the type-coercion error carrying the value, the field name and
    the variable. *)
Theorem map_override_errors (vv : StructValue) (i : nat) (sf : StructField) (v : Value) :
  vv !! i = Some (sf, v) ->
  kindOf (Type_ sf) = Map ->
  Tag_Get (Tag sf) "json" <> EmptyString ->
  Tag_Get (Tag sf) "read-only" <> "true" ->
  Getenv environ (envName L pfx sf) <> EmptyString ->
  reaches L environ pfx vv i ->
  let sv := Getenv environ (envName L pfx sf) in
  (Name sf ∉ mapFieldNames ->
   (parseEnvs L environ pfx vv).2
   = Returned None (Some (UnsupportedFieldKind (Name sf))))
  /\ (Name sf ∈ mapFieldNames ->
      underlying (Type_ sf) = stringMap ->
      CanSet sf = true ->
      forall cause, (json_Unmarshal L sv).2 = Some cause ->
        (parseEnvs L environ pfx vv).2
        = Returned None (Some (TypeCoercionError sv (Name sf) (envName L pfx sf) cause))).
Proof.
  intros Hi Hk Hj Hro Hsv Hr sv. split.
  - intros Hname.
    apply (parseEnvs_stopped vv i sf v v _ Hi Hr).
    rewrite parseField_switch by done. cbv zeta. rewrite Hk.
    by rewrite bool_decide_eq_false_2 by done.
  - intros Hname Hty Hset cause Herr.
    apply (parseEnvs_stopped vv i sf v (VMap (Some ∅)) _ Hi Hr).
    by apply parseField_map_unparsed.
Qed.

(** C9, amended.  Splitting on the comma always yields at least one
    element, so the branch that leaves the field alone is never taken.
    For a settable field of type [[]string] that has a key and no
    read-only marker, whose variable holds a non-empty string, and that
    the pass reaches: the step goes on without an error and the field is
    replaced by exactly the substrings between the commas. *)
Theorem slice_override (vv : StructValue) (i : nat) (sf : StructField) (v : Value) :
  vv !! i = Some (sf, v) ->
  underlying (Type_ sf) = stringSlice ->
  Tag_Get (Tag sf) "json" <> EmptyString ->
  CanSet sf = true ->
  Tag_Get (Tag sf) "read-only" <> "true" ->
  Getenv environ (envName L pfx sf) <> EmptyString ->
  reaches L environ pfx vv i ->
  let ss := Strings.Split (Getenv environ (envName L pfx sf)) "," in
  (1 <= length ss)%nat
  /\ parseField L environ pfx sf v = Next (VSlice (Some ss))
  /\ (parseEnvs L environ pfx vv).1 !! i = Some (sf, VSlice (Some ss)).
Proof.
  intros Hi Hty Hj Hset Hro Hsv Hr ss.
  assert (parseField L environ pfx sf v = Next (VSlice (Some ss))) as Hst.
  { rewrite parseField_switch by done. cbv zeta.
    rewrite <- kindOf_underlying, Hty. simpl.
    unfold Set_, assignableTo. rewrite Hset, Hty. done. }
  split; [apply Split_comma_length|]. split; [done|].
  destruct (parseFields_reached L environ pfx vv i sf v Hi Hr) as [Hl _].
  rewrite parseEnvs_eq. simpl. by rewrite Hst in Hl.
Qed.

(** C10, amended.  For a settable map field of the fixed list, of type
    [map[string]string], that has a key and no read-only marker, whose
    variable holds a non-empty string that does not parse, and that the
    pass reaches: the pass returns the error, and the field holds the
    empty map written before the parse, whatever it held; the fields
    after it are as they were. *)
Theorem map_override_resets_field (vv : StructValue) (i : nat) (sf : StructField)
    (v : Value) (cause : error) :
  vv !! i = Some (sf, v) ->
  underlying (Type_ sf) = stringMap ->
  Name sf ∈ mapFieldNames ->
  Tag_Get (Tag sf) "json" <> EmptyString ->
  CanSet sf = true ->
  Tag_Get (Tag sf) "read-only" <> "true" ->
  Getenv environ (envName L pfx sf) <> EmptyString ->
  reaches L environ pfx vv i ->
  (json_Unmarshal L (Getenv environ (envName L pfx sf))).2 = Some cause ->
  (exists err, (parseEnvs L environ pfx vv).2 = Returned None (Some err))
  /\ (parseEnvs L environ pfx vv).1 !! i = Some (sf, VMap (Some ∅))
  /\ (parseEnvs L environ pfx vv).1
     = (parseFields L environ pfx (take i vv)).1 ++ (sf, VMap (Some ∅)) :: drop (S i) vv.
Proof.
  intros Hi Hty Hname Hj Hset Hro Hsv Hr Herr.
  pose proof (parseField_map_unparsed sf v cause Hj Hro Hsv Hty Hname Hset Herr) as Hst.
  destruct (parseEnvs_stopped vv i sf v _ _ Hi Hr Hst) as [He Hvv].
  split; [eauto|]. split; [|done].
  rewrite Hvv. apply list_lookup_middle.
  symmetry. by apply (parseFields_take_length L environ pfx vv i sf v).
Qed.

End Kinds.

(** ** Paths *)

Lemma IsAbs_slash s : Filepath.IsAbs ("/" +:+ s) = true.
Proof. unfold Filepath.IsAbs, Strings.HasPrefix. simpl. by destruct s. Qed.

Lemma IsAbs_inv p : Filepath.IsAbs p = true -> exists s, p = "/" +:+ s.
Proof.
  unfold Filepath.IsAbs, Strings.HasPrefix. destruct p as [|c r]; [done|].
  cbn [String.prefix]. destruct (Ascii.ascii_dec "/" c) as [<-|]; [|done].
  intros _. by exists r.
Qed.

Lemma IsAbs_nonempty p : Filepath.IsAbs p = true -> p <> EmptyString.
Proof. by intros H ->. Qed.

Lemma IsAbs_Clean p : Filepath.IsAbs p = true -> Filepath.IsAbs (Filepath.Clean p) = true.
Proof. intros H. unfold Filepath.Clean. rewrite H. apply IsAbs_slash. Qed.

(** [filepath.Abs] returns a rooted path. *)
Lemma Abs_IsAbs os p q : Abs os p = (q, None) -> Filepath.IsAbs q = true.
Proof.
  unfold Abs. destruct (Filepath.IsAbs p) eqn:Hp.
  - intros [= <-]. by apply IsAbs_Clean.
  - unfold Getwd. destruct (cwd os) as [elems|]; [|done].
    intros [= <-]. cbn [Filepath.Join].
    apply IsAbs_Clean.
    change (("/" +:+ Strings.Join elems "/") +:+ "/" +:+ p)
      with ("/" +:+ (Strings.Join elems "/" +:+ "/" +:+ p)).
    apply IsAbs_slash.
Qed.

Lemma Abs_of_absolute os p : Filepath.IsAbs p = true -> Abs os p = (Filepath.Clean p, None).
Proof. intros H. unfold Abs. by rewrite H. Qed.

Lemma HasPrefix_slash c r : Strings.HasPrefix (String c r) "/" = bool_decide (c = "/"%char).
Proof.
  unfold Strings.HasPrefix. cbn [String.prefix].
  destruct (Ascii.ascii_dec "/" c) as [<-|Hne].
  - rewrite bool_decide_eq_true_2 by done. by destruct r.
  - by rewrite bool_decide_eq_false_2 by congruence.
Qed.

Lemma split_slash_cons c r :
  Strings.split_from 0 "/" (String c r) =
  if bool_decide (c = "/"%char) then EmptyString :: Strings.split_from 0 "/" r
  else match Strings.split_from 0 "/" r with
       | h :: t => String c h :: t
       | [] => [String c EmptyString]
       end.
Proof. cbn [Strings.split_from]. by rewrite HasPrefix_slash. Qed.

Lemma split_slash_noSlash s : Forall (fun e => noSlash e = true) (Strings.split_from 0 "/" s).
Proof.
  induction s as [|c r IH]; [by repeat constructor|].
  rewrite split_slash_cons. case_bool_decide as Hc.
  - by constructor.
  - destruct (Strings.split_from 0 "/" r) as [|h t].
    + repeat constructor. simpl. by rewrite bool_decide_eq_false_2.
    + inversion IH as [|? ? Hh Ht]; subst. constructor; [|done].
      simpl. by rewrite bool_decide_eq_false_2.
Qed.

Lemma split_slash_app a b :
  noSlash a = true ->
  Strings.split_from 0 "/" (a +:+ "/" +:+ b) = a :: Strings.split_from 0 "/" b.
Proof.
  induction a as [|c r IH]; intros Ha.
  - change (EmptyString +:+ "/" +:+ b) with (String "/" b).
    by rewrite split_slash_cons, bool_decide_eq_true_2.
  - simpl in Ha. apply andb_true_iff in Ha as [Hc Hr].
    apply negb_true_iff, bool_decide_eq_false_1 in Hc.
    change (String c r +:+ "/" +:+ b) with (String c (r +:+ "/" +:+ b)).
    rewrite split_slash_cons, bool_decide_eq_false_2 by done.
    by rewrite (IH Hr).
Qed.

Lemma split_slash_one a : noSlash a = true -> Strings.split_from 0 "/" a = [a].
Proof.
  induction a as [|c r IH]; intros Ha; [done|].
  simpl in Ha. apply andb_true_iff in Ha as [Hc Hr].
  apply negb_true_iff, bool_decide_eq_false_1 in Hc.
  rewrite split_slash_cons, bool_decide_eq_false_2 by done.
  by rewrite (IH Hr).
Qed.

(** Splitting what was joined gives the elements back. *)
Lemma split_slash_Join es :
  Forall (fun e => noSlash e = true) es -> es <> [] ->
  Strings.split_from 0 "/" (Strings.Join es "/") = es.
Proof.
  induction es as [|e es IH]; intros Hes Hne; [done|].
  inversion Hes as [|? ? He Hes']; subst.
  destruct es as [|e' es].
  - by apply split_slash_one.
  - change (Strings.Join (e :: e' :: es) "/")
      with (e +:+ "/" +:+ Strings.Join (e' :: es) "/").
    rewrite split_slash_app by done. by rewrite IH.
Qed.

Lemma cleanElems_rooted_plain stack elems :
  Forall plain stack ->
  Forall (fun e => noSlash e = true) elems ->
  Forall plain (Filepath.cleanElems true stack elems).
Proof.
  revert stack. induction elems as [|e rest IH]; intros stack Hst Hel; simpl.
  - by apply Forall_rev.
  - inversion Hel as [|? ? He Hrest]; subst.
    case_bool_decide as H1; simpl; [by apply IH|].
    case_bool_decide as H2; [by apply IH|].
    case_bool_decide as H3.
    + destruct stack as [|top below]; [by apply IH|].
      inversion Hst as [|? ? Htop Hbelow]; subst.
      case_bool_decide as H4; [|by apply IH].
      by destruct Htop as (_ & _ & _ & Htop).
    + apply IH; [|done]. by constructor.
Qed.

Lemma cleanElems_plain stack es :
  Forall plain es -> Filepath.cleanElems true stack es = rev stack ++ es.
Proof.
  revert stack. induction es as [|e es IH]; intros stack Hes; simpl.
  - by rewrite app_nil_r.
  - inversion Hes as [|? ? (_ & H1 & H2 & H3) Hes']; subst.
    rewrite !bool_decide_eq_false_2 by done. simpl.
    rewrite IH by done. simpl. by rewrite <- app_assoc.
Qed.

(** [filepath.Clean] changes nothing in a rooted path it has cleaned. *)
Lemma Clean_Clean p :
  Filepath.IsAbs p = true -> Filepath.Clean (Filepath.Clean p) = Filepath.Clean p.
Proof.
  intros Hp. unfold Filepath.Clean at 2 3. rewrite Hp.
  set (es := Filepath.cleanElems true [] (Strings.Split p "/")).
  assert (Forall plain es) as Hes.
  { apply cleanElems_rooted_plain; [done|]. apply split_slash_noSlash. }
  unfold Filepath.Clean. rewrite IsAbs_slash. f_equal. f_equal.
  change (Strings.Split ("/" +:+ Strings.Join es "/") "/")
    with (Strings.split_from 0 "/" (String "/" (Strings.Join es "/"))).
  rewrite split_slash_cons, bool_decide_eq_true_2 by done.
  simpl. destruct es as [|e es']; [done|].
  rewrite split_slash_Join; [|by eapply Forall_impl; [exact Hes|intros ? []]|done].
  by rewrite cleanElems_plain.
Qed.

(** A path resolved by [filepath.Abs] is clean. *)
Lemma Abs_Clean os p q : Abs os p = (q, None) -> Filepath.Clean q = q.
Proof.
  unfold Abs. destruct (Filepath.IsAbs p) eqn:Hp.
  - intros [= <-]. by apply Clean_Clean.
  - unfold Getwd. destruct (cwd os) as [elems|]; [|done].
    intros [= <-]. cbn [Filepath.Join].
    apply Clean_Clean.
    change (("/" +:+ Strings.Join elems "/") +:+ "/" +:+ p)
      with ("/" +:+ (Strings.Join elems "/" +:+ "/" +:+ p)).
    apply IsAbs_slash.
Qed.

(** ** Files *)

(** A write that returns no error has put the data at the location of
    the name. *)
Lemma WriteFile_put os name data os' :
  WriteFile os name data = (os', None) ->
  name <> EmptyString
  /\ exists k, namei os name = Some k /\ (k ∉ unwritable os) /\ os' = put os k data.
Proof.
  unfold WriteFile. case_bool_decide; [done|].
  destruct (namei os name) as [k|]; [|done].
  case_bool_decide; [done|]. intros Hw. split; [done|]. exists k.
  split; [done|]. split; [done|].
  destruct (short os !! k) as [n|]; [|by injection Hw].
  destruct (n <? String.length data)%nat; [done|by injection Hw].
Qed.

Lemma Abs_WriteFile os name data os' p :
  WriteFile os name data = (os', None) -> Abs os' p = Abs os p.
Proof. intros Hw. by destruct (WriteFile_put os name data os' Hw) as (_ & k & _ & _ & ->). Qed.

(** A file that was written reads back. *)
Lemma ReadFile_WriteFile os name data os' :
  WriteFile os name data = (os', None) -> ReadFile os' name = (data, None).
Proof.
  intros Hw. destruct (WriteFile_put os name data os' Hw) as (Hname & k & Hk & _ & ->).
  unfold ReadFile, put. cbn [namei files]. rewrite bool_decide_eq_false_2, Hk by done.
  by rewrite lookup_insert_eq.
Qed.

(** ** [unsafeSync], [Sync] and [Load] *)

Section PersistenceFacts.
Context (Y : YAML).

Lemma set_ConfigPath_id cfg : set_ConfigPath (ConfigPath cfg) cfg = cfg.
Proof. by destruct cfg. Qed.

Lemma set_KubeconfigPath_id cfg : set_KubeconfigPath (KubeconfigPath cfg) cfg = cfg.
Proof. by destruct cfg. Qed.

(** The end of [unsafeSync], from [yaml.Marshal] on. *)
Lemma unsafeSync_tail os cfg os' cfg' :
  (let '(d, err) := yaml_Marshal Y cfg in
   match err with
   | Some err => (os, cfg, Some (SerializationError err))
   | None =>
       let '(os, err) := WriteFile os (ConfigPath cfg) d in
       match err with
       | Some err => (os, cfg, Some (WriteError (ConfigPath cfg) err))
       | None => (os, cfg, None)
       end
   end) = (os', cfg', None) ->
  cfg' = cfg
  /\ exists d, yaml_Marshal Y cfg = (d, None) /\ WriteFile os (ConfigPath cfg) d = (os', None).
Proof.
  destruct (yaml_Marshal Y cfg) as [d [err|]]; [done|].
  destruct (WriteFile os (ConfigPath cfg) d) as [os2 [err|]] eqn:Hw; [done|].
  intros [= <- <-]. split; [done|]. by exists d.
Qed.

(** A call of [unsafeSync] that returns no error: the path was not
    empty, the [ConfigPath] of the tree it leaves is the one it had if
    absolute and its resolution otherwise, both paths of that tree are
    resolved, nothing else of the tree changed, and the tree was encoded
    and written under its path. *)
Lemma unsafeSync_success os cfg os' cfg' :
  unsafeSync Y os cfg = (os', cfg', None) ->
  ConfigPath cfg <> EmptyString
  /\ (Filepath.IsAbs (ConfigPath cfg) = true /\ ConfigPath cfg' = ConfigPath cfg
      \/ Filepath.IsAbs (ConfigPath cfg) = false
         /\ Abs os (ConfigPath cfg) = (ConfigPath cfg', None))
  /\ Filepath.IsAbs (ConfigPath cfg') = true
  /\ (KubeconfigPath cfg' = EmptyString /\ KubeconfigPath cfg = EmptyString
      \/ Filepath.IsAbs (KubeconfigPath cfg') = true)
  /\ (exists cp kp, cfg' = set_KubeconfigPath kp (set_ConfigPath cp cfg))
  /\ exists d, yaml_Marshal Y cfg' = (d, None)
               /\ WriteFile os (ConfigPath cfg') d = (os', None).
Proof.
  unfold unsafeSync. case_bool_decide as Hcp; [done|].
  rewrite (bool_decide_eq_true_2 (ConfigPath cfg <> EmptyString)) by done.
  intros H. split; [done|].
  assert (exists cfg1,
    (exists cp, cfg1 = set_ConfigPath cp cfg)
    /\ (Filepath.IsAbs (ConfigPath cfg) = true /\ ConfigPath cfg1 = ConfigPath cfg
        \/ Filepath.IsAbs (ConfigPath cfg) = false
           /\ Abs os (ConfigPath cfg) = (ConfigPath cfg1, None))
    /\ Filepath.IsAbs (ConfigPath cfg1) = true
    /\ KubeconfigPath cfg1 = KubeconfigPath cfg
    /\ match (if bool_decide (KubeconfigPath cfg1 <> EmptyString)
                 && negb (Filepath.IsAbs (KubeconfigPath cfg1))
              then let '(p, err) := Abs os (KubeconfigPath cfg1) in
                   match err with
                   | Some err => (cfg1, Some (PathResolutionError (KubeconfigPath cfg1) err))
                   | None => (set_KubeconfigPath p cfg1, None)
                   end
              else (cfg1, None)) with
       | (cfg, Some err) => (os, cfg, Some err)
       | (cfg, None) =>
           let '(d, err) := yaml_Marshal Y cfg in
           match err with
           | Some err => (os, cfg, Some (SerializationError err))
           | None =>
               let '(os, err) := WriteFile os (ConfigPath cfg) d in
               match err with
               | Some err => (os, cfg, Some (WriteError (ConfigPath cfg) err))
               | None => (os, cfg, None)
               end
           end
       end = (os', cfg', None)) as (cfg1 & [cp Hcfg1] & Hfrom & Habs1 & Hk1 & H1).
  { destruct (Filepath.IsAbs (ConfigPath cfg)) eqn:Habs; simpl in H.
    - exists cfg. split; [exists (ConfigPath cfg); by rewrite set_ConfigPath_id|].
      split; [by left|]. done.
    - destruct (Abs os (ConfigPath cfg)) as [p [err|]] eqn:HA; [done|].
      exists (set_ConfigPath p cfg). split; [by exists p|].
      split; [by right|].
      split; [|done]. simpl. by apply (Abs_IsAbs os (ConfigPath cfg)). }
  clear H.
  destruct (bool_decide (KubeconfigPath cfg1 <> EmptyString)) eqn:Hkne; simpl in H1.
  - apply bool_decide_eq_true_1 in Hkne.
    destruct (Filepath.IsAbs (KubeconfigPath cfg1)) eqn:Hkabs; simpl in H1.
    + apply unsafeSync_tail in H1 as [-> Hd].
      split; [done|]. split; [done|]. split; [by right|]. split; [|done].
      exists cp, (KubeconfigPath cfg1). by rewrite <- Hcfg1, set_KubeconfigPath_id.
    + destruct (Abs os (KubeconfigPath cfg1)) as [p [err|]] eqn:HA; [done|].
      apply unsafeSync_tail in H1 as [-> Hd].
      split; [done|]. split; [done|]. split; [|split; [|done]].
      * right. simpl. by apply (Abs_IsAbs os (KubeconfigPath cfg1)).
      * exists cp, p. by rewrite <- Hcfg1.
  - apply bool_decide_eq_false_1 in Hkne. apply dec_stable in Hkne.
    apply unsafeSync_tail in H1 as [-> Hd].
    split; [done|]. split; [done|]. split; [left; split; congruence|]. split; [|done].
    exists cp, (KubeconfigPath cfg1). by rewrite <- Hcfg1, set_KubeconfigPath_id.
Qed.

(** Whatever [unsafeSync] returns, a tree whose paths are resolved is
    left as it was. *)
Lemma unsafeSync_resolved os cfg :
  Filepath.IsAbs (ConfigPath cfg) = true ->
  KubeconfigPath cfg = EmptyString \/ Filepath.IsAbs (KubeconfigPath cfg) = true ->
  (unsafeSync Y os cfg).1.2 = cfg.
Proof.
  intros Habs Hk. unfold unsafeSync.
  rewrite bool_decide_eq_false_2 by by apply IsAbs_nonempty.
  rewrite Habs, andb_false_r.
  assert (bool_decide (KubeconfigPath cfg <> EmptyString)
          && negb (Filepath.IsAbs (KubeconfigPath cfg)) = false) as ->.
  { destruct Hk as [->| ->]; [done|]. apply andb_false_r. }
  destruct (yaml_Marshal Y cfg) as [d [err|]]; [done|].
  by destruct (WriteFile os (ConfigPath cfg) d) as [os2 [err|]].
Qed.

(** Whatever [unsafeSync] returns, a resolved [ConfigPath] stays. *)
Lemma unsafeSync_ConfigPath os cfg :
  Filepath.IsAbs (ConfigPath cfg) = true ->
  ConfigPath (unsafeSync Y os cfg).1.2 = ConfigPath cfg.
Proof.
  intros Habs. unfold unsafeSync.
  rewrite bool_decide_eq_false_2 by by apply IsAbs_nonempty.
  rewrite Habs, andb_false_r.
  destruct (bool_decide (KubeconfigPath cfg <> EmptyString)
            && negb (Filepath.IsAbs (KubeconfigPath cfg))).
  - destruct (Abs os (KubeconfigPath cfg)) as [p [err|]]; [done|].
    destruct (yaml_Marshal Y _) as [d [err|]]; [done|].
    by destruct (WriteFile os _ d) as [os2 [err|]].
  - destruct (yaml_Marshal Y cfg) as [d [err|]]; [done|].
    by destruct (WriteFile os (ConfigPath cfg) d) as [os2 [err|]].
Qed.

End PersistenceFacts.

Section PersistenceClaims.
Context (Y : YAML).

(** C6.  With a decoder that is strict under [DisallowUnknownFields],
    loading a file whose document holds a key the schema does not know,
    at the top or nested, returns an error and no tree, and leaves the
    system as it was: nothing was written back. *)
Theorem Load_rejects_unknown_keys (os : OS) (p d : string) :
  strictDecoder Y ->
  ReadFile os p = (d, None) ->
  unknownKey Y d ->
  exists err, Load Y os p = (os, (None, Some err)).
Proof.
  intros Hstrict Hread Hkey. unfold Load. rewrite Hread.
  pose proof (Hstrict d newConfig [DisallowUnknownFields]) as H.
  destruct (yaml_Unmarshal Y d newConfig [DisallowUnknownFields]) as [cfg [err|]].
  - by exists err.
  - exfalso. apply H; [by left|done|done].
Qed.

Lemma Sync_success os cfg os' cfg' :
  Sync Y os cfg = (os', cfg', Returns None) -> unsafeSync Y os cfg = (os', cfg', None).
Proof.
  unfold Sync. destruct (mu cfg) as [[]|]; [|done].
  destruct (unsafeSync Y os cfg) as [[os2 cfg2] err]. by intros [= <- <- <-].
Qed.

(** C7.  A tree returned by [Load] holds an absolute [ConfigPath].  After
    a [Sync] that returned no error, [ConfigPath] is absolute, a
    [KubeconfigPath] that was not empty is absolute, and the file exists
    under [ConfigPath].  With an empty [ConfigPath], [unsafeSync] returns
    the empty-path error and changes nothing; so does [Sync] on a tree
    that has its mutex, and [Sync] never succeeds. *)
Theorem ConfigPath_absolute (os : OS) :
  (forall p os' cfg' err,
     Load Y os p = (os', (Some cfg', err)) -> Filepath.IsAbs (ConfigPath cfg') = true)
  /\ (forall cfg os' cfg',
        Sync Y os cfg = (os', cfg', Returns None) ->
        Filepath.IsAbs (ConfigPath cfg') = true
        /\ (KubeconfigPath cfg <> EmptyString -> Filepath.IsAbs (KubeconfigPath cfg') = true)
        /\ exists d, ReadFile os' (ConfigPath cfg') = (d, None))
  /\ (forall cfg,
        ConfigPath cfg = EmptyString ->
        unsafeSync Y os cfg = (os, cfg, Some EmptyConfigPath)
        /\ (mu cfg <> None -> Sync Y os cfg = (os, cfg, Returns (Some EmptyConfigPath)))
        /\ forall os' cfg', Sync Y os cfg <> (os', cfg', Returns None)).
Proof.
  split; [|split].
  - intros p os' cfg' err. unfold Load.
    destruct (ReadFile os p) as [d [e|]]; [done|].
    destruct (yaml_Unmarshal Y d newConfig [DisallowUnknownFields]) as [cfg [e|]]; [done|].
    destruct (Abs os p) as [ap [e|]] eqn:HA; [done|].
    set (cfg1 := set_ConfigPath ap _).
    pose proof (unsafeSync_ConfigPath Y os cfg1) as Hcp.
    destruct (unsafeSync Y os cfg1) as [[os2 cfg2] serr]. simpl in Hcp.
    intros [= _ <- _]. rewrite Hcp; by apply (Abs_IsAbs os p).
  - intros cfg os' cfg' H. apply Sync_success in H.
    apply unsafeSync_success in H as (_ & _ & Habs & Hk & _ & d & _ & Hw).
    split; [done|]. split.
    + intros Hne. destruct Hk as [[_ Hk]|Hk]; done.
    + exists d. by apply (ReadFile_WriteFile os).
  - intros cfg Hcp.
    assert (unsafeSync Y os cfg = (os, cfg, Some EmptyConfigPath)) as Hu.
    { unfold unsafeSync. by rewrite bool_decide_eq_true_2. }
    split; [done|]. split.
    + intros Hmu. unfold Sync. destruct (mu cfg) as [[]|]; [|done]. by rewrite Hu.
    + intros os' cfg' H. apply Sync_success in H.
      by apply unsafeSync_success in H as [H _].
Qed.

(** C8, amended.  After a [Sync] that returned no error, when the
    codec gives back the tree as saved, loading the file under the
    [ConfigPath] of the tree returns a tree equal to the saved one in
    every tagged field but [ConfigPath], which holds the saved path in
    its cleaned form.  The two trees are equal in every tagged field
    when the path of the tree was relative before the call, or was
    clean. *)
Theorem save_then_load (os : OS) (cfg : Config) (os' : OS) (cfg' : Config) :
  Sync Y os cfg = (os', cfg', Returns None) ->
  roundTrips Y cfg' ->
  exists os'' loaded,
    Load Y os' (ConfigPath cfg') = (os'', (Some loaded, None))
    /\ taggedEq (set_ConfigPath (Filepath.Clean (ConfigPath cfg')) cfg') loaded
    /\ (Filepath.IsAbs (ConfigPath cfg) = false
        \/ Filepath.Clean (ConfigPath cfg) = ConfigPath cfg ->
        taggedEq cfg' loaded).
Proof.
  intros H Hrt. apply Sync_success in H.
  apply unsafeSync_success in H as (_ & Hfrom & Habs & Hk & _ & d & Hm & Hw).
  destruct (Hrt d Hm) as (cfg1 & Hu & [Hroot Hadd]).
  unfold Load. rewrite (ReadFile_WriteFile os _ _ _ Hw), Hu.
  rewrite (Abs_of_absolute os' _ Habs).
  set (cfg2 := set_mu (Some Unlocked) cfg1).
  set (cfg3 := if bool_decide (ConfigPath cfg2 <> ConfigPath cfg')
               then set_ConfigPath (ConfigPath cfg') cfg2 else cfg2).
  set (cfg4 := set_ConfigPath (Filepath.Clean (ConfigPath cfg')) cfg3).
  assert (rootFields cfg4 = rootFields (set_ConfigPath (Filepath.Clean (ConfigPath cfg')) cfg')
          /\ addOns cfg4 = addOns cfg1) as [Hroot4 Hadd4].
  { unfold cfg4, cfg3, cfg2. injection Hroot as ?????????????.
    case_bool_decide; unfold rootFields, addOns in *; simpl; split; congruence. }
  pose proof (unsafeSync_resolved Y os' cfg4) as Hres.
  destruct (unsafeSync Y os' cfg4) as [[os2 cfg5] serr]. simpl in Hres.
  rewrite Hres.
  2:{ by apply IsAbs_Clean. }
  2:{ assert (KubeconfigPath cfg3 = KubeconfigPath cfg') as ->.
      { change (KubeconfigPath cfg3) with (KubeconfigPath cfg4).
        unfold rootFields in Hroot4. injection Hroot4. intros. done. }
      destruct Hk as [[Hk _]|Hk]; [by left|by right]. }
  eexists _, cfg4. split; [done|].
  assert (taggedEq (set_ConfigPath (Filepath.Clean (ConfigPath cfg')) cfg') cfg4) as Heq.
  { split; [done|]. by rewrite Hadd4. }
  split; [done|].
  intros Hclean.
  assert (Filepath.Clean (ConfigPath cfg') = ConfigPath cfg') as Hc.
  { destruct Hfrom as [[Ha Hsame]|[Hrel HA]].
    - destruct Hclean as [Hclean|Hclean]; congruence.
    - by apply (Abs_Clean os (ConfigPath cfg)). }
  rewrite Hc, set_ConfigPath_id in Heq. done.
Qed.

End PersistenceClaims.

(** ** The sample codec does what is asked of a codec *)

Lemma bits_pos_pos_bits p : Sample.bits_pos (Sample.pos_bits p) = Some p.
Proof. induction p as [p IH|p IH|]; simpl; [by rewrite IH..|done]. Qed.

Lemma parse_print doc : Sample.parse (Sample.print doc) = Some doc.
Proof.
  unfold Sample.parse, Sample.print. rewrite bits_pos_pos_bits. simpl.
  apply decode_encode.
Qed.

Lemma parse_print_Z z : Sample.parse_Z (Sample.print_Z z) = Some z.
Proof.
  unfold Sample.parse_Z, Sample.print_Z. rewrite bits_pos_pos_bits. simpl.
  apply decode_encode.
Qed.

Lemma parse_print_bool b : Sample.parse_bool (Sample.print_bool b) = Some b.
Proof. by destruct b. Qed.

Lemma parse_print_slice ss : Sample.parse_slice (Sample.print_slice ss) = Some ss.
Proof. destruct ss as [[|s l]|]; done. Qed.

Lemma Sample_strict : strictDecoder Sample.yaml.
Proof.
  intros d cfg opts Hopt (doc & Hdoc & Hkeys). simpl.
  unfold Sample.Unmarshal_yaml. rewrite Hdoc.
  assert (Sample.strict opts = true) as ->.
  { destruct opts as [|[] opts]; [|done]. by apply elem_of_nil in Hopt. }
  by rewrite bool_decide_eq_false_2.
Qed.

Lemma Sample_upperKeepsDash : upperKeepsDash Sample.lib.
Proof. intros s. apply upperASCII_Replace_dash. Qed.

Lemma Sample_roundTrips cfg : roundTrips Sample.yaml cfg.
Proof.
  intros d. simpl. unfold Sample.Marshal.
  destruct (forallb _ _) eqn:Hadd; [|done]. intros [= <-].
  unfold Sample.Unmarshal_yaml. rewrite parse_print. simpl.
  rewrite !parse_print_bool, !parse_print_Z, parse_print_slice. simpl.
  eexists. split; [done|]. split; [done|].
  unfold addOns in *. simpl in *.
  repeat match goal with
         | H : context [Sample.is_Some_b ?a] |- _ => destruct a; simpl in H; try done
         end.
Qed.

(** * The claims on concrete inputs *)

(** ** Scenarios of the specification *)

(** Scenario A: [K8S_TESTER_CLUSTER_NAME=mycluster] makes the cluster
    name exactly [mycluster]. *)
Example scenario_A :
  (parseEnvs Sample.lib Sample.envClusterName ENV_PREFIX (reflectConfig Sample.cfg0)).1 !! 3%nat
  = Some (field "ClusterName" (TPlain String_) [("json", "cluster_name")],
          VString "mycluster").
Proof. by vm_compute. Qed.

(** The keys of two tags of the sources. *)
Example envKey_examples :
  envKey Sample.lib "log-outputs" = "LOG_OUTPUTS"
  /\ envKey Sample.lib "RouteTableId,omitempty" = "ROUTETABLEID".
Proof. by vm_compute. Qed.

(** A field that is not exported cannot be set: the setter panics.  A
    number beyond the width of the kind is cut to it. *)
Example setter_examples :
  parseEnvs Sample.lib (Sample.envTags "a,b") ENV_PREFIX
    [({| Name := "tags"; PkgPath := pkgPath; Type_ := stringSlice;
         Tag := [("json", "tags")] |}, VSlice None)]
  = ([({| Name := "tags"; PkgPath := pkgPath; Type_ := stringSlice;
          Tag := [("json", "tags")] |}, VSlice None)], Panicked)
  /\ (parseEnvs Sample.lib (Sample.envTags "4294967297") ENV_PREFIX
        [(field "Tags" (TPlain Int32) [("json", "tags")], VInt 0)]).1
     = [(field "Tags" (TPlain Int32) [("json", "tags")], VInt 1)].
Proof. by vm_compute. Qed.

(** ** C1 *)

(** C1, as worded, fails.  With [K8S_TESTER_PROMPT=maybe] and
    [K8S_TESTER_TOTAL_NODES=3] the pass over [Config] stops at [Prompt],
    declared before the read-only [TotalNodes]: the error it returns
    names [K8S_TESTER_PROMPT], not the variable of the read-only
    field. *)
Lemma read_only_error_names_earlier_field :
  (parseEnvs Sample.lib Sample.envPromptAndReadOnly ENV_PREFIX (reflectConfig Sample.cfg0)).2
  = Returned None
      (Some (TypeCoercionError "maybe" "Prompt" "K8S_TESTER_PROMPT"
               (NumError "ParseBool" "maybe" ErrSyntax)))
  /\ ~ readOnlyClaim Sample.lib Sample.envPromptAndReadOnly ENV_PREFIX
         (reflectConfig Sample.cfg0) 14.
Proof.
  split; [by vm_compute|]. intros H.
  destruct (H (readOnly "TotalNodes" (TPlain Int) "total_nodes") (VInt 0))
    as [(err & He & Hn) _]; [reflexivity|by vm_compute|reflexivity|by vm_compute|].
  vm_compute in He. injection He as <-. vm_compute in Hn. done.
Qed.

Lemma read_only_override_rejected_witness :
  (parseEnvs Sample.lib Sample.envReadOnly ENV_PREFIX (reflectConfig Sample.cfg0)).2
  = Returned None (Some (ReadOnlyViolation "K8S_TESTER_TOTAL_NODES" "3"))
  /\ (parseEnvs Sample.lib Sample.envReadOnly ENV_PREFIX (reflectConfig Sample.cfg0)).1 !! 14%nat
     = Some (readOnly "TotalNodes" (TPlain Int) "total_nodes", VInt 0).
Proof.
  destruct (read_only_override_rejected Sample.lib Sample.envReadOnly ENV_PREFIX
              (reflectConfig Sample.cfg0) 14
              (readOnly "TotalNodes" (TPlain Int) "total_nodes") (VInt 0))
    as (_ & Hfield & Herr); [reflexivity|by vm_compute|reflexivity|by vm_compute|].
  split; [|exact Hfield]. apply Herr. by vm_compute.
Defined.

(** ** C2 *)

(** C2, as worded, fails.  [TotalNodes] is of kind [Int] and read-only:
    with [K8S_TESTER_TOTAL_NODES=abc] the value is not parsed and the
    error is the read-only one.  A field of kind [Int8] falls through the
    [switch]: with a malformed value the pass succeeds and leaves the
    field alone. *)
Lemma integer_claim_fails :
  ((parseEnvs Sample.lib Sample.envTotalNodesWord ENV_PREFIX (reflectConfig Sample.cfg0)).2
   = Returned None (Some (ReadOnlyViolation "K8S_TESTER_TOTAL_NODES" "abc"))
   /\ ~ integerClaim Sample.lib Sample.envTotalNodesWord ENV_PREFIX
          (reflectConfig Sample.cfg0) 14)
  /\ (parseEnvs Sample.lib Sample.envRetries ENV_PREFIX Sample.retries
      = (Sample.retries, Returned (Some Sample.retries) None)
      /\ ~ integerClaim Sample.lib Sample.envRetries ENV_PREFIX Sample.retries 0).
Proof.
  split; (split; [by vm_compute|]); intros H.
  - destruct (H (readOnly "TotalNodes" (TPlain Int) "total_nodes") (VInt 0))
      as (err & He & Hc & _);
      [reflexivity|by left|by vm_compute|reflexivity|by vm_compute|by vm_compute|].
    vm_compute in He. injection He as <-. done.
  - destruct (H (field "Retries" (TPlain Int8) [("json", "retries")]) (VInt 3))
      as (err & He & _);
      [reflexivity|by right; left|by vm_compute|reflexivity|by vm_compute|by vm_compute|].
    vm_compute in He. done.
Qed.

(** Scenario B: [K8S_TESTER_JOBS_PI_COMPLETES=abc] makes the pass over
    the [jobs_pi] add-on fail with the type-coercion error that carries
    the variable. *)
Lemma integer_override_witness :
  (parseEnvs Sample.lib Sample.envCompletes (ENV_PREFIX +:+ Sample.jobs_pi_Env +:+ "_")
     (Sample.jobs_pi_Config 10)).2
  = Returned None
      (Some (TypeCoercionError "abc" "Completes" "K8S_TESTER_JOBS_PI_COMPLETES"
               (NumError "ParseInt" "abc" ErrSyntax)))
  /\ (parseEnvs Sample.lib Sample.envCompletes (ENV_PREFIX +:+ Sample.jobs_pi_Env +:+ "_")
        (Sample.jobs_pi_Config 10)).1 !! 0%nat
     = Some (field "Completes" (TPlain Int) [("json", "completes")], VInt 10).
Proof.
  exact (integer_override Sample.lib Sample.envCompletes
           (ENV_PREFIX +:+ Sample.jobs_pi_Env +:+ "_") (Sample.jobs_pi_Config 10) 0
           (field "Completes" (TPlain Int) [("json", "completes")]) (VInt 10)
           eq_refl ltac:(by left) ltac:(by vm_compute) ltac:(by vm_compute)
           ltac:(by vm_compute) eq_refl).
Defined.

(** A duration and a number that does not fit the kind. *)
Example integer_examples :
  parseEnvs Sample.lib {[ "K8S_TESTER_TIMEOUT" := "5m" ]} ENV_PREFIX Sample.timeout
  = ([(field "Timeout" (TNamed "Duration" (TPlain Int64)) [("json", "timeout")],
       VInt 300000000000)],
     Returned (Some [(field "Timeout" (TNamed "Duration" (TPlain Int64)) [("json", "timeout")],
                      VInt 300000000000)]) None)
  /\ (parseEnvs Sample.lib {[ "K8S_TESTER_TIMEOUT" := "300" ]} ENV_PREFIX Sample.timeout).2
     = Returned None
         (Some (TypeCoercionError "300" "Timeout" "K8S_TESTER_TIMEOUT"
                  (LibError "time: invalid duration"))).
Proof. by vm_compute. Qed.

(** ** C3 and C4 *)

Lemma unset_variable_keeps_field_witness :
  parseField Sample.lib Sample.envReadOnly ENV_PREFIX
    (field "ClusterName" (TPlain String_) [("json", "cluster_name")]) (VString "k8s-test")
  = Next (VString "k8s-test")
  /\ exists vv' e,
       parseEnvs Sample.lib Sample.envReadOnly ENV_PREFIX (reflectConfig Sample.cfg0)
       = (vv', outcome vv' e)
       /\ vv' !! 3%nat
          = Some (field "ClusterName" (TPlain String_) [("json", "cluster_name")],
                  VString "k8s-test")
       /\ parseEnvs Sample.lib Sample.envReadOnly ENV_PREFIX
            (delete 3%nat (reflectConfig Sample.cfg0))
          = (delete 3%nat vv', outcome (delete 3%nat vv') e).
Proof.
  apply (unset_variable_keeps_field Sample.lib ENV_PREFIX Sample.envReadOnly
           (reflectConfig Sample.cfg0) 3); [reflexivity|].
  left. by vm_compute.
Defined.

Lemma env_name_of_field_witness :
  parseField Sample.lib Sample.envClusterName ENV_PREFIX
    (field "ClusterName" (TPlain String_) [("json", "cluster_name")]) (VString "k8s-test")
  = Next (VString "mycluster")
  /\ parseField Sample.lib Sample.envClusterName ENV_PREFIX
       (field "resolved" (TPlain String_) []) (VString "k8s-test")
     = Next (VString "k8s-test")
  /\ envName Sample.lib ENV_PREFIX
       (field "KubectlDownloadURL" (TPlain String_)
          [("json", "kubectl-download-url,omitempty")])
     = "K8S_TESTER_KUBECTL_DOWNLOAD_URL"
  /\ envName Sample.lib ENV_PREFIX
       (field "KubectlDownloadURL" (TPlain String_)
          [("json", "kubectl-download-url,omitempty")])
     = ENV_PREFIX +:+ specKey Sample.lib "kubectl-download-url,omitempty"
  /\ envName Sample.lib ENV_PREFIX (field "LogLevel" (TPlain String_) [("json", "log-level")])
     = ENV_PREFIX +:+ specKey Sample.lib "log-level".
Proof.
  destruct (env_name_of_field Sample.lib ENV_PREFIX) as (Hnone & _ & Hset & Hkey & Hspec).
  split; [|split; [|split; [|split]]]; [| | | |apply Hspec; left; apply Sample_upperKeepsDash].
  - apply (Hset Sample.envClusterName
             (field "ClusterName" (TPlain String_) [("json", "cluster_name")])
             (VString "k8s-test")); [by vm_compute|reflexivity|reflexivity|by vm_compute|by vm_compute].
  - apply Hnone. reflexivity.
  - rewrite Hkey. clear. by vm_compute.
  - apply Hspec. right. reflexivity.
Defined.

(** ** C5 *)

(** C5, as worded, fails.  [Labels] is a map outside the fixed list:
    with a malformed [Enable] declared before it, the error of the pass
    is the coercion error of [Enable], not the unsupported-field error.
    [Tags] is in the list: with the read-only marker on it, a value that
    does not parse gives the read-only error, not a coercion error. *)
Lemma map_claim_fails :
  ((parseEnvs Sample.lib Sample.envEnableAndLabels Sample.addOnPrefix Sample.addOn).2
   = Returned None
       (Some (TypeCoercionError "maybe" "Enable" "K8S_TESTER_ADD_ON_ENABLE"
                (NumError "ParseBool" "maybe" ErrSyntax)))
   /\ ~ mapClaim Sample.lib Sample.envEnableAndLabels Sample.addOnPrefix Sample.addOn 3)
  /\ ((parseEnvs Sample.lib (Sample.envTags "{") ENV_PREFIX
         (Sample.status stringMap (VMap None))).2
      = Returned None (Some (ReadOnlyViolation "K8S_TESTER_TAGS" "{"))
      /\ ~ mapClaim Sample.lib (Sample.envTags "{") ENV_PREFIX
             (Sample.status stringMap (VMap None)) 0).
Proof.
  split; (split; [by vm_compute|]); intros H.
  - destruct (H (field "Labels" stringMap [("json", "labels")]) (VMap None))
      as [He _]; [reflexivity|reflexivity|by vm_compute|reflexivity|by vm_compute|].
    destruct He as (err & He & Hc).
    { repeat (apply not_elem_of_cons; split; [done|]). apply not_elem_of_nil. }
    vm_compute in He. injection He as <-. done.
  - destruct (H (readOnly "Tags" stringMap "tags") (VMap None))
      as [_ He]; [reflexivity|reflexivity|by vm_compute|reflexivity|by vm_compute|].
    destruct He as (err & He & Hc); [by left|by vm_compute|].
    vm_compute in He. injection He as <-. done.
Qed.

Lemma map_override_errors_witness :
  (parseEnvs Sample.lib Sample.envLabels Sample.addOnPrefix Sample.addOn).2
  = Returned None (Some (UnsupportedFieldKind "Labels"))
  /\ (parseEnvs Sample.lib Sample.envSelector Sample.addOnPrefix Sample.addOn).2
     = Returned None
         (Some (TypeCoercionError "{" "DeploymentNodeSelector"
                  "K8S_TESTER_ADD_ON_DEPLOYMENT_NODE_SELECTOR"
                  (LibError "json: outside the sample"))).
Proof.
  split.
  - apply (map_override_errors Sample.lib Sample.envLabels Sample.addOnPrefix Sample.addOn 3
             (field "Labels" stringMap [("json", "labels")]) (VMap None));
      [reflexivity|reflexivity|by vm_compute|by vm_compute|by vm_compute|by vm_compute|].
    repeat (apply not_elem_of_cons; split; [done|]). apply not_elem_of_nil.
  - apply (map_override_errors Sample.lib Sample.envSelector Sample.addOnPrefix Sample.addOn 2
             (field "DeploymentNodeSelector" stringMap [("json", "deployment_node_selector")])
             (VMap (Some {[ "kubernetes.io/os" := "linux" ]})));
      [reflexivity|reflexivity|by vm_compute|by vm_compute|by vm_compute|by vm_compute
      |by right; right; left|reflexivity|reflexivity|reflexivity].
Defined.

(** ** C9 *)

(** C9, as worded, fails.  With a malformed [K8S_TESTER_PROMPT], the
    pass over [Config] stops before [LogOutputs], which keeps its value
    whatever [K8S_TESTER_LOG_OUTPUTS] holds; and a read-only field of
    type [[]string] is not replaced either. *)
Lemma slice_claim_fails :
  ((parseEnvs Sample.lib Sample.envPromptAndLogOutputs ENV_PREFIX
      (reflectConfig Sample.cfg0)).1 !! 8%nat
   = Some (field "LogOutputs" stringSlice [("json", "log-outputs")], VSlice (Some ["stderr"]))
   /\ ~ sliceClaim Sample.lib Sample.envPromptAndLogOutputs ENV_PREFIX
          (reflectConfig Sample.cfg0) 8)
  /\ (parseEnvs Sample.lib (Sample.envTags "a,b") ENV_PREFIX
        (Sample.status stringSlice (VSlice None))
      = (Sample.status stringSlice (VSlice None),
         Returned None (Some (ReadOnlyViolation "K8S_TESTER_TAGS" "a,b")))
      /\ ~ sliceClaim Sample.lib (Sample.envTags "a,b") ENV_PREFIX
             (Sample.status stringSlice (VSlice None)) 0).
Proof.
  split; (split; [by vm_compute|]); intros H.
  - destruct (H (field "LogOutputs" stringSlice [("json", "log-outputs")])
                (VSlice (Some ["stderr"])))
      as [_ He]; [reflexivity|reflexivity|by vm_compute|reflexivity|by vm_compute|].
    assert (length (Strings.Split
                      (Getenv Sample.envPromptAndLogOutputs
                         (envName Sample.lib ENV_PREFIX
                            (field "LogOutputs" stringSlice [("json", "log-outputs")])))
                      ",") <> 0%nat) as Hn by by vm_compute.
    specialize (He Hn). vm_compute in He. done.
  - destruct (H (readOnly "Tags" stringSlice "tags") (VSlice None))
      as [_ He]; [reflexivity|reflexivity|by vm_compute|reflexivity|by vm_compute|].
    assert (length (Strings.Split
                      (Getenv (Sample.envTags "a,b")
                         (envName Sample.lib ENV_PREFIX (readOnly "Tags" stringSlice "tags")))
                      ",") <> 0%nat) as Hn by by vm_compute.
    specialize (He Hn). vm_compute in He. done.
Qed.

Lemma slice_override_witness :
  parseField Sample.lib Sample.envLogOutputs ENV_PREFIX
    (field "LogOutputs" stringSlice [("json", "log-outputs")]) (VSlice (Some ["stderr"]))
  = Next (VSlice (Some ["stderr"; "/var/log/k8s-tester.log"]))
  /\ (parseEnvs Sample.lib Sample.envLogOutputs ENV_PREFIX (reflectConfig Sample.cfg0)).1 !! 8%nat
     = Some (field "LogOutputs" stringSlice [("json", "log-outputs")],
             VSlice (Some ["stderr"; "/var/log/k8s-tester.log"])).
Proof.
  apply (slice_override Sample.lib Sample.envLogOutputs ENV_PREFIX (reflectConfig Sample.cfg0) 8
           (field "LogOutputs" stringSlice [("json", "log-outputs")])
           (VSlice (Some ["stderr"])));
    [reflexivity|reflexivity|by vm_compute|reflexivity|by vm_compute|by vm_compute|by vm_compute].
Defined.

(** ** C10 *)

(** C10, as worded, fails.  With a malformed [Enable] declared before
    it, the node selector keeps its entries although its own variable
    does not parse; so does a read-only [Tags]. *)
Lemma map_reset_claim_fails :
  ((parseEnvs Sample.lib Sample.envEnableAndSelector Sample.addOnPrefix Sample.addOn).1 !! 2%nat
   = Some (field "DeploymentNodeSelector" stringMap [("json", "deployment_node_selector")],
           VMap (Some {[ "kubernetes.io/os" := "linux" ]}))
   /\ ~ mapResetClaim Sample.lib Sample.envEnableAndSelector Sample.addOnPrefix Sample.addOn 2)
  /\ (parseEnvs Sample.lib (Sample.envTags "{") ENV_PREFIX
        (Sample.status stringMap (VMap (Some {[ "team" := "infra" ]})))
      = (Sample.status stringMap (VMap (Some {[ "team" := "infra" ]})),
         Returned None (Some (ReadOnlyViolation "K8S_TESTER_TAGS" "{")))
      /\ ~ mapResetClaim Sample.lib (Sample.envTags "{") ENV_PREFIX
             (Sample.status stringMap (VMap (Some {[ "team" := "infra" ]}))) 0).
Proof.
  split; (split; [by vm_compute|]); intros H.
  - destruct (H (field "DeploymentNodeSelector" stringMap
                   [("json", "deployment_node_selector")])
                (VMap (Some {[ "kubernetes.io/os" := "linux" ]})))
      as [_ He]; [reflexivity|reflexivity|by right; right; left|by vm_compute|reflexivity
                 |by vm_compute|by vm_compute|].
    vm_compute in He. done.
  - destruct (H (readOnly "Tags" stringMap "tags") (VMap (Some {[ "team" := "infra" ]})))
      as [_ He]; [reflexivity|reflexivity|by left|by vm_compute|reflexivity
                 |by vm_compute|by vm_compute|].
    vm_compute in He. done.
Qed.

Lemma map_override_resets_field_witness :
  (exists err,
     (parseEnvs Sample.lib Sample.envSelector Sample.addOnPrefix Sample.addOn).2
     = Returned None (Some err))
  /\ (parseEnvs Sample.lib Sample.envSelector Sample.addOnPrefix Sample.addOn).1 !! 2%nat
     = Some (field "DeploymentNodeSelector" stringMap [("json", "deployment_node_selector")],
             VMap (Some ∅)).
Proof.
  destruct (map_override_resets_field Sample.lib Sample.envSelector Sample.addOnPrefix
              Sample.addOn 2
              (field "DeploymentNodeSelector" stringMap [("json", "deployment_node_selector")])
              (VMap (Some {[ "kubernetes.io/os" := "linux" ]}))
              (LibError "json: outside the sample"))
    as (He & Hfield & _);
    [reflexivity|reflexivity|by right; right; left|by vm_compute|reflexivity|by vm_compute
    |by vm_compute|by vm_compute|reflexivity|].
  exact (conj He Hfield).
Defined.

(** ** C6, C7 and C8 *)

(** Scenario C: a file with the key [unexpected_field] does not load. *)
Lemma Load_rejects_unknown_keys_witness :
  exists err,
    Load Sample.yaml Sample.osUnexpected "/tmp/cfg.yaml"
    = (Sample.osUnexpected, (None, Some err)).
Proof.
  apply (Load_rejects_unknown_keys Sample.yaml Sample.osUnexpected "/tmp/cfg.yaml"
           Sample.unexpected Sample_strict); [by vm_compute|].
  eexists. split; [apply parse_print|done].
Defined.

(** Scenario D: saved under the relative path [cfg.yaml] from
    [/home/tester], the tree holds [/home/tester/cfg.yaml] and the file
    is there. *)
Lemma ConfigPath_absolute_witness :
  exists os' cfg',
    Sync Sample.yaml Sample.os0 (set_ConfigPath "cfg.yaml" Sample.cfg0)
    = (os', cfg', Returns None)
    /\ ConfigPath cfg' = "/home/tester/cfg.yaml"
    /\ Filepath.IsAbs (ConfigPath cfg') = true
    /\ exists d, ReadFile os' (ConfigPath cfg') = (d, None).
Proof.
  destruct (Sync Sample.yaml Sample.os0 (set_ConfigPath "cfg.yaml" Sample.cfg0))
    as [[os' cfg'] r] eqn:HS.
  assert (r = Returns None /\ ConfigPath cfg' = "/home/tester/cfg.yaml") as [-> Hp].
  { vm_compute in HS. by injection HS as <- <- <-. }
  exists os', cfg'. split; [done|]. split; [done|].
  destruct (ConfigPath_absolute Sample.yaml Sample.os0) as (_ & Hsync & _).
  destruct (Hsync _ _ _ HS) as (Habs & _ & Hfile). done.
Defined.

(** C8, as worded, fails.  The sample codec gives the tree back.  The tree
    [cfg0] is saved under [/tmp/./cfg.yaml], an absolute path, which
    [Sync] leaves as it is; loading that file gives a tree whose
    [ConfigPath] is [/tmp/cfg.yaml]. *)
Lemma round_trip_law_fails :
  roundTrips Sample.yaml Sample.cfg0
  /\ (exists os', Sync Sample.yaml Sample.os0 Sample.cfg0 = (os', Sample.cfg0, Returns None)
                  /\ exists os'',
                       Load Sample.yaml os' "/tmp/./cfg.yaml"
                       = (os'', (Some (set_ConfigPath "/tmp/cfg.yaml" Sample.cfg0), None)))
  /\ ~ roundTripLaw Sample.yaml Sample.os0 Sample.cfg0.
Proof.
  split; [apply Sample_roundTrips|].
  destruct (Sync Sample.yaml Sample.os0 Sample.cfg0) as [[os' cfg'] r] eqn:HS.
  assert (r = Returns None /\ cfg' = Sample.cfg0) as [-> ->].
  { vm_compute in HS. by injection HS as <- <- <-. }
  destruct (Load Sample.yaml os' "/tmp/./cfg.yaml") as [os'' res] eqn:HL.
  assert (res = (Some (set_ConfigPath "/tmp/cfg.yaml" Sample.cfg0), None)) as ->.
  { revert HL. vm_compute in HS. injection HS as <-. vm_compute. by intros [= <- <-]. }
  split.
  - exists os'. split; [done|]. by exists os''.
  - intros H. destruct (H os' Sample.cfg0 HS) as (os3 & loaded & HL' & [Hroot _]).
    change (ConfigPath Sample.cfg0) with "/tmp/./cfg.yaml" in HL'.
    rewrite HL in HL'. injection HL' as _ <-. vm_compute in Hroot. done.
Qed.

Lemma save_then_load_witness :
  exists os' cfg' os'' loaded,
    Sync Sample.yaml Sample.os0 (set_ConfigPath "cfg.yaml" Sample.cfg0)
    = (os', cfg', Returns None)
    /\ Load Sample.yaml os' (ConfigPath cfg') = (os'', (Some loaded, None))
    /\ taggedEq (set_ConfigPath (Filepath.Clean (ConfigPath cfg')) cfg') loaded
    /\ taggedEq cfg' loaded.
Proof.
  destruct (Sync Sample.yaml Sample.os0 (set_ConfigPath "cfg.yaml" Sample.cfg0))
    as [[os' cfg'] r] eqn:HS.
  assert (r = Returns None /\ ConfigPath cfg' = "/home/tester/cfg.yaml") as [-> Hp].
  { vm_compute in HS. by injection HS as <- <- <-. }
  destruct (save_then_load Sample.yaml Sample.os0 _ os' cfg' HS (Sample_roundTrips cfg'))
    as (os'' & loaded & HL & Heq & Hclean).
  exists os', cfg', os'', loaded. split; [done|]. split; [done|]. split; [done|].
  apply Hclean. by left.
Defined.

(** * More properties *)

(** ** The pass over a struct *)

Section Pass.
Context (L : Library) (environ : gmap string string) (pfx : string).

(** The three shapes of a step: it goes on with the field as it was; it
    returns an error with the field as it was; or, when the field can be
    written, it does what the value of the variable alone decides, and
    panics otherwise. *)
Lemma parseField_cases sf :
  (forall v, parseField L environ pfx sf v = Next v)
  \/ (exists err, forall v, parseField L environ pfx sf v = Return v err)
  \/ (exists (st : Step) (b : bool), forall v,
        parseField L environ pfx sf v = if b then st else Panic v).
Proof.
  destruct (decide (Tag_Get (Tag sf) "json" = EmptyString)) as [Hj|Hj].
  { left. intros v. by apply parseField_untagged. }
  destruct (decide (Getenv environ (envName L pfx sf) = EmptyString)) as [Hsv|Hsv].
  { left. intros v. by apply parseField_unset. }
  destruct (decide (Tag_Get (Tag sf) "read-only" = "true")) as [Hro|Hro].
  { right. left. eexists. intros v. by apply parseField_read_only. }
  pose proof (fun v => parseField_switch L environ pfx sf v Hj Hro Hsv) as H.
  cbv zeta in H. set (sv := Getenv environ (envName L pfx sf)) in *.
  unfold set, Set_ in H.
  destruct (kindOf (Type_ sf)) eqn:Hk;
    try (left; exact H);
    try (right; right; eexists _, (CanSet sf); exact H).
  - destruct (Strconv.ParseBool sv) as [bb [e|]].
    + right. left. eexists. exact H.
    + right. right. eexists _, (CanSet sf). exact H.
  - destruct (parseSigned L sf sv) as [iv [e|]].
    + right. left. eexists. exact H.
    + right. right. eexists _, (CanSet sf). exact H.
  - destruct (parseSigned L sf sv) as [iv [e|]].
    + right. left. eexists. exact H.
    + right. right. eexists _, (CanSet sf). exact H.
  - destruct (parseSigned L sf sv) as [iv [e|]].
    + right. left. eexists. exact H.
    + right. right. eexists _, (CanSet sf). exact H.
  - destruct (Strconv.ParseUint sv) as [iv [e|]].
    + right. left. eexists. exact H.
    + right. right. eexists _, (CanSet sf). exact H.
  - destruct (Strconv.ParseUint sv) as [iv [e|]].
    + right. left. eexists. exact H.
    + right. right. eexists _, (CanSet sf). exact H.
  - destruct (Strconv.ParseUint sv) as [iv [e|]].
    + right. left. eexists. exact H.
    + right. right. eexists _, (CanSet sf). exact H.
  - destruct (strconv_ParseFloat L sv) as [fv [e|]].
    + right. left. eexists. exact H.
    + right. right. eexists _, (CanSet sf). exact H.
  - destruct (strconv_ParseFloat L sv) as [fv [e|]].
    + right. left. eexists. exact H.
    + right. right. eexists _, (CanSet sf). exact H.
  - case_bool_decide.
    + right. right.
      exists (match json_Unmarshal L sv with
              | (_, Some err) =>
                  Return (VMap (Some ∅)) (TypeCoercionError sv (Name sf) (envName L pfx sf) err)
              | (mm, None) => Next (VMap mm)
              end), (CanSet sf && assignableTo stringMap (Type_ sf)).
      intros v. rewrite H.
      destruct (CanSet sf && assignableTo stringMap (Type_ sf)); [|done].
      by destruct (json_Unmarshal L sv) as [mm [e|]].
    + right. left. eexists. exact H.
  - right. right. eexists _, (CanSet sf && assignableTo stringSlice (Type_ sf)). exact H.
Qed.

(** A step taken again on what it left does the same. *)
Lemma parseField_held sf v :
  parseField L environ pfx sf (held (parseField L environ pfx sf v))
  = parseField L environ pfx sf v.
Proof.
  destruct (parseField_cases sf) as [H|[[err H]|(st & b & H)]]; rewrite !H.
  - done.
  - done.
  - by destruct b.
Qed.

Lemma parseFields_again vv :
  parseFields L environ pfx (parseFields L environ pfx vv).1 = parseFields L environ pfx vv.
Proof.
  induction vv as [|[sf v] vv IH]; [done|]. cbn [parseFields].
  pose proof (parseField_held sf v) as Hh.
  destruct (parseField L environ pfx sf v) as [v'|v' err|v'] eqn:Hst; simpl in Hh.
  - destruct (parseFields L environ pfx vv) as [rest' e] eqn:Hrest. simpl in *.
    by rewrite Hh, IH.
  - simpl. by rewrite Hh.
  - simpl. by rewrite Hh.
Qed.

(** X1.  Running the pass again on the struct it left, under the same
    environment, changes nothing more and ends the same way: the same
    fields, the same error or panic. *)
Theorem parseEnvs_idempotent (vv : StructValue) :
  parseEnvs L environ pfx (parseEnvs L environ pfx vv).1 = parseEnvs L environ pfx vv.
Proof.
  rewrite !parseEnvs_eq. cbn [fst]. by rewrite parseFields_again.
Qed.

End Pass.

Section Anatomy.
Context (L : Library) (environ : gmap string string) (pfx : string).

(** A loop that runs to its end has taken every step, and every step
    went on. *)
Lemma parseFields_Done vv :
  (parseFields L environ pfx vv).2 = Done <->
  Forall (fun f => goesOn (parseField L environ pfx f.1 f.2)) vv.
Proof.
  induction vv as [|[sf v] vv IH]; simpl; [by split; [constructor|]|].
  destruct (parseField L environ pfx sf v) as [v'|v' err|v'] eqn:Hst.
  - destruct (parseFields L environ pfx vv) as [rest' e]. simpl in *.
    rewrite IH. split.
    + intros H. constructor; [cbn [fst snd]; by rewrite Hst|done].
    + by inversion 1.
  - simpl. split; [done|]. inversion 1 as [|? ? Hg]; subst. cbn [fst snd] in Hg.
    by rewrite Hst in Hg.
  - simpl. split; [done|]. inversion 1 as [|? ? Hg]; subst. cbn [fst snd] in Hg.
    by rewrite Hst in Hg.
Qed.

Lemma parseFields_Done_stepAll vv :
  (parseFields L environ pfx vv).2 = Done ->
  (parseFields L environ pfx vv).1 = stepAll L environ pfx vv.
Proof.
  induction vv as [|[sf v] vv IH]; simpl; [done|].
  destruct (parseField L environ pfx sf v) as [v'|v' err|v'] eqn:Hst; [|done..].
  destruct (parseFields L environ pfx vv) as [rest' e]. simpl in *.
  intros He. by rewrite IH.
Qed.

(** A loop that does not run to its end stopped at a field it reached. *)
Lemma parseFields_stop vv :
  (parseFields L environ pfx vv).2 <> Done ->
  exists i sf v,
    vv !! i = Some (sf, v)
    /\ reaches L environ pfx vv i
    /\ ~ goesOn (parseField L environ pfx sf v).
Proof.
  induction vv as [|[sf v] vv IH]; simpl; [done|].
  destruct (parseField L environ pfx sf v) as [v'|v' err|v'] eqn:Hst.
  - destruct (parseFields L environ pfx vv) as [rest' e] eqn:Hrest. simpl in *.
    intros He. destruct (IH He) as (i & sf' & w & Hi & Hr & Hg).
    exists (S i), sf', w. split; [done|]. split; [|done].
    unfold reaches in *. simpl. rewrite Hst.
    destruct (parseFields L environ pfx (take i vv)) as [pre' e']. simpl in *. done.
  - intros _. exists 0%nat, sf, v. split; [done|]. split; [done|].
    rewrite Hst. by intros [].
  - intros _. exists 0%nat, sf, v. split; [done|]. split; [done|].
    rewrite Hst. by intros [].
Qed.

(** X2.  A pass that returns without an error has taken the step of
    every field, each on its own: every field holds what its own step
    stored, no step returned an error, and the struct returned is the
    struct left. *)
Theorem parseEnvs_success (vv r : StructValue) :
  (parseEnvs L environ pfx vv).2 = Returned (Some r) None ->
  r = (parseEnvs L environ pfx vv).1
  /\ r = stepAll L environ pfx vv
  /\ Forall (fun f => goesOn (parseField L environ pfx f.1 f.2)) vv.
Proof.
  rewrite parseEnvs_eq. cbn [fst snd].
  destruct (parseFields L environ pfx vv).2 eqn:He; [|done..].
  intros [= <-]. split; [done|].
  split; [by apply parseFields_Done_stepAll|by apply parseFields_Done].
Qed.

(** X3.  The effect of a pass that succeeds does not depend on the
    order of the fields: on the same fields in another order the pass
    succeeds as well and leaves every field with the same value. *)
Theorem parseEnvs_order (vv vv2 r : StructValue) :
  vv ≡ₚ vv2 ->
  (parseEnvs L environ pfx vv).2 = Returned (Some r) None ->
  parseEnvs L environ pfx vv2
  = (stepAll L environ pfx vv2, Returned (Some (stepAll L environ pfx vv2)) None)
  /\ r ≡ₚ stepAll L environ pfx vv2.
Proof.
  intros Hp. rewrite !parseEnvs_eq. cbn [fst snd].
  destruct (parseFields L environ pfx vv).2 eqn:He; [|done..].
  intros [= <-].
  assert ((parseFields L environ pfx vv2).2 = Done) as He2.
  { apply parseFields_Done. rewrite <- Hp. by apply parseFields_Done. }
  rewrite He2, !parseFields_Done_stepAll by done.
  split; [done|]. unfold stepAll. by rewrite Hp.
Qed.

(** X4.  A pass that returns an error stopped at one field: the fields
    declared before it went on and hold what their steps stored, the
    error is the error of the step of that field, and the fields
    declared after it are as they were. *)
Theorem parseEnvs_failure (vv : StructValue) (err : error) :
  (parseEnvs L environ pfx vv).2 = Returned None (Some err) ->
  exists i sf v v',
    vv !! i = Some (sf, v)
    /\ parseField L environ pfx sf v = Return v' err
    /\ (parseEnvs L environ pfx vv).1
       = stepAll L environ pfx (take i vv) ++ (sf, v') :: drop (S i) vv.
Proof.
  rewrite parseEnvs_eq. cbn [fst snd]. intros Hout.
  assert ((parseFields L environ pfx vv).2 <> Done) as Hne.
  { intros He. by rewrite He in Hout. }
  destruct (parseFields_stop vv Hne) as (i & sf & v & Hi & Hr & Hg).
  exists i, sf, v.
  rewrite (parseFields_at L environ pfx vv i sf v Hi) in Hout |- *.
  pose proof (parseFields_Done_stepAll (take i vv) Hr) as Hpre.
  unfold reaches in Hr.
  destruct (parseFields L environ pfx (take i vv)) as [pre' e]. simpl in *. subst e pre'.
  destruct (parseField L environ pfx sf v) as [w|w err'|w]; [done| |done].
  simpl in *. injection Hout as ->. by exists w.
Qed.

(** X5.  A field whose kind has no case in the [switch] (a pointer, a
    struct, an [int8], an [int16], ...) and that is not read-only is
    passed over whatever the environment holds: its step goes on without
    an error, and after the pass the field holds what it held. *)
Theorem parseEnvs_skips_other_kinds (vv : StructValue) (i : nat) (sf : StructField)
    (v : Value) :
  vv !! i = Some (sf, v) ->
  kindOf (Type_ sf) ∉ switchKinds ->
  Tag_Get (Tag sf) "read-only" <> "true" ->
  parseField L environ pfx sf v = Next v
  /\ (parseEnvs L environ pfx vv).1 !! i = Some (sf, v).
Proof.
  intros Hi Hk Hro.
  assert (parseField L environ pfx sf v = Next v) as Hst.
  { destruct (decide (Tag_Get (Tag sf) "json" = EmptyString)) as [Hj|Hj];
      [by apply parseField_untagged|].
    destruct (decide (Getenv environ (envName L pfx sf) = EmptyString)) as [Hsv|Hsv];
      [by apply parseField_unset|].
    rewrite parseField_switch by done. cbv zeta.
    unfold switchKinds in Hk.
    destruct (kindOf (Type_ sf)); try done; exfalso; apply Hk; set_solver. }
  split; [done|]. rewrite parseEnvs_eq. cbn [fst].
  by destruct (parseFields_skip L pfx environ vv i sf v Hi Hst).
Qed.

End Anatomy.

(** ** Numbers and lists read from a variable *)

Lemma parseUint_loop_nonneg s0 s n : 0 <= n -> 0 <= (Strconv.parseUint_loop s0 n s).1.
Proof.
  revert n. induction s as [|c r IH]; intros n Hn; [done|].
  cbn [Strconv.parseUint_loop].
  destruct (Strconv.digit c) as [d|]; [|done].
  destruct (Strconv.maxUint64 / 10 + 1 <=? n); [done|]. cbv zeta.
  destruct ((_ <? _) || _); [done|].
  apply IH. apply Z.mod_pos_bound. lia.
Qed.

Lemma ParseUint_nonneg s : 0 <= (Strconv.ParseUint s).1.
Proof. destruct s; [done|]. by apply parseUint_loop_nonneg. Qed.

(** What [strconv.ParseInt] returns without an error is an [int64]. *)
Lemma ParseInt_range s n : Strconv.ParseInt s = (n, None) -> - 2 ^ 63 <= n < 2 ^ 63.
Proof.
  destruct s as [|c r]; [done|]. unfold Strconv.ParseInt.
  assert (forall neg t,
    (let '(un, err) := Strconv.ParseUint t in
     match err with
     | Some (NumError _ _ ErrRange) | None =>
         let cutoff := 2 ^ 63 in
         if negb neg && (cutoff <=? un)
         then (cutoff - 1, Some (Strconv.rangeError "ParseInt" (String c r)))
         else if neg && (cutoff <? un)
              then (- cutoff, Some (Strconv.rangeError "ParseInt" (String c r)))
              else (if neg then - un else un, None)
     | Some _ => (0, Some (Strconv.syntaxError "ParseInt" (String c r)))
     end) = (n, None) -> - 2 ^ 63 <= n < 2 ^ 63) as Hbody.
  { intros neg t. pose proof (ParseUint_nonneg t) as Hun.
    destruct (Strconv.ParseUint t) as [un err]. cbn [fst] in Hun.
    assert ((let cutoff := 2 ^ 63 in
             if negb neg && (cutoff <=? un)
             then (cutoff - 1, Some (Strconv.rangeError "ParseInt" (String c r)))
             else if neg && (cutoff <? un)
                  then (- cutoff, Some (Strconv.rangeError "ParseInt" (String c r)))
                  else (if neg then - un else un, None)) = (n, None)
            -> - 2 ^ 63 <= n < 2 ^ 63) as Hcut.
    { cbv zeta. destruct neg; cbn [negb andb].
      - destruct (Z.ltb_spec (2 ^ 63) un); [done|]. intros [= <-]. lia.
      - destruct (Z.leb_spec (2 ^ 63) un); [done|]. intros [= <-]. lia. }
    destruct err as [[? ? []| | | | | | | |]|]; try done. }
  cbv zeta. repeat case_bool_decide; apply Hbody.
Qed.

(** Splitting on a separator of one byte. *)
Lemma HasPrefix_byte c d r :
  Strings.HasPrefix (String c r) (String d EmptyString) = bool_decide (c = d).
Proof.
  unfold Strings.HasPrefix. cbn [String.prefix].
  destruct (Ascii.ascii_dec d c) as [<-|Hne].
  - rewrite bool_decide_eq_true_2 by done. by destruct r.
  - by rewrite bool_decide_eq_false_2 by congruence.
Qed.

Lemma split_byte_cons d c r :
  Strings.split_from 0 (String d EmptyString) (String c r) =
  if bool_decide (c = d) then EmptyString :: Strings.split_from 0 (String d EmptyString) r
  else match Strings.split_from 0 (String d EmptyString) r with
       | h :: t => String c h :: t
       | [] => [String c EmptyString]
       end.
Proof. cbn [Strings.split_from]. by rewrite HasPrefix_byte. Qed.

Lemma split_byte_noByte d s :
  Forall (fun e => noByte d e = true) (Strings.split_from 0 (String d EmptyString) s).
Proof.
  induction s as [|c r IH]; [by repeat constructor|].
  rewrite split_byte_cons. case_bool_decide as Hc.
  - by constructor.
  - destruct (Strings.split_from 0 (String d EmptyString) r) as [|h t].
    + repeat constructor. simpl. by rewrite bool_decide_eq_false_2.
    + inversion IH as [|? ? Hh Ht]; subst. constructor; [|done].
      simpl. by rewrite bool_decide_eq_false_2.
Qed.

(** Joining what was split gives the string back. *)
Lemma Join_split_byte d s :
  Strings.Join (Strings.split_from 0 (String d EmptyString) s) (String d EmptyString) = s.
Proof.
  induction s as [|c r IH]; [done|].
  rewrite split_byte_cons. case_bool_decide as Hc.
  - subst c. pose proof (split_from_nonempty 0 (String d EmptyString) r) as Hne.
    destruct (Strings.split_from 0 (String d EmptyString) r) as [|h t] eqn:Hs; [done|].
    change (Strings.Join (EmptyString :: h :: t) (String d EmptyString))
      with (EmptyString +:+ String d EmptyString
              +:+ Strings.Join (h :: t) (String d EmptyString)).
    by rewrite IH.
  - pose proof (split_from_nonempty 0 (String d EmptyString) r) as Hne.
    destruct (Strings.split_from 0 (String d EmptyString) r) as [|h t] eqn:Hs; [done|].
    destruct t as [|h' t].
    + simpl in IH. by subst h.
    + change (Strings.Join (String c h :: h' :: t) (String d EmptyString))
        with (String c (h +:+ String d EmptyString
                          +:+ Strings.Join (h' :: t) (String d EmptyString))).
      f_equal. exact IH.
Qed.

(** Splitting what was joined gives the elements back. *)
Lemma split_byte_app d a b :
  noByte d a = true ->
  Strings.split_from 0 (String d EmptyString) (a +:+ String d EmptyString +:+ b)
  = a :: Strings.split_from 0 (String d EmptyString) b.
Proof.
  induction a as [|c r IH]; intros Ha.
  - change (EmptyString +:+ String d EmptyString +:+ b) with (String d b).
    by rewrite split_byte_cons, bool_decide_eq_true_2.
  - simpl in Ha. apply andb_true_iff in Ha as [Hc Hr].
    apply negb_true_iff, bool_decide_eq_false_1 in Hc.
    change (String c r +:+ String d EmptyString +:+ b)
      with (String c (r +:+ String d EmptyString +:+ b)).
    rewrite split_byte_cons, bool_decide_eq_false_2 by done.
    by rewrite (IH Hr).
Qed.

Lemma split_byte_one d a :
  noByte d a = true -> Strings.split_from 0 (String d EmptyString) a = [a].
Proof.
  induction a as [|c r IH]; intros Ha; [done|].
  simpl in Ha. apply andb_true_iff in Ha as [Hc Hr].
  apply negb_true_iff, bool_decide_eq_false_1 in Hc.
  rewrite split_byte_cons, bool_decide_eq_false_2 by done.
  by rewrite (IH Hr).
Qed.

Lemma split_byte_Join d es :
  Forall (fun e => noByte d e = true) es -> es <> [] ->
  Strings.split_from 0 (String d EmptyString) (Strings.Join es (String d EmptyString)) = es.
Proof.
  induction es as [|e es IH]; intros Hes Hne; [done|].
  inversion Hes as [|? ? He Hes']; subst.
  destruct es as [|e' es].
  - by apply split_byte_one.
  - change (Strings.Join (e :: e' :: es) (String d EmptyString))
      with (e +:+ String d EmptyString +:+ Strings.Join (e' :: es) (String d EmptyString)).
    rewrite split_byte_app by done. by rewrite IH.
Qed.

Section Stored.
Context (L : Library) (environ : gmap string string) (pfx : string).

(** X6.  A field of kind [int] or [int64] (not a [Duration]) that can be
    set stores exactly the number [strconv.ParseInt] read.  A field of
    kind [int32] stores it exactly when it fits in 32 bits; a number that
    does not fit is not reported: the field is left with the number
    wrapped around into the 32 bits, and the step goes on without an
    error. *)
Theorem integer_stored_width (sf : StructField) (v : Value) (n : Z) :
  Tag_Get (Tag sf) "json" <> EmptyString ->
  Tag_Get (Tag sf) "read-only" <> "true" ->
  CanSet sf = true ->
  kindOf (Type_ sf) ∈ [Int; Int32; Int64] ->
  typeName (Type_ sf) <> "Duration" ->
  Strconv.ParseInt (Getenv environ (envName L pfx sf)) = (n, None) ->
  exists n',
    parseField L environ pfx sf v = Next (VInt n')
    /\ (kindOf (Type_ sf) <> Int32 -> n' = n)
    /\ (kindOf (Type_ sf) = Int32 ->
        - 2 ^ 31 <= n' < 2 ^ 31
        /\ (n' - n) mod 2 ^ 32 = 0
        /\ (- 2 ^ 31 <= n < 2 ^ 31 -> n' = n)).
Proof.
  intros Hj Hro Hset Hk Hd Hn.
  assert (Getenv environ (envName L pfx sf) <> EmptyString) as Hsv.
  { intros He. by rewrite He in Hn. }
  pose proof (ParseInt_range _ _ Hn) as Hrange.
  pose proof (parseField_switch L environ pfx sf v Hj Hro Hsv) as Hst. cbv zeta in Hst.
  unfold parseSigned in Hst. rewrite bool_decide_eq_false_2, Hn in Hst by done.
  unfold set in Hst. rewrite Hset in Hst.
  exists (wrapSigned (bitSize (kindOf (Type_ sf))) n).
  split; [set_unfold in Hk; destruct Hk as [Hk|[Hk|[Hk|[]]]];
          rewrite Hk in Hst |- *; exact Hst|].
  unfold wrapSigned. split.
  - intros Hne.
    assert (bitSize (kindOf (Type_ sf)) = 64) as ->.
    { set_unfold in Hk. destruct Hk as [Hk|[Hk|[Hk|[]]]]; rewrite Hk in *; done || congruence. }
    change (2 ^ (64 - 1)) with (2 ^ 63). rewrite Z.mod_small; lia.
  - intros ->. change (bitSize Int32) with 32. change (2 ^ (32 - 1)) with (2 ^ 31).
    pose proof (Z.mod_pos_bound (n + 2 ^ 31) (2 ^ 32) ltac:(lia)) as Hb.
    split; [lia|]. split.
    + replace ((n + 2 ^ 31) mod 2 ^ 32 - 2 ^ 31 - n)
        with ((n + 2 ^ 31) mod 2 ^ 32 - (n + 2 ^ 31)) by lia.
      rewrite Zminus_mod, Zmod_mod, Z.sub_diag. done.
    + intros Hfit. rewrite Z.mod_small; lia.
Qed.

(** X7.  A [[]string] field that can be set holds, after its step, the
    one list of comma-free strings that gives the value of the variable
    back when joined with commas: nothing is trimmed, no empty element
    is dropped, and the list is never empty. *)
Theorem slice_stored_joins_back (sf : StructField) (v : Value) :
  Tag_Get (Tag sf) "json" <> EmptyString ->
  Tag_Get (Tag sf) "read-only" <> "true" ->
  CanSet sf = true ->
  kindOf (Type_ sf) = Slice ->
  assignableTo stringSlice (Type_ sf) = true ->
  Getenv environ (envName L pfx sf) <> EmptyString ->
  exists ss,
    parseField L environ pfx sf v = Next (VSlice (Some ss))
    /\ ss <> []
    /\ Strings.Join ss "," = Getenv environ (envName L pfx sf)
    /\ Forall (fun e => noByte "," e = true) ss
    /\ (forall es, es <> [] -> Forall (fun e => noByte "," e = true) es ->
        Strings.Join es "," = Getenv environ (envName L pfx sf) -> es = ss).
Proof.
  intros Hj Hro Hset Hk Has Hsv.
  pose proof (parseField_switch L environ pfx sf v Hj Hro Hsv) as Hst. cbv zeta in Hst.
  rewrite Hk in Hst. unfold Set_ in Hst. rewrite Hset, Has in Hst.
  exists (Strings.Split (Getenv environ (envName L pfx sf)) ",").
  split; [done|]. unfold Strings.Split.
  split; [apply split_from_nonempty|].
  split; [apply Join_split_byte|].
  split; [apply split_byte_noByte|].
  intros es Hne Hes <-. symmetry. by apply split_byte_Join.
Qed.

(** The loop on a nil pointer passes over the fields the loop passes
    over. *)
Lemma parseFieldsNil_app tp1 tp2 :
  Forall (passedOver L environ pfx) tp1 ->
  parseFieldsNil L environ pfx (tp1 ++ tp2) = parseFieldsNil L environ pfx tp2.
Proof.
  induction 1 as [|sf tp1 Hsf _ IH]; [done|].
  cbn [app parseFieldsNil]. cbv zeta. fold_envName L pfx sf.
  case_bool_decide; [done|]. case_bool_decide; [done|].
  by destruct Hsf.
Qed.

(** X8.  On a nil pointer [parseEnvs] returns the nil pointer and no
    error when the loop passes over every field of the struct type:
    nothing is dereferenced before a variable with a value is found. *)
Theorem parseEnvs_nil_passes (tp : list StructField) :
  Forall (passedOver L environ pfx) tp ->
  parseEnvsPtr L environ pfx tp None = (None, Returned None None).
Proof.
  intros Htp. unfold parseEnvsPtr.
  rewrite <- (app_nil_r tp), parseFieldsNil_app by done. done.
Qed.

(** X9.  On a nil pointer [parseEnvs] stops at the first field with a
    key whose variable holds a value: with the read-only error when the
    field is read-only, and with a panic otherwise, whatever the kind of
    the field, also a kind the [switch] has no case for. *)
Theorem parseEnvs_nil_stops (tp : list StructField) (i : nat) (sf : StructField) :
  tp !! i = Some sf ->
  Forall (passedOver L environ pfx) (take i tp) ->
  Tag_Get (Tag sf) "json" <> EmptyString ->
  Getenv environ (envName L pfx sf) <> EmptyString ->
  parseEnvsPtr L environ pfx tp None
  = (None,
     if bool_decide (Tag_Get (Tag sf) "read-only" = "true")
     then Returned None
            (Some (ReadOnlyViolation (envName L pfx sf) (Getenv environ (envName L pfx sf))))
     else Panicked).
Proof.
  intros Hi Hpre Hj Hsv. unfold parseEnvsPtr.
  rewrite <- (take_drop_middle tp i sf Hi), parseFieldsNil_app by done.
  cbn [parseFieldsNil]. cbv zeta. fold_envName L pfx sf.
  rewrite !bool_decide_eq_false_2 by done.
  by case_bool_decide.
Qed.

End Stored.

(** ** Instances *)

Lemma parseEnvs_success_witness :
  (parseEnvs Sample.lib Sample.envClusterName ENV_PREFIX (reflectConfig Sample.cfg0)).1
  = stepAll Sample.lib Sample.envClusterName ENV_PREFIX (reflectConfig Sample.cfg0).
Proof.
  destruct (parseEnvs_success Sample.lib Sample.envClusterName ENV_PREFIX
              (reflectConfig Sample.cfg0)
              (parseEnvs Sample.lib Sample.envClusterName ENV_PREFIX
                 (reflectConfig Sample.cfg0)).1)
    as (_ & Hall & _); [by vm_compute|exact Hall].
Defined.

Lemma parseEnvs_order_witness :
  parseEnvs Sample.lib {[ "K8S_TESTER_ADD_ON_NAMESPACE" := "kube-system" ]}
    Sample.addOnPrefix (reverse Sample.addOn)
  = (stepAll Sample.lib {[ "K8S_TESTER_ADD_ON_NAMESPACE" := "kube-system" ]}
       Sample.addOnPrefix (reverse Sample.addOn),
     Returned (Some (stepAll Sample.lib {[ "K8S_TESTER_ADD_ON_NAMESPACE" := "kube-system" ]}
                       Sample.addOnPrefix (reverse Sample.addOn))) None).
Proof.
  destruct (parseEnvs_order Sample.lib {[ "K8S_TESTER_ADD_ON_NAMESPACE" := "kube-system" ]}
              Sample.addOnPrefix Sample.addOn (reverse Sample.addOn)
              (parseEnvs Sample.lib {[ "K8S_TESTER_ADD_ON_NAMESPACE" := "kube-system" ]}
                 Sample.addOnPrefix Sample.addOn).1)
    as [Hrun _]; [symmetry; apply reverse_Permutation|by vm_compute|exact Hrun].
Defined.

Lemma parseEnvs_failure_witness :
  exists i sf v v',
    reflectConfig Sample.cfg0 !! i = Some (sf, v)
    /\ parseField Sample.lib Sample.envPromptAndReadOnly ENV_PREFIX sf v
       = Return v' (TypeCoercionError "maybe" "Prompt" "K8S_TESTER_PROMPT"
                      (Strconv.syntaxError "ParseBool" "maybe"))
    /\ (parseEnvs Sample.lib Sample.envPromptAndReadOnly ENV_PREFIX
          (reflectConfig Sample.cfg0)).1
       = stepAll Sample.lib Sample.envPromptAndReadOnly ENV_PREFIX
           (take i (reflectConfig Sample.cfg0))
         ++ (sf, v') :: drop (S i) (reflectConfig Sample.cfg0).
Proof.
  apply (parseEnvs_failure Sample.lib Sample.envPromptAndReadOnly ENV_PREFIX
           (reflectConfig Sample.cfg0)).
  by vm_compute.
Defined.

Lemma parseEnvs_skips_other_kinds_witness :
  parseField Sample.lib Sample.envRetries ENV_PREFIX
    (field "Retries" (TPlain Int8) [("json", "retries")]) (VInt 3) = Next (VInt 3)
  /\ (parseEnvs Sample.lib Sample.envRetries ENV_PREFIX Sample.retries).1 !! 0%nat
     = Some (field "Retries" (TPlain Int8) [("json", "retries")], VInt 3).
Proof.
  apply (parseEnvs_skips_other_kinds Sample.lib Sample.envRetries ENV_PREFIX
           Sample.retries 0); [reflexivity| |by vm_compute].
  unfold switchKinds. repeat (apply not_elem_of_cons; split; [done|]).
  apply not_elem_of_nil.
Defined.

Lemma integer_stored_width_witness :
  exists n',
    parseField Sample.lib {[ "K8S_TESTER_REPLICAS" := "2147483648" ]} ENV_PREFIX
      (field "Replicas" (TPlain Int32) [("json", "replicas")]) (VInt 1) = Next (VInt n')
    /\ - 2 ^ 31 <= n' < 2 ^ 31
    /\ (n' - 2147483648) mod 2 ^ 32 = 0.
Proof.
  destruct (integer_stored_width Sample.lib {[ "K8S_TESTER_REPLICAS" := "2147483648" ]}
              ENV_PREFIX (field "Replicas" (TPlain Int32) [("json", "replicas")])
              (VInt 1) 2147483648)
    as (n' & Hst & _ & H32);
    [by vm_compute|by vm_compute|reflexivity|by right; left|by vm_compute|by vm_compute|].
  exists n'. split; [exact Hst|]. destruct (H32 eq_refl) as (Hr & Hm & _). by split.
Defined.

Lemma slice_stored_joins_back_witness :
  exists ss,
    parseField Sample.lib Sample.envLogOutputs ENV_PREFIX
      (field "LogOutputs" stringSlice [("json", "log-outputs")]) (VSlice (Some ["stderr"]))
    = Next (VSlice (Some ss))
    /\ Strings.Join ss "," = "stderr,/var/log/k8s-tester.log".
Proof.
  destruct (slice_stored_joins_back Sample.lib Sample.envLogOutputs ENV_PREFIX
              (field "LogOutputs" stringSlice [("json", "log-outputs")])
              (VSlice (Some ["stderr"])))
    as (ss & Hst & _ & Hjoin & _);
    [by vm_compute|by vm_compute|reflexivity|reflexivity|reflexivity|by vm_compute|].
  exists ss. split; [exact Hst|exact Hjoin].
Defined.

Lemma parseEnvs_nil_passes_witness :
  parseEnvsPtr Sample.lib Sample.envClusterName Sample.addOnPrefix
    (map fst Sample.addOn) None = (None, Returned None None).
Proof.
  apply parseEnvs_nil_passes. repeat constructor; by right.
Defined.

Lemma parseEnvs_nil_stops_witness :
  parseEnvsPtr Sample.lib Sample.envLabels Sample.addOnPrefix
    (map fst Sample.addOn) None = (None, Panicked).
Proof.
  apply (parseEnvs_nil_stops Sample.lib Sample.envLabels Sample.addOnPrefix
           (map fst Sample.addOn) 3 (field "Labels" stringMap [("json", "labels")]));
    [reflexivity|repeat constructor; by right|by vm_compute|by vm_compute].
Defined.

(** ** [UpdateFromEnvs] *)

Lemma HasPrefix_app p s : Strings.HasPrefix (p +:+ s) p = true.
Proof.
  unfold Strings.HasPrefix. induction p as [|c r IH]; [by destruct s|].
  change (String c r +:+ s) with (String c (r +:+ s)). cbn [String.prefix].
  by destruct (Ascii.ascii_dec c c).
Qed.

Lemma HasPrefix_app_app p s t : Strings.HasPrefix ((p +:+ s) +:+ t) p = true.
Proof.
  unfold Strings.HasPrefix. induction p as [|c r IH]; [by destruct (_ +:+ _)|].
  change ((String c r +:+ s) +:+ t) with (String c ((r +:+ s) +:+ t)).
  cbn [String.prefix]. by destruct (Ascii.ascii_dec c c).
Qed.

Lemma storeConfig_reflectConfig cfg : storeConfig (reflectConfig cfg) cfg = cfg.
Proof. by destruct cfg. Qed.

Lemma set_addOns_addOns cfg : set_addOns (addOns cfg) cfg = cfg.
Proof. by destruct cfg. Qed.

Lemma addOns_set_addOns l cfg : length l = 8%nat -> addOns (set_addOns l cfg) = l.
Proof.
  intros Hl. do 8 (destruct l as [|? l]; [done|]). by destruct l.
Qed.

Lemma rootFields_set_addOns l cfg : rootFields (set_addOns l cfg) = rootFields cfg.
Proof. done. Qed.

Lemma addOns_storeConfig vv cfg : addOns (storeConfig vv cfg) = addOns cfg.
Proof. done. Qed.

Section Quiet.
Context (L : Library) (environ : gmap string string) (pfx : string).
Hypothesis unset : forall sf, Getenv environ (envName L pfx sf) = EmptyString.

Lemma parseFields_quiet vv : parseFields L environ pfx vv = (vv, Done).
Proof.
  induction vv as [|[sf v] vv IH]; [done|].
  cbn [parseFields]. by rewrite parseField_unset, IH by apply unset.
Qed.

Lemma parseEnvsPtr_quiet tp a :
  parseEnvsPtr L environ pfx tp a = (a, Returned a None).
Proof.
  destruct a as [vv|]; unfold parseEnvsPtr.
  - by rewrite parseEnvs_eq, parseFields_quiet.
  - rewrite <- (app_nil_r tp), parseFieldsNil_app; [done|].
    apply Forall_forall. intros sf _. right. apply unset.
Qed.

End Quiet.

Lemma quiet_root L environ sf :
  quiet environ -> Getenv environ (envName L ENV_PREFIX sf) = EmptyString.
Proof. intros Hq. apply Hq. unfold envName. apply HasPrefix_app. Qed.

Lemma quiet_addOn L environ s sf :
  quiet environ -> Getenv environ (envName L (ENV_PREFIX +:+ s) sf) = EmptyString.
Proof. intros Hq. apply Hq. unfold envName. apply HasPrefix_app_app. Qed.

Lemma addOnBlocks_quiet L environ passes l :
  Forall (fun p => forall sf, Getenv environ (envName L p.1 sf) = EmptyString) passes ->
  addOnBlocks L environ passes l = (l, Returns None).
Proof.
  intros Hp. revert l. induction Hp as [|[pfx tp] passes Hpfx _ IH]; intros l; [by destruct l|].
  destruct l as [|a l]; [done|]. cbn [addOnBlocks].
  rewrite parseEnvsPtr_quiet by exact Hpfx. by rewrite IH.
Qed.

(** X10.  When no variable whose name starts with [K8S_TESTER_] holds a
    value, [UpdateFromEnvs] returns no error and leaves the tree as it
    is, nil add-on pointers included: nothing is dereferenced. *)
Theorem UpdateFromEnvs_quiet (L : Library) (I : Imports) (environ : gmap string string)
    (cfg : Config) :
  quiet environ ->
  UpdateFromEnvs L I environ cfg = (cfg, Returns None).
Proof.
  intros Hq. unfold UpdateFromEnvs.
  rewrite parseEnvs_eq, parseFields_quiet by (intros sf; by apply quiet_root).
  cbn [fst snd outcome]. rewrite storeConfig_reflectConfig.
  rewrite addOnBlocks_quiet; [by rewrite set_addOns_addOns|].
  unfold addOnPasses. repeat constructor; intros sf; cbn [fst]; by apply quiet_addOn.
Qed.

Lemma UpdateFromEnvs_quiet_witness :
  UpdateFromEnvs Sample.lib Fixture.imports {[ "HOME" := "/home/tester" ]} Fixture.cfg1
  = (Fixture.cfg1, Returns None).
Proof.
  apply UpdateFromEnvs_quiet. intros name Hname.
  unfold Getenv. rewrite lookup_singleton_ne; [done|].
  intros <-. by vm_compute in Hname.
Defined.

Section Kept.
Context (L : Library) (environ : gmap string string).

Lemma parseFields_fst pfx vv :
  map fst (parseFields L environ pfx vv).1 = map fst vv.
Proof.
  induction vv as [|[sf v] vv IH]; [done|]. cbn [parseFields].
  destruct (parseField L environ pfx sf v); [|done..].
  destruct (parseFields L environ pfx vv). simpl in *. by rewrite IH.
Qed.

(** A read-only field holds after the pass what it held. *)
Lemma parseFields_read_only_kept pfx vv i sf v :
  vv !! i = Some (sf, v) ->
  Tag_Get (Tag sf) "read-only" = "true" ->
  (parseFields L environ pfx vv).1 !! i = Some (sf, v).
Proof.
  intros Hi Hro.
  destruct (reaches_dec L environ pfx vv i) as [Hr|Hr].
  - destruct (parseFields_reached L environ pfx vv i sf v Hi Hr) as [-> _].
    do 2 f_equal.
    destruct (decide (Tag_Get (Tag sf) "json" = EmptyString)) as [Hj|Hj];
      [by rewrite parseField_untagged|].
    destruct (decide (Getenv environ (envName L pfx sf) = EmptyString)) as [Hsv|Hsv];
      [by rewrite parseField_unset|].
    by rewrite parseField_read_only.
  - by destruct (parseFields_unreached L environ pfx vv i sf v Hi Hr).
Qed.

Lemma parseEnvsPtr_type pfx tp a :
  map fst <$> (parseEnvsPtr L environ pfx tp a).1 = map fst <$> a.
Proof.
  destruct a as [vv|]; [|done]. unfold parseEnvsPtr.
  rewrite parseEnvs_eq. cbn. by rewrite parseFields_fst.
Qed.

Lemma addOnBlocks_length passes l :
  length (addOnBlocks L environ passes l).1 = length l.
Proof.
  revert l. induction passes as [|[pfx tp] passes IH]; intros l; [by destruct l|].
  destruct l as [|a l]; [done|]. cbn [addOnBlocks].
  destruct (parseEnvsPtr L environ pfx tp a) as [a' [r [err|]|]]; [done| |done].
  specialize (IH l). destruct (addOnBlocks L environ passes l). simpl in *. by rewrite IH.
Qed.

Lemma addOnBlocks_types passes l :
  Forall2 (fun a a' => map fst <$> a' = map fst <$> a) l (addOnBlocks L environ passes l).1.
Proof.
  revert l. induction passes as [|[pfx tp] passes IH]; intros l.
  - destruct l; cbn [addOnBlocks fst]; by apply Forall_Forall2_diag, Forall_true.
  - destruct l as [|a l]; [constructor|]. cbn [addOnBlocks].
    pose proof (parseEnvsPtr_type pfx tp a) as Ha.
    destruct (parseEnvsPtr L environ pfx tp a) as [a' [r [err|]|]]; cbn [fst] in *.
    + constructor; [done|]. by apply Forall_Forall2_diag, Forall_true.
    + specialize (IH l). destruct (addOnBlocks L environ passes l). by constructor.
    + constructor; [done|]. by apply Forall_Forall2_diag, Forall_true.
Qed.

(** X11.  Whatever the environment holds and however the call ends,
    with an error or a panic too, [UpdateFromEnvs] leaves the mutex, the
    stop channel and the read-only [TotalNodes] as they are, and every
    add-on pointer nil when it was nil and pointing to a struct with the
    same fields when it was not. *)
Theorem UpdateFromEnvs_keeps (I : Imports) (cfg : Config) :
  mu (UpdateFromEnvs L I environ cfg).1 = mu cfg
  /\ Stopc (UpdateFromEnvs L I environ cfg).1 = Stopc cfg
  /\ TotalNodes (UpdateFromEnvs L I environ cfg).1 = TotalNodes cfg
  /\ Forall2 (fun a a' => map fst <$> a' = map fst <$> a)
       (addOns cfg) (addOns (UpdateFromEnvs L I environ cfg).1).
Proof.
  unfold UpdateFromEnvs. rewrite parseEnvs_eq.
  set (vv' := (parseFields L environ ENV_PREFIX (reflectConfig cfg)).1).
  assert (TotalNodes (storeConfig vv' cfg) = TotalNodes cfg) as Htn.
  { unfold storeConfig. cbn [TotalNodes]. subst vv'.
    by rewrite (parseFields_read_only_kept ENV_PREFIX (reflectConfig cfg) 14
                  (readOnly "TotalNodes" (TPlain Int) "total_nodes")
                  (VInt (TotalNodes cfg))). }
  assert (Forall2 (fun a a' : option StructValue => map fst <$> a' = map fst <$> a)
            (addOns cfg) (addOns cfg)) as Hsame
    by (by apply Forall_Forall2_diag, Forall_true).
  destruct (parseFields L environ ENV_PREFIX (reflectConfig cfg)).2; cbn [outcome fst].
  - pose proof (addOnBlocks_length (addOnPasses I) (addOns (storeConfig vv' cfg))) as Hlen.
    pose proof (addOnBlocks_types (addOnPasses I) (addOns (storeConfig vv' cfg))) as Hty.
    destruct (addOnBlocks L environ (addOnPasses I) (addOns (storeConfig vv' cfg)))
      as [l c]. cbn [fst] in *.
    rewrite addOns_set_addOns by done. done.
  - done.
  - done.
Qed.

End Kept.

Section Blocks.
Context (L : Library) (environ : gmap string string).

Lemma addOnBlocks_done passes l l' :
  length passes = length l ->
  addOnBlocks L environ passes l = (l', Returns None) ->
  l' = map fst (zip_with (fun p a => parseEnvsPtr L environ p.1 p.2 a) passes l)
  /\ Forall (fun r => passed r.2)
       (zip_with (fun p a => parseEnvsPtr L environ p.1 p.2 a) passes l).
Proof.
  revert l l'. induction passes as [|[pfx tp] passes IH]; intros l l' Hlen.
  - destruct l; [|done]. by intros [= <-].
  - destruct l as [|a l]; [done|]. cbn [addOnBlocks zip_with map fst snd].
    destruct (parseEnvsPtr L environ pfx tp a) as [a' [r [err|]|]]; [done| |done].
    destruct (addOnBlocks L environ passes l) as [rest c] eqn:Hrest.
    intros [= <- ->]. destruct (IH l rest) as [-> Hall]; [simpl in Hlen; lia|done|].
    split; [done|]. by constructor.
Qed.

Lemma addOnBlocks_stopped passes l l' err :
  length passes = length l ->
  addOnBlocks L environ passes l = (l', Returns (Some err)) ->
  exists i a' r,
    zip_with (fun p a => parseEnvsPtr L environ p.1 p.2 a) passes l !! i
    = Some (a', Returned r (Some err))
    /\ Forall (fun r => passed r.2)
         (take i (zip_with (fun p a => parseEnvsPtr L environ p.1 p.2 a) passes l))
    /\ l' = map fst (take (S i)
                       (zip_with (fun p a => parseEnvsPtr L environ p.1 p.2 a) passes l))
            ++ drop (S i) l.
Proof.
  revert l l'. induction passes as [|[pfx tp] passes IH]; intros l l' Hlen.
  - by destruct l.
  - destruct l as [|a l]; [done|]. cbn [addOnBlocks zip_with fst snd].
    destruct (parseEnvsPtr L environ pfx tp a) as [a' [r [e|]|]] eqn:Ha; [| |done].
    + intros [= <- ->]. exists 0%nat, a', r. split; [done|]. split; [constructor|].
      done.
    + destruct (addOnBlocks L environ passes l) as [rest c] eqn:Hrest.
      intros [= <- ->].
      destruct (IH l rest) as (i & b & r' & Hi & Hpre & ->); [simpl in Hlen; lia|done|].
      exists (S i), b, r'. split; [done|]. split; [|done].
      cbn [take]. by constructor.
Qed.

(** X12.  When [UpdateFromEnvs] returns no error, the pass over the root
    and the pass over each add-on have all run and none has returned an
    error or panicked; the tree holds, in every root field, what the
    step of that field stored, and in every add-on what the pass over
    that add-on alone leaves. *)
Theorem UpdateFromEnvs_success (I : Imports) (cfg cfg' : Config) :
  UpdateFromEnvs L I environ cfg = (cfg', Returns None) ->
  cfg' = set_addOns (map fst (passAll L I environ (addOns cfg)))
           (storeConfig (stepAll L environ ENV_PREFIX (reflectConfig cfg)) cfg)
  /\ Forall (fun f => goesOn (parseField L environ ENV_PREFIX f.1 f.2)) (reflectConfig cfg)
  /\ Forall (fun r => passed r.2) (passAll L I environ (addOns cfg)).
Proof.
  unfold UpdateFromEnvs. rewrite parseEnvs_eq.
  destruct (parseFields L environ ENV_PREFIX (reflectConfig cfg)).2 eqn:He;
    cbn [outcome]; [|done..].
  rewrite (parseFields_Done_stepAll L environ ENV_PREFIX _ He).
  rewrite addOns_storeConfig.
  destruct (addOnBlocks L environ (addOnPasses I) (addOns cfg)) as [l c] eqn:Hl.
  intros [= <- ->].
  destruct (addOnBlocks_done (addOnPasses I) (addOns cfg) l eq_refl Hl) as [-> Hall].
  split; [done|]. split; [by apply parseFields_Done|done].
Qed.

(** X13.  When [UpdateFromEnvs] returns an error, either the pass over
    the root returned it, and no add-on has been looked at; or the root
    and the add-ons before some add-on passed, the pass over that add-on
    returned the error, and the add-ons after it have not been looked
    at.  What the passes before the error stored is not taken back. *)
Theorem UpdateFromEnvs_failure (I : Imports) (cfg cfg' : Config) (err : error) :
  UpdateFromEnvs L I environ cfg = (cfg', Returns (Some err)) ->
  ((parseEnvs L environ ENV_PREFIX (reflectConfig cfg)).2 = Returned None (Some err)
   /\ cfg' = storeConfig (parseEnvs L environ ENV_PREFIX (reflectConfig cfg)).1 cfg
   /\ addOns cfg' = addOns cfg)
  \/ (passed (parseEnvs L environ ENV_PREFIX (reflectConfig cfg)).2
      /\ exists i a' r,
           passAll L I environ (addOns cfg) !! i = Some (a', Returned r (Some err))
           /\ Forall (fun r => passed r.2) (take i (passAll L I environ (addOns cfg)))
           /\ addOns cfg'
              = map fst (take (S i) (passAll L I environ (addOns cfg)))
                ++ drop (S i) (addOns cfg)).
Proof.
  unfold UpdateFromEnvs. rewrite parseEnvs_eq. cbn [fst snd].
  destruct (parseFields L environ ENV_PREFIX (reflectConfig cfg)).2 eqn:He;
    cbn [outcome]; [| |done].
  - rewrite addOns_storeConfig.
    pose proof (addOnBlocks_length L environ (addOnPasses I) (addOns cfg)) as Hlen.
    destruct (addOnBlocks L environ (addOnPasses I) (addOns cfg)) as [l c] eqn:Hl.
    intros [= <- ->]. right. split; [done|].
    destruct (addOnBlocks_stopped (addOnPasses I) (addOns cfg) l err eq_refl Hl)
      as (i & a' & r & Hi & Hpre & Heq).
    exists i, a', r. split; [done|]. split; [done|].
    by rewrite addOns_set_addOns.
  - intros [= <- ->]. by left.
Qed.

End Blocks.

Lemma UpdateFromEnvs_success_witness :
  (UpdateFromEnvs Sample.lib Fixture.imports Fixture.envNames Fixture.cfg1).1
  = set_addOns
      (map fst (passAll Sample.lib Fixture.imports Fixture.envNames (addOns Fixture.cfg1)))
      (storeConfig
         (stepAll Sample.lib Fixture.envNames ENV_PREFIX (reflectConfig Fixture.cfg1))
         Fixture.cfg1).
Proof.
  destruct (UpdateFromEnvs_success Sample.lib Fixture.envNames Fixture.imports Fixture.cfg1
              (UpdateFromEnvs Sample.lib Fixture.imports Fixture.envNames Fixture.cfg1).1)
    as [Htree _]; [by vm_compute|exact Htree].
Defined.

Lemma UpdateFromEnvs_failure_witness :
  exists i a' r,
    passAll Sample.lib Fixture.imports (Fixture.envCompletes "abc") (addOns Fixture.cfg1) !! i
    = Some (a', Returned r
                  (Some (TypeCoercionError "abc" "Completes" "K8S_TESTER_JOBS_PI_COMPLETES"
                           (Strconv.syntaxError "ParseInt" "abc"))))
    /\ Forall (fun r => passed r.2)
         (take i (passAll Sample.lib Fixture.imports (Fixture.envCompletes "abc")
                    (addOns Fixture.cfg1))).
Proof.
  destruct (UpdateFromEnvs_failure Sample.lib (Fixture.envCompletes "abc") Fixture.imports
              Fixture.cfg1
              (UpdateFromEnvs Sample.lib Fixture.imports (Fixture.envCompletes "abc")
                 Fixture.cfg1).1
              (TypeCoercionError "abc" "Completes" "K8S_TESTER_JOBS_PI_COMPLETES"
                 (Strconv.syntaxError "ParseInt" "abc")))
    as [[Hroot _]|[_ (i & a' & r & Hi & Hpre & _)]]; [by vm_compute|by vm_compute in Hroot|].
  by exists i, a', r.
Defined.

(** ** The root fields after [UpdateFromEnvs] *)

Section Held.
Context (L : Library) (environ : gmap string string) (pfx : string).

Lemma held_string sf s :
  kindOf (Type_ sf) = String_ -> CanSet sf = true ->
  Tag_Get (Tag sf) "json" <> EmptyString -> Tag_Get (Tag sf) "read-only" <> "true" ->
  held (parseField L environ pfx sf (VString s))
  = VString (fromEnv environ (envName L pfx sf) s id).
Proof.
  intros Hk Hset Hj Hro. unfold fromEnv. cbv zeta. case_bool_decide as Hsv.
  - by rewrite parseField_unset.
  - rewrite parseField_switch by done. cbv zeta. rewrite Hk. unfold set. by rewrite Hset.
Qed.

Lemma held_bool sf b :
  kindOf (Type_ sf) = Bool -> CanSet sf = true ->
  Tag_Get (Tag sf) "json" <> EmptyString -> Tag_Get (Tag sf) "read-only" <> "true" ->
  goesOn (parseField L environ pfx sf (VBool b)) ->
  held (parseField L environ pfx sf (VBool b))
  = VBool (fromEnv environ (envName L pfx sf) b (fun sv => (Strconv.ParseBool sv).1)).
Proof.
  intros Hk Hset Hj Hro. unfold fromEnv. cbv zeta. case_bool_decide as Hsv.
  - by rewrite parseField_unset.
  - rewrite parseField_switch by done. cbv zeta. rewrite Hk. unfold set. rewrite Hset.
    by destruct (Strconv.ParseBool (Getenv environ (envName L pfx sf))) as [bb [err|]].
Qed.

Lemma held_int sf n :
  kindOf (Type_ sf) = Int -> typeName (Type_ sf) <> "Duration" -> CanSet sf = true ->
  Tag_Get (Tag sf) "json" <> EmptyString -> Tag_Get (Tag sf) "read-only" <> "true" ->
  goesOn (parseField L environ pfx sf (VInt n)) ->
  held (parseField L environ pfx sf (VInt n))
  = VInt (fromEnv environ (envName L pfx sf) n (fun sv => (Strconv.ParseInt sv).1)).
Proof.
  intros Hk Hd Hset Hj Hro. unfold fromEnv. cbv zeta. case_bool_decide as Hsv.
  - by rewrite parseField_unset.
  - rewrite parseField_switch by done. cbv zeta. rewrite Hk. unfold set, parseSigned.
    rewrite Hset, bool_decide_eq_false_2 by done.
    destruct (Strconv.ParseInt (Getenv environ (envName L pfx sf))) as [iv [err|]] eqn:Hp;
      [done|]. intros _. cbn [held fst]. f_equal.
    pose proof (ParseInt_range _ _ Hp) as Hrange.
    unfold wrapSigned. change (bitSize Int) with 64. change (2 ^ (64 - 1)) with (2 ^ 63).
    rewrite Z.mod_small; lia.
Qed.

Lemma held_slice sf ss :
  kindOf (Type_ sf) = Slice -> CanSet sf = true ->
  assignableTo stringSlice (Type_ sf) = true ->
  Tag_Get (Tag sf) "json" <> EmptyString -> Tag_Get (Tag sf) "read-only" <> "true" ->
  held (parseField L environ pfx sf (VSlice ss))
  = VSlice (fromEnv environ (envName L pfx sf) ss (fun sv => Some (Strings.Split sv ","))).
Proof.
  intros Hk Hset Has Hj Hro. unfold fromEnv. cbv zeta. case_bool_decide as Hsv.
  - by rewrite parseField_unset.
  - rewrite parseField_switch by done. cbv zeta. rewrite Hk. unfold Set_.
    by rewrite Hset, Has.
Qed.

(** A read-only field that lets the pass go on has no value in its
    variable. *)
Lemma read_only_goesOn sf v :
  Tag_Get (Tag sf) "json" <> EmptyString -> Tag_Get (Tag sf) "read-only" = "true" ->
  goesOn (parseField L environ pfx sf v) ->
  Getenv environ (envName L pfx sf) = EmptyString.
Proof.
  intros Hj Hro Hgo.
  destruct (decide (Getenv environ (envName L pfx sf) = EmptyString)) as [|Hsv]; [done|].
  by rewrite parseField_read_only in Hgo.
Qed.

End Held.

Section Root.
Context (L : Library) (I : Imports) (environ : gmap string string).

(** What a call that returns no error has done to the root. *)
Lemma UpdateFromEnvs_root cfg cfg' :
  UpdateFromEnvs L I environ cfg = (cfg', Returns None) ->
  Forall (fun f => goesOn (parseField L environ ENV_PREFIX f.1 f.2)) (reflectConfig cfg)
  /\ exists l,
       cfg' = set_addOns l
                (storeConfig (stepAll L environ ENV_PREFIX (reflectConfig cfg)) cfg).
Proof.
  unfold UpdateFromEnvs. rewrite parseEnvs_eq.
  destruct (parseFields L environ ENV_PREFIX (reflectConfig cfg)).2 eqn:He;
    cbn [outcome]; [|done..].
  rewrite (parseFields_Done_stepAll L environ ENV_PREFIX _ He).
  destruct (addOnBlocks L environ (addOnPasses I) _) as [l c].
  intros [= <- ->]. split; [by apply parseFields_Done|by exists l].
Qed.

(** X14.  When [UpdateFromEnvs] returns no error, every root field
    holds the value read from its variable when the variable holds one,
    and its old value otherwise: the strings as they are, the booleans
    as [strconv.ParseBool] reads them, [MinimumNodes] as
    [strconv.ParseInt] reads it, [LogOutputs] split at the commas; and
    [K8S_TESTER_TOTAL_NODES] holds no value. *)
Theorem UpdateFromEnvs_root_fields (cfg cfg' : Config) :
  UpdateFromEnvs L I environ cfg = (cfg', Returns None) ->
  Prompt cfg' = fromEnv environ "K8S_TESTER_PROMPT" (Prompt cfg)
                  (fun sv => (Strconv.ParseBool sv).1)
  /\ ClusterName cfg' = fromEnv environ "K8S_TESTER_CLUSTER_NAME" (ClusterName cfg) id
  /\ ConfigPath cfg' = fromEnv environ "K8S_TESTER_CONFIG_PATH" (ConfigPath cfg) id
  /\ LogColor cfg' = fromEnv environ "K8S_TESTER_LOG_COLOR" (LogColor cfg)
                       (fun sv => (Strconv.ParseBool sv).1)
  /\ LogColorOverride cfg'
     = fromEnv environ "K8S_TESTER_LOG_COLOR_OVERRIDE" (LogColorOverride cfg) id
  /\ LogLevel cfg' = fromEnv environ "K8S_TESTER_LOG_LEVEL" (LogLevel cfg) id
  /\ LogOutputs cfg' = fromEnv environ "K8S_TESTER_LOG_OUTPUTS" (LogOutputs cfg)
                         (fun sv => Some (Strings.Split sv ","))
  /\ KubectlDownloadURL cfg'
     = fromEnv environ "K8S_TESTER_KUBECTL_DOWNLOAD_URL" (KubectlDownloadURL cfg) id
  /\ KubectlPath cfg' = fromEnv environ "K8S_TESTER_KUBECTL_PATH" (KubectlPath cfg) id
  /\ KubeconfigPath cfg'
     = fromEnv environ "K8S_TESTER_KUBECONFIG_PATH" (KubeconfigPath cfg) id
  /\ KubeconfigContext cfg'
     = fromEnv environ "K8S_TESTER_KUBECONFIG_CONTEXT" (KubeconfigContext cfg) id
  /\ MinimumNodes cfg' = fromEnv environ "K8S_TESTER_MINIMUM_NODES" (MinimumNodes cfg)
                           (fun sv => (Strconv.ParseInt sv).1)
  /\ TotalNodes cfg' = TotalNodes cfg
  /\ Getenv environ "K8S_TESTER_TOTAL_NODES" = EmptyString.
Proof.
  intros Hrun. destruct (UpdateFromEnvs_root cfg cfg' Hrun) as [Hgo [l ->]].
  unfold reflectConfig, ConfigType, ConfigValues in Hgo. cbn [zip zip_with] in Hgo.
  repeat match type of Hgo with
         | Forall _ (_ :: _) => apply Forall_cons in Hgo as [? Hgo]
         end.
  clear Hgo. cbn [fst snd] in *.
  pose proof (read_only_goesOn L environ ENV_PREFIX
                (readOnly "TotalNodes" (TPlain Int) "total_nodes") (VInt (TotalNodes cfg))
                ltac:(done) eq_refl ltac:(done)) as Htn.
  change (envName L ENV_PREFIX (readOnly "TotalNodes" (TPlain Int) "total_nodes"))
    with "K8S_TESTER_TOTAL_NODES" in Htn.
  unfold set_addOns, storeConfig, stepAll, reflectConfig, ConfigType, ConfigValues.
  cbn [Prompt ClusterName ConfigPath LogColor LogColorOverride LogLevel LogOutputs
       KubectlDownloadURL KubectlPath KubeconfigPath KubeconfigContext MinimumNodes
       TotalNodes zip zip_with map lookup list_lookup fst snd].
  rewrite !held_string, !held_bool, !held_int, held_slice by done.
  rewrite (parseField_unset L environ ENV_PREFIX
             (readOnly "TotalNodes" (TPlain Int) "total_nodes")) by exact Htn.
  cbn [held]. repeat split; try done.
Qed.

End Root.

Lemma UpdateFromEnvs_root_fields_witness :
  ClusterName (UpdateFromEnvs Sample.lib Fixture.imports Fixture.envNames Fixture.cfg1).1
  = "mycluster"
  /\ ConfigPath (UpdateFromEnvs Sample.lib Fixture.imports Fixture.envNames Fixture.cfg1).1
     = "cfg.yaml"
  /\ LogLevel (UpdateFromEnvs Sample.lib Fixture.imports Fixture.envNames Fixture.cfg1).1
     = "debug".
Proof.
  destruct (UpdateFromEnvs_root_fields Sample.lib Fixture.imports Fixture.envNames
              Fixture.cfg1
              (UpdateFromEnvs Sample.lib Fixture.imports Fixture.envNames Fixture.cfg1).1)
    as (_ & Hname & Hpath & _ & _ & Hlevel & _); [by vm_compute|].
  rewrite Hname, Hpath, Hlevel. clear Hname Hpath Hlevel.
  vm_compute. repeat split; reflexivity.
Defined.

(** ** Panics *)

Section NoPanic.
Context (L : Library) (environ : gmap string string).

Lemma parseField_settable pfx sf v :
  settable sf = true -> forall v', parseField L environ pfx sf v <> Panic v'.
Proof.
  intros Hs v'.
  destruct (decide (Tag_Get (Tag sf) "json" = EmptyString)) as [Hj|Hj];
    [by rewrite parseField_untagged|].
  destruct (decide (Getenv environ (envName L pfx sf) = EmptyString)) as [Hsv|Hsv];
    [by rewrite parseField_unset|].
  destruct (decide (Tag_Get (Tag sf) "read-only" = "true")) as [Hro|Hro];
    [by rewrite parseField_read_only|].
  rewrite parseField_switch by done. cbv zeta.
  unfold settable in Hs. unfold set, Set_.
  destruct (kindOf (Type_ sf)); try done; try rewrite Hs; try done.
  - by destruct (Strconv.ParseBool _) as [? []].
  - by destruct (parseSigned _ _ _) as [? []].
  - by destruct (parseSigned _ _ _) as [? []].
  - by destruct (parseSigned _ _ _) as [? []].
  - by destruct (Strconv.ParseUint _) as [? []].
  - by destruct (Strconv.ParseUint _) as [? []].
  - by destruct (Strconv.ParseUint _) as [? []].
  - by destruct (strconv_ParseFloat _ _) as [? []].
  - by destruct (strconv_ParseFloat _ _) as [? []].
  - case_bool_decide; [|done]. by destruct (json_Unmarshal _ _) as [? []].
Qed.

Lemma parseFields_settable pfx vv :
  Forall (fun f => settable f.1 = true) vv ->
  (parseFields L environ pfx vv).2 <> Crashed.
Proof.
  induction 1 as [|[sf v] vv Hsf _ IH]; [done|]. cbn [parseFields].
  pose proof (parseField_settable pfx sf v Hsf) as Hst.
  destruct (parseField L environ pfx sf v) as [w|w err|w]; [| done |by destruct (Hst w)].
  by destruct (parseFields L environ pfx vv).
Qed.

(** X15.  [parseEnvs] does not panic on a pointer to a struct in which
    every field of a kind the [switch] has a case for is exported, every
    slice is a [[]string] and every map a [map[string]string], whatever
    the environment holds. *)
Theorem parseEnvs_no_panic (pfx : string) (vv : StructValue) :
  Forall (fun f => settable f.1 = true) vv ->
  (parseEnvs L environ pfx vv).2 <> Panicked.
Proof.
  intros Hvv. rewrite parseEnvs_eq. cbn [snd].
  pose proof (parseFields_settable pfx vv Hvv) as Hne.
  by destruct (parseFields L environ pfx vv).2.
Qed.

Lemma parseEnvsPtr_safe p a :
  safe L environ p a -> (parseEnvsPtr L environ p.1 p.2 a).2 <> Panicked.
Proof.
  destruct a as [vv|]; cbn [safe]; intros Hs; unfold parseEnvsPtr.
  - rewrite parseEnvs_eq. cbn [snd].
    pose proof (parseFields_settable p.1 vv Hs) as Hne.
    by destruct (parseFields L environ p.1 vv).2.
  - by rewrite <- (app_nil_r p.2), parseFieldsNil_app.
Qed.

Lemma addOnBlocks_safe passes l :
  Forall2 (safe L environ) passes l ->
  (addOnBlocks L environ passes l).2 <> Panics.
Proof.
  induction 1 as [|[pfx tp] a passes l Ha _ IH]; [done|]. cbn [addOnBlocks].
  pose proof (parseEnvsPtr_safe (pfx, tp) a Ha) as Hne. cbn [fst snd] in Hne.
  destruct (parseEnvsPtr L environ pfx tp a) as [a' [r [err|]|]]; [done| |done].
  by destruct (addOnBlocks L environ passes l).
Qed.

(** X16.  [UpdateFromEnvs] never panics in the pass over the root, and
    does not panic at all when every add-on pointer is safe for its
    block: it points to a struct of settable fields, or it is nil and no
    variable of that add-on holds a value. *)
Theorem UpdateFromEnvs_no_panic (I : Imports) (cfg : Config) :
  (parseEnvs L environ ENV_PREFIX (reflectConfig cfg)).2 <> Panicked
  /\ (Forall2 (safe L environ) (addOnPasses I) (addOns cfg) ->
      (UpdateFromEnvs L I environ cfg).2 <> Panics).
Proof.
  assert (Forall (fun f : Field => settable f.1 = true) (reflectConfig cfg)) as Hroot.
  { unfold reflectConfig, ConfigType, ConfigValues. cbn [zip zip_with].
    repeat constructor. }
  pose proof (parseFields_settable ENV_PREFIX (reflectConfig cfg) Hroot) as Hne.
  split.
  - rewrite parseEnvs_eq. cbn [snd].
    by destruct (parseFields L environ ENV_PREFIX (reflectConfig cfg)).2.
  - intros Hsafe. unfold UpdateFromEnvs. rewrite parseEnvs_eq.
    destruct (parseFields L environ ENV_PREFIX (reflectConfig cfg)).2; cbn [outcome];
      [|done..].
    rewrite addOns_storeConfig.
    pose proof (addOnBlocks_safe (addOnPasses I) (addOns cfg) Hsafe) as Hb.
    by destruct (addOnBlocks L environ (addOnPasses I) (addOns cfg)).
Qed.

End NoPanic.

Lemma parseEnvs_no_panic_witness :
  exists r err,
    (parseEnvs Sample.lib Sample.envEnableAndLabels Sample.addOnPrefix Sample.addOn).2
    = Returned r err.
Proof.
  pose proof (parseEnvs_no_panic Sample.lib Sample.envEnableAndLabels Sample.addOnPrefix
                Sample.addOn ltac:(unfold Sample.addOn; repeat constructor)) as Hne.
  destruct (parseEnvs Sample.lib Sample.envEnableAndLabels Sample.addOnPrefix
              Sample.addOn).2 as [r err|]; [by exists r, err|done].
Defined.

Lemma UpdateFromEnvs_no_panic_witness :
  exists err,
    (UpdateFromEnvs Sample.lib Fixture.imports Fixture.envPromptAndCompletes Fixture.cfg1).2
    = Returns err.
Proof.
  destruct (UpdateFromEnvs_no_panic Sample.lib Fixture.envPromptAndCompletes
              Fixture.imports Fixture.cfg1) as [_ Hne].
  assert (Forall2 (safe Sample.lib Fixture.envPromptAndCompletes) (addOnPasses Fixture.imports)
            (addOns Fixture.cfg1)) as Hsafe.
  { unfold addOnPasses, Fixture.cfg1. cbn [addOns set_addOns NewDefault].
    repeat constructor; by right. }
  specialize (Hne Hsafe).
  destruct (UpdateFromEnvs Sample.lib Fixture.imports Fixture.envPromptAndCompletes
              Fixture.cfg1).2 as [err|]; [by exists err|done].
Defined.

(** ** [NewDefault] *)

Section Default.
Context (L : Library) (I : Imports) (environ : gmap string string).

(** X17.  [NewDefault] has already taken the cluster name from
    [K8S_TESTER_CLUSTER_NAME]: under the same environment
    [UpdateFromEnvs] leaves the name of a fresh default tree as it is,
    however the call ends. *)
Theorem NewDefault_ClusterName :
  ClusterName (UpdateFromEnvs L I environ (NewDefault I environ)).1
  = ClusterName (NewDefault I environ).
Proof.
  set (cfg := NewDefault I environ).
  set (sf := field "ClusterName" (TPlain String_) [("json", "cluster_name")]).
  assert ((parseFields L environ ENV_PREFIX (reflectConfig cfg)).1 !! 3%nat
          = Some (sf, VString (ClusterName cfg))) as Hname.
  { destruct (reaches_dec L environ ENV_PREFIX (reflectConfig cfg) 3) as [Hr|Hr].
    - destruct (parseFields_reached L environ ENV_PREFIX (reflectConfig cfg) 3 sf
                  (VString (ClusterName cfg)) eq_refl Hr) as [-> _].
      rewrite held_string by done. do 3 f_equal.
      change (envName L ENV_PREFIX sf) with "K8S_TESTER_CLUSTER_NAME".
      unfold fromEnv, cfg, NewDefault. cbn [ClusterName].
      change (ENV_PREFIX +:+ "CLUSTER_NAME") with "K8S_TESTER_CLUSTER_NAME".
      cbv zeta. by repeat case_bool_decide.
    - by destruct (parseFields_unreached L environ ENV_PREFIX (reflectConfig cfg) 3 sf
                     (VString (ClusterName cfg)) eq_refl Hr). }
  unfold UpdateFromEnvs. rewrite parseEnvs_eq.
  destruct (parseFields L environ ENV_PREFIX (reflectConfig cfg)).2; cbn [outcome].
  - destruct (addOnBlocks L environ (addOnPasses I) _) as [l c].
    cbn [fst set_addOns storeConfig ClusterName]. by rewrite Hname.
  - cbn [fst storeConfig ClusterName]. by rewrite Hname.
  - cbn [fst storeConfig ClusterName]. by rewrite Hname.
Qed.

Lemma UpdateFromEnvs_ConfigPath cfg cfg' :
  UpdateFromEnvs L I environ cfg = (cfg', Returns None) ->
  mu cfg' = mu cfg
  /\ ConfigPath cfg' = fromEnv environ "K8S_TESTER_CONFIG_PATH" (ConfigPath cfg) id.
Proof.
  intros Hrun. destruct (UpdateFromEnvs_root L I environ cfg cfg' Hrun) as [_ [l ->]].
  split; [done|].
  unfold set_addOns, storeConfig, stepAll, reflectConfig, ConfigType, ConfigValues.
  cbn [ConfigPath zip zip_with map lookup list_lookup fst snd].
  by rewrite held_string.
Qed.

(** X18.  A fresh default tree has no configuration path: [Sync] on it
    returns the empty-path error, without a panic and without writing;
    and so it does after an [UpdateFromEnvs] that returned no error,
    unless [K8S_TESTER_CONFIG_PATH] holds a value, which is then the
    path of the tree. *)
Theorem NewDefault_Sync (Y : YAML) (os : OS) :
  Sync Y os (NewDefault I environ)
  = (os, NewDefault I environ, Returns (Some EmptyConfigPath))
  /\ (forall cfg',
        UpdateFromEnvs L I environ (NewDefault I environ) = (cfg', Returns None) ->
        ConfigPath cfg' = Getenv environ "K8S_TESTER_CONFIG_PATH"
        /\ (Getenv environ "K8S_TESTER_CONFIG_PATH" = EmptyString ->
            Sync Y os cfg' = (os, cfg', Returns (Some EmptyConfigPath)))).
Proof.
  split; [done|]. intros cfg' Hrun.
  destruct (UpdateFromEnvs_ConfigPath _ _ Hrun) as [Hmu Hpath].
  assert (ConfigPath cfg' = Getenv environ "K8S_TESTER_CONFIG_PATH") as Hcp.
  { rewrite Hpath. unfold fromEnv. cbv zeta. by case_bool_decide. }
  split; [done|]. intros Hunset.
  unfold Sync. rewrite Hmu. cbn [mu NewDefault].
  unfold unsafeSync. by rewrite bool_decide_eq_true_2 by congruence.
Qed.

End Default.

Lemma NewDefault_Sync_witness :
  Sync Sample.yaml Sample.os0 (NewDefault Fixture.imports (Fixture.envCompletes "7"))
  = (Sample.os0, NewDefault Fixture.imports (Fixture.envCompletes "7"),
     Returns (Some EmptyConfigPath))
  /\ Sync Sample.yaml Sample.os0
       (UpdateFromEnvs Sample.lib Fixture.imports (Fixture.envCompletes "7")
          (NewDefault Fixture.imports (Fixture.envCompletes "7"))).1
     = (Sample.os0,
        (UpdateFromEnvs Sample.lib Fixture.imports (Fixture.envCompletes "7")
           (NewDefault Fixture.imports (Fixture.envCompletes "7"))).1,
        Returns (Some EmptyConfigPath)).
Proof.
  destruct (NewDefault_Sync Sample.lib Fixture.imports (Fixture.envCompletes "7")
              Sample.yaml Sample.os0) as (Hfresh & Hafter).
  split; [exact Hfresh|].
  destruct (Hafter (UpdateFromEnvs Sample.lib Fixture.imports (Fixture.envCompletes "7")
                      (NewDefault Fixture.imports (Fixture.envCompletes "7"))).1)
    as [_ Hsync]; [by vm_compute|].
  apply Hsync. by vm_compute.
Defined.

(** ** What [Sync] and [Load] touch *)

Lemma Abs_cwd os os2 p : cwd os2 = cwd os -> Abs os2 p = Abs os p.
Proof. intros Hcwd. unfold Abs, Getwd. by rewrite Hcwd. Qed.

(** Whatever it returns, a write leaves the system as it is or with
    other bytes at the location of the name. *)
Lemma WriteFile_touches os name d os' err :
  WriteFile os name d = (os', err) ->
  os' = os \/ exists k d', namei os name = Some k /\ os' = put os k d'.
Proof.
  unfold WriteFile. case_bool_decide; [intros [= <- _]; by left|].
  destruct (namei os name) as [k|]; [|intros [= <- _]; by left].
  case_bool_decide; [intros [= <- _]; by left|].
  destruct (short os !! k) as [n|].
  - destruct (n <? String.length d)%nat; intros [= <- _]; right; by eexists _, _.
  - intros [= <- _]. right. by eexists _, _.
Qed.

Section Steps.
Context (Y : YAML).

(** [unsafeSync] step by step. *)
Lemma unsafeSync_steps os cfg :
  unsafeSync Y os cfg =
  if bool_decide (ConfigPath cfg = EmptyString) then (os, cfg, Some EmptyConfigPath) else
  match resolve os (ConfigPath cfg) with
  | (_, Some err) => (os, cfg, Some err)
  | (cp, None) =>
      match resolve os (KubeconfigPath cfg) with
      | (_, Some err) => (os, set_ConfigPath cp cfg, Some err)
      | (kp, None) =>
          ((write Y os (set_KubeconfigPath kp (set_ConfigPath cp cfg))).1,
           set_KubeconfigPath kp (set_ConfigPath cp cfg),
           (write Y os (set_KubeconfigPath kp (set_ConfigPath cp cfg))).2)
      end
  end.
Proof.
  unfold unsafeSync, resolve, write. case_bool_decide as Hcp; [done|].
  destruct (bool_decide (ConfigPath cfg ≠ EmptyString) && negb (Filepath.IsAbs (ConfigPath cfg))).
  - destruct (Abs os (ConfigPath cfg)) as [p [e|]]; [done|].
    change (KubeconfigPath (set_ConfigPath p cfg)) with (KubeconfigPath cfg).
    destruct (bool_decide (KubeconfigPath cfg ≠ EmptyString)
              && negb (Filepath.IsAbs (KubeconfigPath cfg))).
    + destruct (Abs os (KubeconfigPath cfg)) as [q [e|]]; [done|].
      destruct (yaml_Marshal Y _) as [d [e|]]; [done|].
      by destruct (WriteFile os _ d) as [os1 [e|]].
    + replace (set_KubeconfigPath (KubeconfigPath cfg) (set_ConfigPath p cfg))
        with (set_ConfigPath p cfg) by (by destruct cfg).
      destruct (yaml_Marshal Y _) as [d [e|]]; [done|].
      by destruct (WriteFile os _ d) as [os1 [e|]].
  - rewrite set_ConfigPath_id.
    destruct (bool_decide (KubeconfigPath cfg ≠ EmptyString)
              && negb (Filepath.IsAbs (KubeconfigPath cfg))).
    + destruct (Abs os (KubeconfigPath cfg)) as [q [e|]]; [done|].
      destruct (yaml_Marshal Y _) as [d [e|]]; [done|].
      by destruct (WriteFile os _ d) as [os1 [e|]].
    + rewrite set_KubeconfigPath_id.
      destruct (yaml_Marshal Y _) as [d [e|]]; [done|].
      by destruct (WriteFile os _ d) as [os1 [e|]].
Qed.

(** A path that has been resolved is resolved. *)
Lemma resolve_settled os os2 p q :
  cwd os2 = cwd os -> resolve os p = (q, None) -> resolve os2 q = (q, None).
Proof.
  intros Hcwd. unfold resolve.
  destruct (bool_decide (p ≠ EmptyString) && negb (Filepath.IsAbs p)) eqn:Hc.
  - destruct (Abs os p) as [r [e|]] eqn:HA; [done|]. intros [= <-].
    by rewrite (Abs_IsAbs os p r HA), andb_false_r.
  - intros [= <-]. by rewrite Hc.
Qed.

Lemma resolve_failed os os2 p q err :
  cwd os2 = cwd os -> resolve os p = (q, Some err) -> resolve os2 p = (q, Some err).
Proof.
  intros Hcwd. unfold resolve. by rewrite (Abs_cwd os os2).
Qed.

Lemma resolve_nonempty os p q : p <> EmptyString -> resolve os p = (q, None) -> q <> EmptyString.
Proof.
  intros Hp. unfold resolve.
  destruct (bool_decide (p ≠ EmptyString) && negb (Filepath.IsAbs p)).
  - destruct (Abs os p) as [r [e|]] eqn:HA; [done|]. intros [= <-].
    apply IsAbs_nonempty. by apply (Abs_IsAbs os p).
  - by intros [= <-].
Qed.

(** The tree that [unsafeSync] leaves is not changed by another
    [unsafeSync] in the same working directory. *)
Lemma unsafeSync_settled os os2 cfg :
  cwd os2 = cwd os ->
  (unsafeSync Y os2 (unsafeSync Y os cfg).1.2).1.2 = (unsafeSync Y os cfg).1.2.
Proof.
  intros Hcwd. rewrite (unsafeSync_steps os cfg).
  case_bool_decide as Hcp.
  { cbn [fst snd]. rewrite unsafeSync_steps. by rewrite bool_decide_eq_true_2. }
  destruct (resolve os (ConfigPath cfg)) as [cp [e|]] eqn:Hr1.
  { cbn [fst snd]. rewrite unsafeSync_steps, bool_decide_eq_false_2 by done.
    by rewrite (resolve_failed os os2 _ _ _ Hcwd Hr1). }
  pose proof (resolve_nonempty os _ _ Hcp Hr1) as Hcp'.
  pose proof (resolve_settled os os2 _ _ Hcwd Hr1) as Hs1.
  destruct (resolve os (KubeconfigPath cfg)) as [kp [e|]] eqn:Hr2.
  { cbn [fst snd]. rewrite unsafeSync_steps.
    cbn [ConfigPath KubeconfigPath set_ConfigPath].
    rewrite bool_decide_eq_false_2, Hs1 by done.
    rewrite (resolve_failed os os2 _ _ _ Hcwd Hr2). cbn [fst snd].
    by destruct cfg. }
  pose proof (resolve_settled os os2 _ _ Hcwd Hr2) as Hs2.
  cbn [fst snd]. rewrite unsafeSync_steps.
  cbn [ConfigPath KubeconfigPath set_ConfigPath set_KubeconfigPath].
  rewrite bool_decide_eq_false_2, Hs1, Hs2 by done. cbn [fst snd].
  by destruct cfg.
Qed.

End Steps.

Section SyncFacts.
Context (Y : YAML).

Lemma resolve_absolute os p :
  p = EmptyString \/ Filepath.IsAbs p = true -> resolve os p = (p, None).
Proof.
  intros [->|Habs]; unfold resolve; [done|]. by rewrite Habs, andb_false_r.
Qed.

Lemma WriteFile_again os name d os' :
  WriteFile os name d = (os', None) -> WriteFile os' name d = (os', None).
Proof.
  intros Hw. destruct (WriteFile_put os name d os' Hw) as (Hname & k & Hk & Hnot & ->).
  revert Hw. unfold WriteFile. rewrite !bool_decide_eq_false_2 by done.
  cbn [put namei unwritable short]. rewrite Hk, !bool_decide_eq_false_2 by done.
  assert (put (put os k d) k d = put os k d) as Hput.
  { unfold put. cbn [cwd namei files unwritable short stderr]. by rewrite insert_insert_eq. }
  destruct (short os !! k) as [n|]; [|by rewrite Hput].
  destruct (n <? String.length d)%nat; [done|by rewrite Hput].
Qed.

(** The end of [unsafeSync] writes at the location of the [ConfigPath]
    or nowhere. *)
Lemma write_touches os cfg os' err :
  write Y os cfg = (os', err) ->
  (os' = os \/ exists k d', namei os (ConfigPath cfg) = Some k /\ os' = put os k d')
  /\ ((forall e, err <> Some (WriteError (ConfigPath cfg) e)) -> err <> None -> os' = os).
Proof.
  unfold write. destruct (yaml_Marshal Y cfg) as [d [e|]].
  - intros [= <- <-]. split; [by left|done].
  - destruct (WriteFile os (ConfigPath cfg) d) as [os1 [e|]] eqn:Hw; intros [= <- <-].
    + split; [by apply (WriteFile_touches os _ d os1 (Some e))|].
      intros Hne _. by destruct (Hne e).
    + split; [by apply (WriteFile_touches os _ d os1 None)|done].
Qed.

(** [unsafeSync] changes the two paths of the tree at most, and of the
    system one file at most, the one its [ConfigPath] names. *)
Lemma unsafeSync_footprint os cfg os' cfg' err :
  unsafeSync Y os cfg = (os', cfg', err) ->
  cfg' = set_KubeconfigPath (KubeconfigPath cfg') (set_ConfigPath (ConfigPath cfg') cfg)
  /\ (os' = os \/ exists k d', namei os (ConfigPath cfg') = Some k /\ os' = put os k d')
  /\ ((forall e, err <> Some (WriteError (ConfigPath cfg') e)) -> err <> None -> os' = os).
Proof.
  rewrite unsafeSync_steps. case_bool_decide.
  { intros [= <- <- <-]. split; [by destruct cfg|]. split; [by left|done]. }
  destruct (resolve os (ConfigPath cfg)) as [cp [e|]].
  { intros [= <- <- <-]. split; [by destruct cfg|]. split; [by left|done]. }
  destruct (resolve os (KubeconfigPath cfg)) as [kp [e|]].
  { intros [= <- <- <-]. split; [by destruct cfg|]. split; [by left|done]. }
  intros [= <- <- <-]. split; [by destruct cfg|].
  apply write_touches. by destruct (write Y os _).
Qed.

(** What [unsafeSync] keeps of the system. *)
Lemma unsafeSync_system os cfg os' cfg' err :
  unsafeSync Y os cfg = (os', cfg', err) ->
  cwd os' = cwd os /\ namei os' = namei os /\ unwritable os' = unwritable os
  /\ short os' = short os /\ stderr os' = stderr os
  /\ (forall k, namei os (ConfigPath cfg') <> Some k -> files os' !! k = files os !! k).
Proof.
  intros Hu. destruct (unsafeSync_footprint os cfg os' cfg' err Hu)
    as (_ & [->|(k & d' & Hk & ->)] & _); [done|].
  cbn [put cwd namei unwritable short stderr files]. repeat split.
  intros k' Hne. rewrite lookup_insert_ne; [done|]. intros <-. by rewrite Hk in Hne.
Qed.

(** X19.  [Sync] touches the two paths of the tree and one file at most,
    and nothing else: every other field of the tree, the working
    directory, the standard error and every file but the one at the
    location the kernel resolves the [ConfigPath] of the tree to are as
    they were.  A call that ends before the write, with a panic, the
    empty-path error, a path that cannot be made absolute or a tree that
    cannot be serialized, leaves the system as it is; a write that fails
    may leave that one file changed. *)
Theorem Sync_footprint (os : OS) (cfg : Config) (os' : OS) (cfg' : Config)
    (c : Call (option error)) :
  Sync Y os cfg = (os', cfg', c) ->
  cfg' = set_KubeconfigPath (KubeconfigPath cfg') (set_ConfigPath (ConfigPath cfg') cfg)
  /\ cwd os' = cwd os /\ namei os' = namei os /\ unwritable os' = unwritable os
  /\ short os' = short os /\ stderr os' = stderr os
  /\ (forall k, namei os (ConfigPath cfg') <> Some k -> files os' !! k = files os !! k)
  /\ ((forall e, c <> Returns (Some (WriteError (ConfigPath cfg') e))) ->
      c <> Returns None -> os' = os).
Proof.
  unfold Sync. destruct (mu cfg) as [[]|].
  - destruct (unsafeSync Y os cfg) as [[os1 cfg1] err] eqn:Hu. intros [= <- <- <-].
    destruct (unsafeSync_footprint os cfg os1 cfg1 err Hu) as (Hshape & _ & Hos).
    destruct (unsafeSync_system os cfg os1 cfg1 err Hu)
      as (Hcwd & Hn & Hun & Hsh & Herr & Hfiles).
    do 7 (split; [done|]). intros Hw Hnone. apply Hos.
    + intros e ->. by destruct (Hw e).
    + intros ->. by destruct Hnone.
  - intros [= <- <- <-]. split; [by destruct cfg|]. by repeat split.
Qed.

(** X20.  A second [Sync] changes nothing: whatever the first call
    returned, the tree it left is left as it is by another call in the
    same working directory; and after a call that returned nil, another
    call on the system it left returns nil and leaves that system as it
    is. *)
Theorem Sync_again (os : OS) (cfg : Config) (os' : OS) (cfg' : Config)
    (c : Call (option error)) :
  Sync Y os cfg = (os', cfg', c) ->
  (forall os2, cwd os2 = cwd os -> (Sync Y os2 cfg').1.2 = cfg')
  /\ (c = Returns None -> Sync Y os' cfg' = (os', cfg', Returns None)).
Proof.
  unfold Sync. destruct (mu cfg) as [[]|] eqn:Hmu.
  - destruct (unsafeSync Y os cfg) as [[os1 cfg1] err] eqn:Hu. intros [= <- <- <-].
    destruct (unsafeSync_footprint os cfg os1 cfg1 err Hu) as [Hshape _].
    assert (mu cfg1 = Some Unlocked) as Hmu1 by (by rewrite Hshape).
    rewrite Hmu1. split.
    + intros os2 Hcwd. pose proof (unsafeSync_settled Y os os2 cfg Hcwd) as Hs.
      rewrite Hu in Hs. cbn [fst snd] in Hs.
      by destruct (unsafeSync Y os2 cfg1) as [[os3 cfg3] err3].
    + intros [= ->].
      destruct (unsafeSync_success Y os cfg os1 cfg1 Hu)
        as (_ & _ & Habs & Hk & _ & d & Hd & Hw).
      rewrite unsafeSync_steps.
      rewrite bool_decide_eq_false_2 by by apply IsAbs_nonempty.
      rewrite (resolve_absolute os1 (ConfigPath cfg1)) by by right.
      rewrite (resolve_absolute os1 (KubeconfigPath cfg1)) by (destruct Hk as [[] |]; auto).
      rewrite set_ConfigPath_id, set_KubeconfigPath_id.
      unfold write. rewrite Hd, (WriteFile_again os _ d os1 Hw). done.
  - intros [= <- <- <-]. rewrite Hmu. by split.
Qed.

End SyncFacts.

Lemma Sync_footprint_witness :
  files (Sync Sample.yaml Sample.os0 Sample.cfg0).1.1 !! "/tmp/kubeconfig"
  = files Sample.os0 !! "/tmp/kubeconfig"
  /\ stderr (Sync Sample.yaml Sample.os0 Sample.cfg0).1.1 = stderr Sample.os0.
Proof.
  destruct (Sync_footprint Sample.yaml Sample.os0 Sample.cfg0
              (Sync Sample.yaml Sample.os0 Sample.cfg0).1.1
              (Sync Sample.yaml Sample.os0 Sample.cfg0).1.2
              (Sync Sample.yaml Sample.os0 Sample.cfg0).2)
    as (_ & _ & _ & _ & _ & Herr & Hfiles & _);
    [by destruct (Sync Sample.yaml Sample.os0 Sample.cfg0) as [[] ]|].
  split; [|exact Herr]. apply Hfiles. by vm_compute.
Defined.

Lemma Sync_again_witness :
  Sync Sample.yaml (Sync Sample.yaml Sample.os0 Sample.cfg0).1.1
    (Sync Sample.yaml Sample.os0 Sample.cfg0).1.2
  = ((Sync Sample.yaml Sample.os0 Sample.cfg0).1.1,
     (Sync Sample.yaml Sample.os0 Sample.cfg0).1.2, Returns None).
Proof.
  destruct (Sync_again Sample.yaml Sample.os0 Sample.cfg0
              (Sync Sample.yaml Sample.os0 Sample.cfg0).1.1
              (Sync Sample.yaml Sample.os0 Sample.cfg0).1.2
              (Sync Sample.yaml Sample.os0 Sample.cfg0).2)
    as [_ Hagain]; [by destruct (Sync Sample.yaml Sample.os0 Sample.cfg0) as [[] ]|].
  apply Hagain. by vm_compute.
Defined.

Section LoadFacts.
Context (Y : YAML).

Lemma resolve_cases os p q :
  resolve os p = (q, None) -> q = p \/ Abs os p = (q, None).
Proof.
  unfold resolve. destruct (bool_decide (p ≠ EmptyString) && negb (Filepath.IsAbs p)).
  - destruct (Abs os p) as [r [e|]]; [done|]. intros [= <-]. by right.
  - intros [= <-]. by left.
Qed.

(** [Load] from the point where the document has been decoded. *)
Lemma Load_decoded os p d decoded ap :
  ReadFile os p = (d, None) ->
  yaml_Unmarshal Y d newConfig [DisallowUnknownFields] = (decoded, None) ->
  Abs os p = (ap, None) ->
  Load Y os p =
  let r := unsafeSync Y os (set_ConfigPath ap (set_mu (Some Unlocked) decoded)) in
  (match r.2 with Some serr => warn r.1.1 serr | None => r.1.1 end, (Some r.1.2, None)).
Proof.
  intros Hr Hd Ha. unfold Load. rewrite Hr, Hd, Ha. cbv zeta.
  replace (set_ConfigPath ap
             (if bool_decide (ConfigPath (set_mu (Some Unlocked) decoded) ≠ p)
              then set_ConfigPath p (set_mu (Some Unlocked) decoded)
              else set_mu (Some Unlocked) decoded))
    with (set_ConfigPath ap (set_mu (Some Unlocked) decoded))
    by (by case_bool_decide).
  by destruct (unsafeSync Y os _) as [[os1 cfg1] [serr|]].
Qed.

Lemma Load_inv os p os' cfg' e :
  Load Y os p = (os', (Some cfg', e)) ->
  exists d decoded ap,
    ReadFile os p = (d, None)
    /\ yaml_Unmarshal Y d newConfig [DisallowUnknownFields] = (decoded, None)
    /\ Abs os p = (ap, None).
Proof.
  unfold Load. destruct (ReadFile os p) as [d [e1|]] eqn:Hr; [done|].
  destruct (yaml_Unmarshal Y d newConfig [DisallowUnknownFields]) as [decoded [e2|]] eqn:Hd;
    [done|].
  destruct (Abs os p) as [ap [e3|]] eqn:Ha; [done|].
  intros _. by exists d, decoded, ap.
Qed.

End LoadFacts.

Section LoadTheorems.
Context (Y : YAML).

(** X21.  The tree [Load] returns is the decoded document with a fresh
    mutex and with the absolute form of the path loaded as its
    [ConfigPath], whatever [config_path] the document holds; its
    [KubeconfigPath] is the one of the document or the absolute form of
    it; no other field differs from the document.  [Load] returns no
    error with a tree. *)
Theorem Load_tree (os : OS) (p : string) (os' : OS) (cfg' : Config) (e : option error) :
  Load Y os p = (os', (Some cfg', e)) ->
  e = None
  /\ exists d decoded ap,
       ReadFile os p = (d, None)
       /\ yaml_Unmarshal Y d newConfig [DisallowUnknownFields] = (decoded, None)
       /\ Abs os p = (ap, None)
       /\ cfg' = set_KubeconfigPath (KubeconfigPath cfg')
                   (set_ConfigPath ap (set_mu (Some Unlocked) decoded))
       /\ (KubeconfigPath cfg' = KubeconfigPath decoded
           \/ Abs os (KubeconfigPath decoded) = (KubeconfigPath cfg', None)).
Proof.
  intros Hload. destruct (Load_inv Y os p os' cfg' e Hload) as (d & decoded & ap & Hr & Hd & Ha).
  rewrite (Load_decoded Y os p d decoded ap Hr Hd Ha) in Hload. cbv zeta in Hload.
  injection Hload as _ Hcfg He. split; [done|].
  exists d, decoded, ap. do 3 (split; [done|]).
  pose proof (Abs_IsAbs os p ap Ha) as Habs.
  rewrite unsafeSync_steps in Hcfg.
  cbn [ConfigPath KubeconfigPath set_ConfigPath set_mu] in Hcfg.
  rewrite bool_decide_eq_false_2 in Hcfg by by apply IsAbs_nonempty.
  rewrite (resolve_absolute os ap) in Hcfg by by right.
  destruct (resolve os (KubeconfigPath decoded)) as [kp [err|]] eqn:Hk;
    cbn [fst snd] in Hcfg; subst cfg'.
  - split; [done|]. by left.
  - split; [done|]. cbn [KubeconfigPath set_KubeconfigPath].
    destruct (resolve_cases os _ _ Hk) as [->|HA]; [by left|by right].
Qed.

(** X22.  Once the file has been read and decoded and its name made
    absolute, [Load] returns the tree and no error, whether or not the
    tree can be written back.  The working directory and every file but
    the one at the location the kernel resolves the absolute name to are
    as they were; either nothing is printed and the file under the
    absolute name holds the tree as serialized, or one warning is
    printed on the standard error. *)
Theorem Load_tolerates_failed_sync (os : OS) (p d : string) (decoded : Config)
    (ap : string) :
  ReadFile os p = (d, None) ->
  yaml_Unmarshal Y d newConfig [DisallowUnknownFields] = (decoded, None) ->
  Abs os p = (ap, None) ->
  exists os' cfg',
    Load Y os p = (os', (Some cfg', None))
    /\ cwd os' = cwd os /\ namei os' = namei os
    /\ (forall k, namei os ap <> Some k -> files os' !! k = files os !! k)
    /\ ((stderr os' = stderr os
         /\ exists d', yaml_Marshal Y cfg' = (d', None) /\ ReadFile os' ap = (d', None))
        \/ exists serr, stderr os' = stderr os ++ [serr]).
Proof.
  intros Hr Hd Ha.
  rewrite (Load_decoded Y os p d decoded ap Hr Hd Ha). cbv zeta.
  destruct (unsafeSync Y os (set_ConfigPath ap (set_mu (Some Unlocked) decoded)))
    as [[os1 cfg1] serr] eqn:Hu. cbn [fst snd].
  destruct (unsafeSync_system Y os _ os1 cfg1 serr Hu)
    as (Hcwd & Hn & _ & _ & Herr & Hfiles).
  pose proof (unsafeSync_ConfigPath Y os (set_ConfigPath ap (set_mu (Some Unlocked) decoded))
                (Abs_IsAbs os p ap Ha)) as Hcp.
  rewrite Hu in Hcp. cbn [fst snd ConfigPath set_ConfigPath] in Hcp.
  rewrite Hcp in Hfiles.
  destruct serr as [serr|].
  - exists (warn os1 serr), cfg1. split; [done|]. do 3 (split; [done|]).
    right. exists serr. cbn [warn stderr]. by rewrite Herr.
  - exists os1, cfg1. split; [done|]. do 3 (split; [done|]). left. split; [done|].
    destruct (unsafeSync_success Y os _ os1 cfg1 Hu) as (_ & _ & _ & _ & _ & d' & Hd' & Hw).
    exists d'. split; [done|]. rewrite Hcp in Hw. by apply (ReadFile_WriteFile os).
Qed.

(** X23.  [Sync] on a tree that [Load] has returned, in the system
    [Load] has left, does not panic and leaves the tree as it is: the
    tree has a mutex and its paths are settled. *)
Theorem Load_then_Sync (os : OS) (p : string) (os' : OS) (cfg' : Config)
    (e : option error) :
  Load Y os p = (os', (Some cfg', e)) ->
  exists os'' err, Sync Y os' cfg' = (os'', cfg', Returns err).
Proof.
  intros Hload. destruct (Load_inv Y os p os' cfg' e Hload) as (d & decoded & ap & Hr & Hd & Ha).
  rewrite (Load_decoded Y os p d decoded ap Hr Hd Ha) in Hload. cbv zeta in Hload.
  destruct (unsafeSync Y os (set_ConfigPath ap (set_mu (Some Unlocked) decoded)))
    as [[os1 cfg1] serr] eqn:Hu. cbn [fst snd] in Hload.
  injection Hload as Hos Hcfg _. subst cfg1.
  destruct (unsafeSync_footprint Y os _ os1 cfg' serr Hu) as [Hshape _].
  destruct (unsafeSync_system Y os _ os1 cfg' serr Hu) as (Hcwd & _).
  assert (cwd os' = cwd os) as Hcwd'.
  { subst os'. by destruct serr. }
  pose proof (unsafeSync_settled Y os os'
                (set_ConfigPath ap (set_mu (Some Unlocked) decoded)) Hcwd') as Hs.
  rewrite Hu in Hs. cbn [fst snd] in Hs.
  unfold Sync. replace (mu cfg') with (Some Unlocked) by (by rewrite Hshape).
  destruct (unsafeSync Y os' cfg') as [[os3 cfg3] err3]. cbn [fst snd] in Hs. subst cfg3.
  by exists os3, err3.
Qed.

End LoadTheorems.

Lemma Load_tree_witness :
  exists os' cfg',
    Load Sample.yaml Fixture.osSaved "/tmp/cfg.yaml" = (os', (Some cfg', None))
    /\ exists d decoded ap,
         ReadFile Fixture.osSaved "/tmp/cfg.yaml" = (d, None)
         /\ yaml_Unmarshal Sample.yaml d newConfig [DisallowUnknownFields] = (decoded, None)
         /\ Abs Fixture.osSaved "/tmp/cfg.yaml" = (ap, None)
         /\ cfg' = set_KubeconfigPath (KubeconfigPath cfg')
                     (set_ConfigPath ap (set_mu (Some Unlocked) decoded)).
Proof.
  destruct (Load Sample.yaml Fixture.osSaved "/tmp/cfg.yaml") as [os' [[cfg'|] e]] eqn:HL;
    [|by vm_compute in HL].
  destruct (Load_tree Sample.yaml Fixture.osSaved "/tmp/cfg.yaml" os' cfg' e HL)
    as [-> (d & decoded & ap & Hr & Hd & Ha & Hshape & _)].
  exists os', cfg'. split; [reflexivity|]. exists d, decoded, ap.
  exact (conj Hr (conj Hd (conj Ha Hshape))).
Defined.

Lemma Load_tolerates_failed_sync_witness :
  exists os' cfg',
    Load Sample.yaml Fixture.osSaved "/tmp/cfg.yaml" = (os', (Some cfg', None))
    /\ files os' !! "/tmp/kubeconfig" = files Fixture.osSaved !! "/tmp/kubeconfig"
    /\ exists serr, stderr os' = stderr Fixture.osSaved ++ [serr].
Proof.
  destruct (Load_tolerates_failed_sync Sample.yaml Fixture.osSaved "/tmp/cfg.yaml"
              (Sample.Marshal Sample.cfg0).1
              (yaml_Unmarshal Sample.yaml (Sample.Marshal Sample.cfg0).1 newConfig
                 [DisallowUnknownFields]).1 "/tmp/cfg.yaml")
    as (os' & cfg' & HL & _ & _ & Hfiles & [[Herr _]|Hwarn]);
    [by vm_compute|by vm_compute|by vm_compute| |].
  - vm_compute in HL. injection HL as <- _. by vm_compute in Herr.
  - exists os', cfg'. split; [exact HL|]. split; [|exact Hwarn].
    apply Hfiles. by vm_compute.
Defined.

Lemma Load_then_Sync_witness :
  exists os' cfg' os'' err,
    Load Sample.yaml Fixture.osSaved "/tmp/cfg.yaml" = (os', (Some cfg', None))
    /\ Sync Sample.yaml os' cfg' = (os'', cfg', Returns err).
Proof.
  destruct (Load Sample.yaml Fixture.osSaved "/tmp/cfg.yaml") as [os' [[cfg'|] e]] eqn:HL;
    [|by vm_compute in HL].
  destruct (Load_then_Sync Sample.yaml Fixture.osSaved "/tmp/cfg.yaml" os' cfg' e HL)
    as (os'' & err & HS).
  assert (e = None) as -> by (vm_compute in HL; by injection HL).
  exists os', cfg', os'', err. exact (conj eq_refl HS).
Defined.

(** ** Overrides replace *)

Section Replace.
Context (L : Library) (environ : gmap string string) (pfx : string).

(** X24.  An override replaces, it never merges: when the variable of a
    field the [switch] has a case for holds a value and the step goes
    on, what the field holds afterwards does not depend on what it held
    before; a map or a list keeps none of its old entries. *)
Theorem override_replaces (sf : StructField) (v1 v2 : Value) :
  Tag_Get (Tag sf) "json" <> EmptyString ->
  Getenv environ (envName L pfx sf) <> EmptyString ->
  kindOf (Type_ sf) ∈ switchKinds ->
  goesOn (parseField L environ pfx sf v1) ->
  parseField L environ pfx sf v2 = parseField L environ pfx sf v1.
Proof.
  intros Hj Hsv Hk.
  destruct (decide (Tag_Get (Tag sf) "read-only" = "true")) as [Hro|Hro];
    [by rewrite parseField_read_only|].
  rewrite !parseField_switch by done. cbv zeta. unfold set, Set_, switchKinds in *.
  destruct (kindOf (Type_ sf));
    try (exfalso; repeat (apply elem_of_cons in Hk as [Hk|Hk]; [discriminate Hk|]);
         by apply elem_of_nil in Hk).
  all: repeat case_match; try done; try (by intros []).
Qed.

End Replace.

Lemma override_replaces_witness :
  parseField Sample.lib Sample.envLogOutputs ENV_PREFIX
    (field "LogOutputs" stringSlice [("json", "log-outputs")]) (VSlice None)
  = parseField Sample.lib Sample.envLogOutputs ENV_PREFIX
      (field "LogOutputs" stringSlice [("json", "log-outputs")])
      (VSlice (Some ["stderr"; "stdout"])).
Proof.
  apply override_replaces; [by vm_compute|by vm_compute| |by vm_compute].
  unfold switchKinds. cbn. do 10 right. by left.
Defined.

(** ** The names of the variables *)

Lemma upper_not_lowercase c : lowercase (Strings.upper c) = false.
Proof. destruct c as [[] [] [] [] [] [] [] []]; by vm_compute. Qed.

Lemma upperKey_upperASCII_Replace s :
  upperKey (Strings.upperASCII (Strings.Replace s "-" "_")) = true.
Proof.
  unfold Strings.Replace. induction s as [|c r IH]; [done|].
  cbn [Strings.replace_from]. rewrite HasPrefix_dash.
  change (String.length "-" - 1)%nat with 0%nat.
  case_bool_decide as Hc.
  - change ("_" +:+ Strings.replace_from 0 "-" "_" r)
      with (String "_" (Strings.replace_from 0 "-" "_" r)).
    cbn [Strings.upperASCII upperKey]. by rewrite IH.
  - cbn [Strings.upperASCII upperKey]. rewrite IH, upper_not_lowercase.
    rewrite bool_decide_eq_false_2; [done|]. by rewrite upper_dash.
Qed.

(** X25.  For a json tag of ASCII bytes the key [parseEnvs] derives
    holds no dash and no lowercase letter: the name of the variable
    looked up for the field is the prefix followed by such a key. *)
Theorem envName_upperKey (L : Library) (pfx : string) (sf : StructField) :
  Strings.isASCII (Tag_Get (Tag sf) "json") = true ->
  exists key, envName L pfx sf = pfx +:+ key /\ upperKey key = true.
Proof.
  intros Hascii. exists (envKey L (Tag_Get (Tag sf) "json")). split; [done|].
  unfold envKey. cbv zeta. unfold Strings.ToUpper.
  rewrite isASCII_Replace_dash.
  replace (Strings.isASCII (Strings.Replace (Tag_Get (Tag sf) "json") ",omitempty" ""))
    with true by (symmetry; by apply isASCII_replace_from).
  apply upperKey_upperASCII_Replace.
Qed.

Lemma envName_upperKey_witness :
  exists key,
    envName Sample.lib ENV_PREFIX
      (field "KubectlDownloadURL" (TPlain String_) [("json", "kubectl-download-url")])
    = ENV_PREFIX +:+ key
    /\ upperKey key = true.
Proof. apply envName_upperKey. reflexivity. Defined.

(** ** [UpdateFromEnvs] twice *)

Section Twice.
Context (L : Library) (environ : gmap string string).

(** After its step a field holds what it held, or a value of the type
    stored in a field of its kind. *)
Lemma held_kind pfx sf v :
  held (parseField L environ pfx sf v) = v
  \/ ofKind (kindOf (Type_ sf)) (held (parseField L environ pfx sf v)).
Proof.
  destruct (decide (Tag_Get (Tag sf) "json" = EmptyString)) as [Hj|Hj];
    [left; by rewrite parseField_untagged|].
  destruct (decide (Getenv environ (envName L pfx sf) = EmptyString)) as [Hsv|Hsv];
    [left; by rewrite parseField_unset|].
  destruct (decide (Tag_Get (Tag sf) "read-only" = "true")) as [Hro|Hro];
    [left; by rewrite parseField_read_only|].
  rewrite !parseField_switch by done. cbv zeta. unfold set, Set_.
  destruct (kindOf (Type_ sf)); repeat case_match; simplify_eq; cbn [held ofKind]; auto.
Qed.

Lemma parseFields_lookup_kind pfx vv i sf v :
  vv !! i = Some (sf, v) ->
  exists w, (parseFields L environ pfx vv).1 !! i = Some (sf, w)
            /\ (w = v \/ ofKind (kindOf (Type_ sf)) w).
Proof.
  intros Hi. destruct (reaches_dec L environ pfx vv i) as [Hr|Hr].
  - destruct (parseFields_reached L environ pfx vv i sf v Hi Hr) as [Hl _].
    exists (held (parseField L environ pfx sf v)). split; [done|]. apply held_kind.
  - destruct (parseFields_unreached L environ pfx vv i sf v Hi Hr) as [Hl _].
    exists v. split; [done|]. by left.
Qed.

(** The root read again after the pass is the struct the pass left. *)
Lemma reflectConfig_storeConfig cfg :
  reflectConfig
    (storeConfig (parseFields L environ ENV_PREFIX (reflectConfig cfg)).1 cfg)
  = (parseFields L environ ENV_PREFIX (reflectConfig cfg)).1.
Proof.
  pose proof (parseFields_length L environ ENV_PREFIX (reflectConfig cfg)) as Hlen.
  pose proof (fun i sf v => parseFields_lookup_kind ENV_PREFIX (reflectConfig cfg) i sf v)
    as Hlook.
  set (vv' := (parseFields L environ ENV_PREFIX (reflectConfig cfg)).1) in *.
  clearbody vv'. change (length (reflectConfig cfg)) with 23%nat in Hlen.
  apply list_eq. intros i.
  destruct (decide (i < 23)%nat) as [Hi|Hi].
  - do 23 (destruct i as [|i];
           [match goal with
            | |- _ !! ?k = _ =>
                edestruct (Hlook k) as (w & Hw & Hkind); [reflexivity|];
                unfold reflectConfig, storeConfig, ConfigType, ConfigValues;
                cbn [zip zip_with lookup list_lookup Prompt ClusterName ConfigPath LogColor
                     LogColorOverride LogLevel LogOutputs KubectlDownloadURL KubectlPath
                     KubeconfigPath KubeconfigContext MinimumNodes TotalNodes];
                rewrite Hw; destruct Hkind as [->|Hkind]; [done|];
                by destruct w
            end|]).
    lia.
  - rewrite !(proj2 (lookup_ge_None _ _)); [done|lia|].
    change (length (reflectConfig _)) with 23%nat. lia.
Qed.

End Twice.

Lemma storeConfig_again vv cfg : storeConfig vv (storeConfig vv cfg) = storeConfig vv cfg.
Proof.
  unfold storeConfig.
  cbn [mu Stopc Prompt ClusterName ConfigPath LogColor LogColorOverride LogLevel LogOutputs
       KubectlDownloadURL KubectlPath KubeconfigPath KubeconfigContext MinimumNodes
       TotalNodes AddOnCloudwatchAgent AddOnMetricsServer AddOnFluentBit
       AddOnKubernetesDashboard AddOnNLBHelloWorld AddOnJobsPi AddOnJobsEcho
       AddOnCronJobsEcho].
  f_equal; by repeat case_match.
Qed.

Lemma storeConfig_set_addOns vv l cfg :
  storeConfig vv (set_addOns l cfg) = set_addOns l (storeConfig vv cfg).
Proof. done. Qed.

Lemma set_addOns_again l cfg : set_addOns l (set_addOns l cfg) = set_addOns l cfg.
Proof.
  unfold set_addOns.
  cbn [mu Stopc Prompt ClusterName ConfigPath LogColor LogColorOverride LogLevel LogOutputs
       KubectlDownloadURL KubectlPath KubeconfigPath KubeconfigContext MinimumNodes
       TotalNodes AddOnCloudwatchAgent AddOnMetricsServer AddOnFluentBit
       AddOnKubernetesDashboard AddOnNLBHelloWorld AddOnJobsPi AddOnJobsEcho
       AddOnCronJobsEcho].
  f_equal; by destruct (l !! _).
Qed.

Section TwiceBlocks.
Context (L : Library) (environ : gmap string string).

Lemma parseEnvsPtr_again pfx tp a :
  parseEnvsPtr L environ pfx tp (parseEnvsPtr L environ pfx tp a).1
  = parseEnvsPtr L environ pfx tp a.
Proof.
  destruct a as [vv|]; [|done]. unfold parseEnvsPtr.
  rewrite (parseEnvs_eq L environ pfx vv). cbv beta iota. cbn [fst].
  rewrite parseEnvs_eq. cbv beta iota. cbn [fst snd]. by rewrite parseFields_again.
Qed.

Lemma addOnBlocks_again passes l :
  addOnBlocks L environ passes (addOnBlocks L environ passes l).1
  = addOnBlocks L environ passes l.
Proof.
  revert l. induction passes as [|[pfx tp] passes IH]; intros l; [by destruct l|].
  destruct l as [|a l]; [done|]. cbn [addOnBlocks].
  pose proof (parseEnvsPtr_again pfx tp a) as Ha.
  destruct (parseEnvsPtr L environ pfx tp a) as [a' o] eqn:Hp. cbn [fst] in Ha.
  destruct o as [r [err|]|].
  - cbn [fst addOnBlocks]. by rewrite Ha.
  - specialize (IH l). destruct (addOnBlocks L environ passes l) as [rest c].
    cbn [fst addOnBlocks] in *. by rewrite Ha, IH.
  - cbn [fst addOnBlocks]. by rewrite Ha.
Qed.

(** X26.  Running [UpdateFromEnvs] again on the tree it left, under the
    same environment, changes nothing more and ends the same way: with
    the same error, at the same place. *)
Theorem UpdateFromEnvs_idempotent (I : Imports) (cfg : Config) :
  UpdateFromEnvs L I environ (UpdateFromEnvs L I environ cfg).1
  = UpdateFromEnvs L I environ cfg.
Proof.
  assert (forall l,
    UpdateFromEnvs L I environ
      (set_addOns l (storeConfig (parseFields L environ ENV_PREFIX (reflectConfig cfg)).1 cfg))
    = let vv' := (parseFields L environ ENV_PREFIX (reflectConfig cfg)).1 in
      match (parseFields L environ ENV_PREFIX (reflectConfig cfg)).2 with
      | Done =>
          let cfg1 := set_addOns l (storeConfig vv' cfg) in
          let '(l', c) := addOnBlocks L environ (addOnPasses I) (addOns cfg1) in
          (set_addOns l' cfg1, c)
      | Failed err => (set_addOns l (storeConfig vv' cfg), Returns (Some err))
      | Crashed => (set_addOns l (storeConfig vv' cfg), Panics)
      end) as Hagain.
  { intros l. unfold UpdateFromEnvs at 1.
    change (reflectConfig (set_addOns l ?c)) with (reflectConfig c).
    rewrite reflectConfig_storeConfig, parseEnvs_eq, parseFields_again.
    rewrite storeConfig_set_addOns, storeConfig_again.
    by destruct (parseFields L environ ENV_PREFIX (reflectConfig cfg)).2. }
  unfold UpdateFromEnvs at 2 3. rewrite parseEnvs_eq.
  destruct (parseFields L environ ENV_PREFIX (reflectConfig cfg)).2 eqn:He; cbn [outcome].
  - rewrite addOns_storeConfig.
    pose proof (addOnBlocks_length L environ (addOnPasses I) (addOns cfg)) as Hlen.
    pose proof (addOnBlocks_again (addOnPasses I) (addOns cfg)) as Hb.
    destruct (addOnBlocks L environ (addOnPasses I) (addOns cfg)) as [l c].
    cbn [fst] in *. rewrite Hagain. cbv zeta.
    rewrite addOns_set_addOns by exact Hlen. rewrite Hb. by rewrite set_addOns_again.
  - cbn [fst].
    pose proof (Hagain (addOns (storeConfig (parseFields L environ ENV_PREFIX
                                              (reflectConfig cfg)).1 cfg))) as H.
    by rewrite !set_addOns_addOns in H.
  - cbn [fst].
    pose proof (Hagain (addOns (storeConfig (parseFields L environ ENV_PREFIX
                                              (reflectConfig cfg)).1 cfg))) as H.
    by rewrite !set_addOns_addOns in H.
Qed.

End TwiceBlocks.

(** ** [SubnetRouteTableAssociation.UnmarshalJSON] *)

Section Resource.
Context {Any : Type} (Decode : string -> list JSONOpt -> Ec2.Res.t Any * option error).



End Resource.

